(** * Session lifecycle of the AI Code Reviewer extension

    A shallow embedding of [src/utils/ai-manager.js] (both [AIManager]
    classes of that file: the first, "simple" one with a single
    [this.session], and the second, "enhanced" one with per-kind sessions
    and [initializationPromises]), of [retryWithBackoff]
    from [src/utils/helpers.js], and of the background dispatcher
    ([getOrCreateAIManager], [handleMessageAsync], the [tabs.onRemoved]
    listener) from [src/unnamed/part_000].

    JavaScript promises are modelled as follows.  A capability call awaited
    under [withTimeout] is an [awaited] value: it resolves, rejects, or
    never settles (then the timer wins the race).  Code that mutates the
    manager and may throw runs in a state-and-exception monad [M] whose
    state survives a throw, as JavaScript object mutations do.  Concurrent
    callers of the [init*Session] methods are modelled by a small event
    semantics: a call runs synchronously up to its first [await], and the
    settlement of a pending creation is a separate event. *)

From Stdlib Require Import String List Arith Lia Bool DecimalString ZArith.
From stdpp Require Import base gmap.
Import ListNotations.
Open Scope string_scope.
Open Scope list_scope.

(* ------------------------------------------------------------------ *)
(** ** Promises, timeouts and errors *)

Inductive awaited (A : Type) : Type :=
| Resolves (v : A)
| Rejects (msg : string)
| Hangs.
Arguments Resolves {A} v.
Arguments Rejects {A} msg.
Arguments Hangs {A}.

(** A thrown [Error] carries its message. *)
Definition Exc (A : Type) : Type := (string + A)%type.

(** [withTimeout(promise, ms)]: [Promise.race] of the promise and a timer
    that rejects with ['Operation timed out']. *)
Definition withTimeout {A} (p : awaited A) : Exc A :=
  match p with
  | Resolves v => inr v
  | Rejects e => inl e
  | Hangs => inl "Operation timed out"%string
  end.

(* ------------------------------------------------------------------ *)
(** ** The enhanced [AIManager] *)

Inductive kind := KPrompt | KWriter | KRewriter | KSummarizer.

#[global] Instance kind_eq_dec : EqDecision kind.
Proof. solve_decision. Defined.

(** Session handles and promise identities are opaque tokens. *)
Abbreviation sess := nat (only parsing).
Abbreviation pid := nat (only parsing).
(** Key of [translatorSessions]: [`${sourceLanguage}-${targetLanguage}`]. *)
Definition lang_key := (string * string)%type.

Definition lang_key_eqb (a b : lang_key) : bool :=
  String.eqb (fst a) (fst b) && String.eqb (snd a) (snd b).

(** The fields of the enhanced class, with the promises that are still
    in flight made explicit: [pending] lists the [_create*Session]
    promises of the four memoised kinds, [pendingT] the creations run by
    [initTranslatorSession]. *)
Record AIManager := mkAIManager {
  sessions : kind -> option sess;
  initializationPromises : kind -> option pid;
  translatorSessions : list (lang_key * sess);
  pending : list (pid * kind);
  pendingT : list (pid * lang_key);
  next_pid : pid
}.

(** [new AIManager()] *)
Definition new_AIManager : AIManager :=
  mkAIManager (fun _ => None) (fun _ => None) [] [] [] 0.

Definition upd {V} (f : kind -> V) (k : kind) (v : V) : kind -> V :=
  fun k' => if decide (k' = k) then v else f k'.

Definition set_session (k : kind) (o : option sess) (m : AIManager) : AIManager :=
  mkAIManager (upd (sessions m) k o) (initializationPromises m)
    (translatorSessions m) (pending m) (pendingT m) (next_pid m).

Definition set_initProm (k : kind) (o : option pid) (m : AIManager) : AIManager :=
  mkAIManager (sessions m) (upd (initializationPromises m) k o)
    (translatorSessions m) (pending m) (pendingT m) (next_pid m).

Definition set_translators (l : list (lang_key * sess)) (m : AIManager) : AIManager :=
  mkAIManager (sessions m) (initializationPromises m) l
    (pending m) (pendingT m) (next_pid m).

(** [Map.prototype.set]: replaces the value of an existing key in place,
    appends a new key. *)
Fixpoint map_set (key : lang_key) (v : sess) (l : list (lang_key * sess))
  : list (lang_key * sess) :=
  match l with
  | [] => [(key, v)]
  | (k', v') :: l' =>
      if lang_key_eqb k' key then (k', v) :: l' else (k', v') :: map_set key v l'
  end.

Fixpoint map_get (key : lang_key) (l : list (lang_key * sess)) : option sess :=
  match l with
  | [] => None
  | (k', v') :: l' => if lang_key_eqb k' key then Some v' else map_get key l'
  end.

(** Observable effects: calls of the capability's [create()] and of a
    session's [destroy()], and (for the executor) attempts and awaited
    backoff delays. *)
Inductive effect :=
| ECreate (k : kind)
| ECreateT (key : lang_key)
| EDestroy (s : sess)
| EAttempt (n : nat)
| EDelay (ms : nat).

Record World := mkWorld { mgr : AIManager; log : list effect }.

(** ** A state-and-exception monad; the state survives a throw *)

Definition MS (St A : Type) : Type := St -> Exc A * St.
Definition M (A : Type) : Type := MS World A.

Definition ret {St A} (a : A) : MS St A := fun w => (inr a, w).
Definition throw {St A} (e : string) : MS St A := fun w => (inl e, w).
Definition bindM {St A B} (c : MS St A) (k : A -> MS St B) : MS St B :=
  fun w => match c w with
           | (inl e, w') => (inl e, w')
           | (inr a, w') => k a w'
           end.
Definition try_catch {St A} (c : MS St A) (h : string -> MS St A) : MS St A :=
  fun w => match c w with
           | (inl e, w') => h e w'
           | ok => ok
           end.
Definition get {St} : MS St St := fun w => (inr w, w).
Definition lift {St A} (x : Exc A) : MS St A := fun w => (x, w).
Definition emit (e : effect) : M unit :=
  fun w => (inr tt, mkWorld (mgr w) (log w ++ [e])).
Definition modify_mgr (f : AIManager -> AIManager) : M unit :=
  fun w => (inr tt, mkWorld (f (mgr w)) (log w)).

Notation "'let!' x := c 'in' k" := (bindM c (fun x => k))
  (at level 200, x name, c at level 100, k at level 200).

(** ** Session creation: [_createPromptSession], [_createWriterSession], ... *)

(** What the host environment does for one creation. *)
Record CreateEnv := mkCreateEnv {
  api_present : bool;                 (* typeof X !== 'undefined' *)
  availability_res : awaited string;  (* X.availability() *)
  create_res : awaited sess           (* X.create(options) *)
}.

Definition kind_label (k : kind) : string :=
  match k with
  | KPrompt => "Prompt API"
  | KWriter => "Writer API"
  | KRewriter => "Rewriter API"
  | KSummarizer => "Summarizer API"
  end.

(** The global each [_create<Kind>Session] looks for. *)
Definition api_global (k : kind) : string :=
  match k with
  | KPrompt => "LanguageModel"
  | KWriter => "AIWriter"
  | KRewriter => "AIRewriter"
  | KSummarizer => "Summarizer"
  end.

(** [_create<Kind>Session(options)]: probe [availability()] under a 10s
    bound, refuse ['unavailable'], then call [create()] under a 60s bound;
    every error is rethrown as ["<Kind> initialization failed: ..."]. *)
Definition _createSession (k : kind) (ce : CreateEnv) : M sess :=
  try_catch
    (if negb (api_present ce) then throw (api_global k ++ " API not available")%string
     else
       let! a := lift (withTimeout (availability_res ce)) in
       if String.eqb a "unavailable" then throw (kind_label k ++ " unavailable")%string
       else
         let! _ := emit (ECreate k) in
         lift (withTimeout (create_res ce)))
    (fun e => throw (kind_label k ++ " initialization failed: " ++ e)%string).

(** What a caller of [init<Kind>Session] gets back synchronously: the
    memoised session, or a promise it awaits. *)
Inductive reply := Immediate (s : sess) | Awaits (p : pid).

Definition start_creation (k : kind) (m : AIManager) : pid * AIManager :=
  let p := next_pid m in
  (p, mkAIManager (sessions m) (upd (initializationPromises m) k (Some p))
        (translatorSessions m) ((p, k) :: pending m) (pendingT m) (S p)).

(** [init<Kind>Session(options)] up to its first [await]:
<<
    if (this.initializationPromises.has(k)) return this.initializationPromises.get(k);
    if (this.sessions[k]) return this.sessions[k];
    const initPromise = this._create<Kind>Session(options);
    this.initializationPromises.set(k, initPromise);
>> *)
Definition initSession (k : kind) (m : AIManager) : reply * AIManager :=
  match initializationPromises m k with
  | Some p => (Awaits p, m)
  | None =>
      match sessions m k with
      | Some s => (Immediate s, m)
      | None => let (p, m') := start_creation k m in (Awaits p, m')
      end
  end.

Fixpoint find_pending {K} (p : pid) (l : list (pid * K)) : option K :=
  match l with
  | [] => None
  | (p', k) :: l' => if Nat.eqb p' p then Some k else find_pending p l'
  end.

Definition remove_pending {K} (p : pid) (l : list (pid * K)) : list (pid * K) :=
  List.filter (fun pk => negb (Nat.eqb (fst pk) p)) l.

Definition drop_pending (p : pid) (m : AIManager) : AIManager :=
  mkAIManager (sessions m) (initializationPromises m) (translatorSessions m)
    (remove_pending p (pending m)) (pendingT m) (next_pid m).

(** Settlement of the creation promise [p], followed by the continuation
    of the caller that started it:
<<
    try { this.sessions[k] = await initPromise; return this.sessions[k]; }
    finally { this.initializationPromises.delete(k); }
>>
    The result is the promise's outcome, shared by every awaiting caller. *)
Definition settle (p : pid) (ce : CreateEnv) (w : World) : option (Exc sess) * World :=
  match find_pending p (pending (mgr w)) with
  | None => (None, w)
  | Some k =>
      let w0 := mkWorld (drop_pending p (mgr w)) (log w) in
      let (o, w1) := _createSession k ce w0 in
      let m2 := match o with
                | inr s => set_session k (Some s) (mgr w1)
                | inl _ => mgr w1
                end in
      (Some o, mkWorld (set_initProm k None m2) (log w1))
  end.

(** ** [initTranslatorSession(sourceLanguage, targetLanguage)] *)

(** Up to its first [await]: a memoised translator is returned; otherwise
    the creation starts at once.  No in-flight creation is recorded. *)
Definition initTranslatorSession (key : lang_key) (m : AIManager) : reply * AIManager :=
  match map_get key (translatorSessions m) with
  | Some t => (Immediate t, m)
  | None =>
      let p := next_pid m in
      (Awaits p, mkAIManager (sessions m) (initializationPromises m)
                   (translatorSessions m) (pending m) ((p, key) :: pendingT m) (S p))
  end.

(** The rest of [initTranslatorSession] after the [has(key)] test. *)
Definition _createTranslator (key : lang_key) (ce : CreateEnv) : M sess :=
  try_catch
    (if negb (api_present ce) then throw "Translator API not available"
     else
       let! a := lift (withTimeout (availability_res ce)) in
       if String.eqb a "unavailable" then
         throw ("Translation " ++ fst key ++ " → " ++ snd key ++ " unavailable")%string
       else
         let! _ := emit (ECreateT key) in
         let! t := lift (withTimeout (create_res ce)) in
         let! _ := modify_mgr (fun m => set_translators (map_set key t (translatorSessions m)) m) in
         ret t)
    (fun e => throw ("Translator API initialization failed: " ++ e)%string).

Definition settleT (p : pid) (ce : CreateEnv) (w : World) : option (Exc sess) * World :=
  match find_pending p (pendingT (mgr w)) with
  | None => (None, w)
  | Some key =>
      let m := mgr w in
      let m0 := mkAIManager (sessions m) (initializationPromises m) (translatorSessions m)
                  (pending m) (remove_pending p (pendingT m)) (next_pid m) in
      let (o, w1) := _createTranslator key ce (mkWorld m0 (log w)) in
      (Some o, w1)
  end.

(** ** [cleanup()] *)

(** [session.destroy()]: [dt s] says whether this session's [destroy]
    throws (for instance because it is already defunct). *)
Definition destroy_session (dt : sess -> bool) (s : sess) : M unit :=
  let! _ := emit (EDestroy s) in
  if dt s then throw "destroy failed" else ret tt.

(** [if (this.sessions.k) { try { this.sessions.k.destroy(); } catch (e) {}
    this.sessions.k = null; }] *)
Definition cleanup_slot (dt : sess -> bool) (k : kind) : M unit :=
  let! w := get in
  match sessions (mgr w) k with
  | Some s =>
      let! _ := try_catch (destroy_session dt s) (fun _ => ret tt) in
      modify_mgr (set_session k None)
  | None => ret tt
  end.

(** [this.translatorSessions.forEach(t => { try { t.destroy(); } catch (e) {} })] *)
Fixpoint destroy_each (dt : sess -> bool) (l : list (lang_key * sess)) : M unit :=
  match l with
  | [] => ret tt
  | (_, t) :: l' =>
      let! _ := try_catch (destroy_session dt t) (fun _ => ret tt) in
      destroy_each dt l'
  end.

Definition clear_initProms (m : AIManager) : AIManager :=
  mkAIManager (sessions m) (fun _ => None) (translatorSessions m)
    (pending m) (pendingT m) (next_pid m).

Definition cleanup (dt : sess -> bool) : M unit :=
  let! _ := cleanup_slot dt KPrompt in
  let! _ := cleanup_slot dt KWriter in
  let! _ := cleanup_slot dt KRewriter in
  let! _ := cleanup_slot dt KSummarizer in
  let! w := get in
  let! _ := destroy_each dt (translatorSessions (mgr w)) in
  let! _ := modify_mgr (set_translators []) in
  modify_mgr clear_initProms.

(** ** Interleavings of concurrent callers *)

Inductive event :=
| EvInit (k : kind)                      (* a caller enters init<Kind>Session *)
| EvInitT (key : lang_key)               (* a caller enters initTranslatorSession *)
| EvSettle (p : pid) (ce : CreateEnv)    (* creation promise p settles *)
| EvSettleT (p : pid) (ce : CreateEnv)   (* translator creation p settles *)
| EvCleanup (dt : sess -> bool).         (* aiManager.cleanup() *)

Definition step (ev : event) (w : World) : World :=
  match ev with
  | EvInit k => mkWorld (snd (initSession k (mgr w))) (log w)
  | EvInitT key => mkWorld (snd (initTranslatorSession key (mgr w))) (log w)
  | EvSettle p ce => snd (settle p ce w)
  | EvSettleT p ce => snd (settleT p ce w)
  | EvCleanup dt => snd (cleanup dt w)
  end.

Definition run (evs : list event) (w : World) : World :=
  fold_left (fun w e => step e w) evs w.

Definition world0 : World := mkWorld new_AIManager [].

Definition no_cleanup (evs : list event) : Prop :=
  Forall (fun e => match e with EvCleanup _ => False | _ => True end) evs.

(** Number of [create()] calls in a log. *)
Definition create_calls (l : list effect) : nat :=
  length (List.filter (fun e => match e with ECreate _ | ECreateT _ => true | _ => false end) l).

Definition env_ok (s : sess) : CreateEnv := mkCreateEnv true (Resolves "readily") (Resolves s).
Definition env_unavailable : CreateEnv :=
  mkCreateEnv true (Resolves "unavailable") (Resolves 0).
Definition env_timeout : CreateEnv := mkCreateEnv true (Resolves "readily") Hangs.

(** A single caller awaiting its own [init<Kind>Session] call, with the
    environment [ce] settling the creation it awaits. *)
Definition initSession_seq (k : kind) (ce : CreateEnv) : M sess :=
  fun w =>
    match initSession k (mgr w) with
    | (Immediate s, m1) => (inr s, mkWorld m1 (log w))
    | (Awaits p, m1) =>
        match settle p ce (mkWorld m1 (log w)) with
        | (Some o, w2) => (o, w2)
        | (None, w2) => (inl "pending", w2)
        end
    end.

(* ------------------------------------------------------------------ *)
(** ** Prompts *)

Definition nl : string := String (Ascii.ascii_of_nat 10) EmptyString.
Definition fence : string := "```".

(** [options.language || 'code'] *)
Definition or_default (o : option string) (d : string) : string :=
  match o with
  | None => d
  | Some EmptyString => d
  | Some s => s
  end.

(** Simple class, [reviewCode]: embeds [code.substring(0, 2000)]. *)
Definition reviewPrompt_simple (code : string) : string :=
  ("Review this code briefly:" ++ nl ++ nl ++ fence ++ nl
   ++ substring 0 2000 code
   ++ nl ++ fence ++ nl ++ nl ++ "List 3 key improvements.")%string.

(** Simple class, [generateDocumentation]. *)
Definition docPrompt_simple (code : string) : string :=
  ("Document this code:" ++ nl ++ nl ++ fence ++ nl
   ++ substring 0 2000 code
   ++ nl ++ fence ++ nl ++ nl ++ "Include main purpose and key functions.")%string.

(** Simple class, [refactorCode]. *)
Definition refactorPrompt_simple (code : string) : string :=
  ("Suggest 3 improvements for this code:" ++ nl ++ nl ++ fence ++ nl
   ++ substring 0 2000 code
   ++ nl ++ fence)%string.

(** Enhanced class, [reviewCode]: embeds [${code}] as it is. *)
Definition reviewPrompt_enh (language : option string) (code : string) : string :=
  ("Review this " ++ or_default language "code" ++ " for:" ++ nl
   ++ "1. Code quality and best practices" ++ nl
   ++ "2. Potential bugs and security issues" ++ nl
   ++ "3. Performance improvements" ++ nl
   ++ "4. Readability and maintainability" ++ nl ++ nl
   ++ "Code:" ++ nl ++ fence ++ nl
   ++ code
   ++ nl ++ fence ++ nl ++ nl
   ++ "Provide a structured review with specific recommendations.")%string.

(** Enhanced class, [generateDocumentation]. *)
Definition docPrompt_enh (code : string) : string :=
  ("Generate comprehensive documentation for this code including:" ++ nl
   ++ "- Function/class descriptions" ++ nl
   ++ "- Parameters and return values" ++ nl
   ++ "- Usage examples" ++ nl
   ++ "- Important notes" ++ nl ++ nl
   ++ "Code:" ++ nl ++ fence ++ nl
   ++ code
   ++ nl ++ fence)%string.

(** Enhanced class, [refactorCode]. *)
Definition refactorContext_enh (code : string) : string :=
  ("Refactor this code to improve:" ++ nl
   ++ "- Code readability and structure" ++ nl
   ++ "- Performance and efficiency" ++ nl
   ++ "- Following best practices" ++ nl
   ++ "- Removing code smells" ++ nl ++ nl
   ++ "Original code:" ++ nl ++ fence ++ nl
   ++ code
   ++ nl ++ fence)%string.

(* ------------------------------------------------------------------ *)
(** ** Single-shot operations of the enhanced class *)

(** The environment of one operation: how its session is created, and what
    the session's verb ([write], [rewrite], [summarize], [translate])
    does with a given text. *)
Record OpEnv := mkOpEnv {
  op_create : CreateEnv;
  op_answer : sess -> string -> awaited string
}.

(** [generateDocumentation(code, options)]: no retry; the error is rethrown
    and the writer session stays memoised. *)
Definition generateDocumentation (env : OpEnv) (code : string) : M string :=
  try_catch
    (let! writer := initSession_seq KWriter (op_create env) in
     lift (withTimeout (op_answer env writer (docPrompt_enh code))))
    (fun e => throw e).

(** [refactorCode(code, options)] *)
Definition refactorCode (env : OpEnv) (code : string) : M string :=
  try_catch
    (let! rewriter := initSession_seq KRewriter (op_create env) in
     lift (withTimeout (op_answer env rewriter (refactorContext_enh code))))
    (fun e => throw e).

(** [summarizePR(prContent, options)]: the content is summarised as it is. *)
Definition summarizePR (env : OpEnv) (prContent : string) : M string :=
  try_catch
    (let! summarizer := initSession_seq KSummarizer (op_create env) in
     lift (withTimeout (op_answer env summarizer prContent)))
    (fun e => throw e).

(* ------------------------------------------------------------------ *)
(** ** The retry loop shared by [reviewCode] (both classes) and
       [retryWithBackoff] *)

Record OperationResult := mkOperationResult { raw : string; attempts : nat }.

Section RetryLoop.
Context {St A B : Type}.
(** Recording of an attempt and of an awaited backoff delay. *)
Variable emit_ev : effect -> MS St unit.
(** The attempt body and the clean-up run in its [catch] block. *)
Variable body : nat -> MS St A.
Variable on_fail : MS St unit.
(** How a success at attempt index [attempt] is returned ([attempt + 1]
    is passed). *)
Variable finish : A -> nat -> B.
Variable maxRetries : nat.
Variable delay : nat -> nat.
Variable fail_msg : string -> string.

(** [for (let attempt = 0; attempt <= maxRetries; attempt++) { try { ... }
    catch (error) { lastError = error; <on_fail>;
    if (attempt === maxRetries) break; await sleep(delay(attempt)); } }
    throw new Error(fail_msg(lastError.message));]
    [fuel] counts the iterations the loop condition still allows. *)
Fixpoint retry_loop (attempt fuel : nat) (lastError : string) : MS St B :=
  match fuel with
  | 0 => throw (fail_msg lastError)
  | S f =>
      let! _ := emit_ev (EAttempt attempt) in
      try_catch
        (let! r := body attempt in ret (finish r (S attempt)))
        (fun e =>
           let! _ := on_fail in
           if Nat.eqb attempt maxRetries then throw (fail_msg e)
           else
             let! _ := emit_ev (EDelay (delay attempt)) in
             retry_loop (S attempt) f e)
  end.

Definition retry (lastError : string) : MS St B :=
  retry_loop 0 (S maxRetries) lastError.
End RetryLoop.

(** Environment of one [reviewCode] run: per attempt index, how a session
    creation settles and how [session.prompt(text)] answers. *)
Record ReviewEnv := mkReviewEnv {
  rv_create : nat -> CreateEnv;
  rv_prompt : nat -> sess -> string -> awaited string
}.

(** Enhanced [reviewCode(code, options)]: [maxRetries = 2], backoff
    [1000 * (attempt + 1)], the prompt session destroyed and cleared on
    every failed attempt. *)
Definition reviewCode_body (env : ReviewEnv) (language : option string) (code : string)
  (attempt : nat) : M string :=
  let! session := initSession_seq KPrompt (rv_create env attempt) in
  lift (withTimeout (rv_prompt env attempt session (reviewPrompt_enh language code))).

Definition reviewCode (dt : sess -> bool) (env : ReviewEnv) (language : option string)
  (code : string) : M OperationResult :=
  retry emit (reviewCode_body env language code) (cleanup_slot dt KPrompt)
    mkOperationResult 2 (fun attempt => 1000 * (attempt + 1))
    (fun e => "Review failed after 3 attempts: " ++ e)%string EmptyString.

(** The loop of [reviewCode] from iteration [attempt] on, with [fuel]
    iterations left. *)
Definition reviewCode_from (dt : sess -> bool) (env : ReviewEnv) (language : option string)
  (code : string) : nat -> nat -> string -> M OperationResult :=
  retry_loop emit (reviewCode_body env language code) (cleanup_slot dt KPrompt)
    mkOperationResult 2 (fun attempt => 1000 * (attempt + 1))
    (fun e => "Review failed after 3 attempts: " ++ e)%string.

(* ------------------------------------------------------------------ *)
(** ** The simple [AIManager] class (first class of ai-manager.js) *)

Record SimpleWorld := mkSimpleWorld { session : option sess; slog : list effect }.

Definition semit (e : effect) : MS SimpleWorld unit :=
  fun w => (inr tt, mkSimpleWorld (session w) (slog w ++ [e])).
Definition set_simple_session (o : option sess) : MS SimpleWorld unit :=
  fun w => (inr tt, mkSimpleWorld o (slog w)).

Definition sdestroy (dt : sess -> bool) (s : sess) : MS SimpleWorld unit :=
  let! _ := semit (EDestroy s) in
  if dt s then throw "destroy failed" else ret tt.

(** [if (this.session) { try { this.session.destroy(); } catch (e) {}
    this.session = null; }] *)
Definition simple_drop (dt : sess -> bool) : MS SimpleWorld unit :=
  let! w := get in
  match session w with
  | Some s =>
      let! _ := try_catch (sdestroy dt s) (fun _ => ret tt) in
      set_simple_session None
  | None => ret tt
  end.

(** [createSession()]: drop the old session, then [LanguageModel.create]
    under a 60s bound (a [ReferenceError] when [LanguageModel] is absent). *)
Definition createSession (dt : sess -> bool) (ce : CreateEnv) : MS SimpleWorld sess :=
  try_catch
    (let! _ := simple_drop dt in
     if negb (api_present ce) then throw "LanguageModel is not defined"
     else
       let! _ := semit (ECreate KPrompt) in
       let! s := lift (withTimeout (create_res ce)) in
       let! _ := set_simple_session (Some s) in
       ret s)
    (fun e =>
       let! _ := set_simple_session None in
       throw ("Failed to create session: " ++ e)%string).

Definition reviewCode_simple_body (dt : sess -> bool) (env : ReviewEnv) (code : string)
  (attempt : nat) : MS SimpleWorld string :=
  let! w := get in
  let! s := match session w with
            | Some s => ret s
            | None => createSession dt (rv_create env attempt)
            end in
  lift (withTimeout (rv_prompt env attempt s (reviewPrompt_simple code))).

(** Simple [reviewCode(code, options)]: [maxRetries = 1], a fixed 3s delay
    before the retry ([if (attempt < maxRetries)]). *)
Definition reviewCode_simple (dt : sess -> bool) (env : ReviewEnv) (code : string)
  : MS SimpleWorld OperationResult :=
  retry semit (reviewCode_simple_body dt env code) (simple_drop dt)
    mkOperationResult 1 (fun _ => 3000)
    (fun e => "Review failed: " ++ e ++ ". Try with shorter code.")%string EmptyString.

(* ------------------------------------------------------------------ *)
(** ** [retryWithBackoff(fn, maxRetries, baseDelay)] (helpers.js) *)

(** [fn_out n] is the outcome of the [n]-th call of [fn]; the state is the
    log of attempts and delays. *)
Definition lemit (e : effect) : MS (list effect) unit := fun l => (inr tt, l ++ [e]).

Definition retryWithBackoff {A} (fn_out : nat -> Exc A) (maxRetries baseDelay : nat)
  : MS (list effect) A :=
  retry lemit (fun attempt => lift (fn_out attempt)) (ret tt)
    (fun r _ => r) maxRetries (fun attempt => baseDelay * 2 ^ attempt)
    (fun e => "Failed after " ++ NilEmpty.string_of_uint (Nat.to_uint (maxRetries + 1))
              ++ " attempts: " ++ e)%string EmptyString.

(* ------------------------------------------------------------------ *)
(** ** [checkCapabilities()] *)

Record Capabilities := mkCapabilities {
  cap_prompt : bool;
  cap_writer : bool;
  cap_rewriter : bool;
  cap_summarizer : bool;
  cap_translator : bool;
  apiFound : bool;
  promptStatus : option string;      (* None: the key is absent *)
  writerStatus : option string;
  rewriterStatus : option string;
  summarizerStatus : option string;
  translatorStatus : option string
}.

(** Each capability type: [None] when [typeof X === 'undefined'], else the
    outcome of its [availability()]. *)
Record CapEnv := mkCapEnv {
  lm_avail : option (awaited string);
  writer_avail : option (awaited string);
  rewriter_avail : option (awaited string);
  summarizer_avail : option (awaited string);
  translator_avail : option (awaited string);
  (* simple class only: LanguageModel.create() of the test session, and
     whether its destroy() throws *)
  lm_test_create : awaited sess;
  lm_test_destroy_throws : bool
}.

Definition caps_init_enh : Capabilities :=
  mkCapabilities false false false false false false None None None None None.

(** One probe of the enhanced class:
    [if (typeof X !== 'undefined') { try { const a = await withTimeout(
    X.availability(), 10000); flag = a !== 'unavailable'; status = a; }
    catch (error) { console.warn(...) } }] *)
Definition probe (o : option (awaited string))
  (upd_cap : bool -> string -> Capabilities -> Capabilities)
  : MS Capabilities unit :=
  match o with
  | None => ret tt
  | Some av =>
      try_catch
        (let! a := lift (withTimeout av) in
         fun c => (inr tt, upd_cap (negb (String.eqb a "unavailable")) a c))
        (fun _ => ret tt)
  end.

(** Whether a probe leaves its capability untouched: the type is absent,
    or its [availability()] rejects or does not answer within 10s. *)
Definition avail_failed (o : option (awaited string)) : bool :=
  match o with
  | None => true
  | Some av => match withTimeout av with inl _ => true | inr _ => false end
  end.

Definition upd_prompt (b : bool) (st : string) (c : Capabilities) : Capabilities :=
  mkCapabilities b (cap_writer c) (cap_rewriter c) (cap_summarizer c) (cap_translator c)
    (apiFound c) (Some st) (writerStatus c) (rewriterStatus c) (summarizerStatus c)
    (translatorStatus c).
Definition upd_writer (b : bool) (st : string) (c : Capabilities) : Capabilities :=
  mkCapabilities (cap_prompt c) b (cap_rewriter c) (cap_summarizer c) (cap_translator c)
    (apiFound c) (promptStatus c) (Some st) (rewriterStatus c) (summarizerStatus c)
    (translatorStatus c).
Definition upd_rewriter (b : bool) (st : string) (c : Capabilities) : Capabilities :=
  mkCapabilities (cap_prompt c) (cap_writer c) b (cap_summarizer c) (cap_translator c)
    (apiFound c) (promptStatus c) (writerStatus c) (Some st) (summarizerStatus c)
    (translatorStatus c).
Definition upd_summarizer (b : bool) (st : string) (c : Capabilities) : Capabilities :=
  mkCapabilities (cap_prompt c) (cap_writer c) (cap_rewriter c) b (cap_translator c)
    (apiFound c) (promptStatus c) (writerStatus c) (rewriterStatus c) (Some st)
    (translatorStatus c).
Definition upd_translator (b : bool) (st : string) (c : Capabilities) : Capabilities :=
  mkCapabilities (cap_prompt c) (cap_writer c) (cap_rewriter c) (cap_summarizer c) b
    (apiFound c) (promptStatus c) (writerStatus c) (rewriterStatus c) (summarizerStatus c)
    (Some st).
Definition set_apiFound (c : Capabilities) : Capabilities :=
  mkCapabilities (cap_prompt c) (cap_writer c) (cap_rewriter c) (cap_summarizer c)
    (cap_translator c) true (promptStatus c) (writerStatus c) (rewriterStatus c)
    (summarizerStatus c) (translatorStatus c).

(** Enhanced [checkCapabilities()]: [apiFound] is set when [LanguageModel]
    exists; the whole body is wrapped in [try { ... } catch { return
    capabilities; }].  The outcome of the returned promise. *)
Definition checkCapabilities_enh (env : CapEnv) : Exc Capabilities :=
  let body : MS Capabilities Capabilities :=
    let! _ := (match lm_avail env with
               | Some _ => fun c => (inr tt, set_apiFound c)
               | None => ret tt
               end) in
    let! _ := probe (lm_avail env) upd_prompt in
    let! _ := probe (writer_avail env) upd_writer in
    let! _ := probe (rewriter_avail env) upd_rewriter in
    let! _ := probe (summarizer_avail env) upd_summarizer in
    let! _ := probe (translator_avail env) upd_translator in
    get in
  fst (try_catch body (fun _ => get) caps_init_enh).

Definition set_promptStatus (st : string) (c : Capabilities) : Capabilities :=
  upd_prompt (cap_prompt c) st c.

(** Simple [checkCapabilities()]: starts from [{prompt: false,
    promptStatus: 'checking', apiFound: false}]; when [LanguageModel]
    exists it creates a test session under 30s, sets [prompt = true],
    [promptStatus = 'readily'] and destroys it; any error there sets
    ['error']; an absent [LanguageModel] gives ['not-found']. *)
Definition checkCapabilities_simple (env : CapEnv) : Exc Capabilities :=
  let init := mkCapabilities false false false false false false (Some "checking")
                None None None None in
  let body : MS Capabilities Capabilities :=
    let! _ :=
      (match lm_avail env with
       | Some _ =>
           let! _ := (fun c => (inr tt, set_apiFound c)) in
           try_catch
             (let! _ := lift (withTimeout (lm_test_create env)) in
              let! _ := (fun c => (inr tt, upd_prompt true "readily" c)) in
              if lm_test_destroy_throws env then throw "destroy failed" else ret tt)
             (fun _ => fun c => (inr tt, set_promptStatus "error" c))
       | None => fun c => (inr tt, set_promptStatus "not-found" c)
       end) in
    get in
  fst (try_catch body (fun _ => get) init).

(* ------------------------------------------------------------------ *)
(** ** The background dispatcher (background.js) *)

(** [String.prototype.trim] on the ASCII white space and line terminators. *)
Definition is_ws (c : Ascii.ascii) : bool :=
  let n := Ascii.nat_of_ascii c in Nat.eqb n 32 || (Nat.leb 9 n && Nat.leb n 13).

Fixpoint drop_ws (l : list Ascii.ascii) : list Ascii.ascii :=
  match l with
  | [] => []
  | c :: l' => if is_ws c then drop_ws l' else l
  end.

Definition trim (s : string) : string :=
  string_of_list_ascii
    (rev (drop_ws (rev (drop_ws (list_ascii_of_string s))))).

Record Request := mkRequest {
  action : string;
  req_code : option string;      (* request.code *)
  req_content : option string;   (* request.content *)
  req_text : option string;      (* request.text *)
  targetLanguage : option string;
  sourceLanguage : option string
}.

(** JavaScript truthiness of an optional string. *)
Definition falsy (o : option string) : bool :=
  match o with None => true | Some s => String.eqb s EmptyString end.

(** [!request.code || request.code.trim().length < 10] *)
Definition code_too_short (o : option string) : bool :=
  match o with
  | None => true
  | Some s => String.eqb s EmptyString || Nat.ltb (String.length (trim s)) 10
  end.

(** The [AIManager] method a request reaches. *)
Inductive mcall :=
| CCheckCapabilities
| CReviewCode (code : string)
| CGenerateDocumentation (code : string)
| CRefactorCode (code : string)
| CSummarizePR (content : string)
| CTranslateComment (text target source : string)
| COpenSidePanel.

Definition get_or (o : option string) (d : string) : string := or_default o d.

(** The [switch (request.action)] of [handleMessageAsync] up to the call
    into the manager: the guards that throw before any manager method. *)
Definition dispatch (req : Request) (has_tab : bool) : Exc mcall :=
  let a := action req in
  if String.eqb a "checkAICapabilities" then inr CCheckCapabilities
  else if String.eqb a "reviewCode" then
    if code_too_short (req_code req) then inl "Code is too short or empty"
    else inr (CReviewCode (get_or (req_code req) EmptyString))
  else if String.eqb a "generateDocs" then
    if code_too_short (req_code req) then inl "Code is too short or empty"
    else inr (CGenerateDocumentation (get_or (req_code req) EmptyString))
  else if String.eqb a "refactorCode" then
    if code_too_short (req_code req) then inl "Code is too short or empty"
    else inr (CRefactorCode (get_or (req_code req) EmptyString))
  else if String.eqb a "summarizePR" then
    if falsy (req_content req) then inl "No content to summarize"
    else inr (CSummarizePR (get_or (req_content req) EmptyString))
  else if String.eqb a "translateComment" then
    if falsy (req_text req) then inl "No text to translate"
    else inr (CTranslateComment (get_or (req_text req) EmptyString)
                (get_or (targetLanguage req) "es") (get_or (sourceLanguage req) "en"))
  else if String.eqb a "openSidePanel" then
    if has_tab then inr COpenSidePanel else inl "No tab ID available"
  else inl ("Unknown action: " ++ a)%string.

(** The per-tab registry [sessionMap] and the heap of [AIManager] objects
    it points to. *)
Abbreviation loc := nat (only parsing).

Record Registry := mkRegistry {
  sessionMap : gmap nat loc;
  heap : gmap loc AIManager;
  next_loc : loc
}.

Definition reg0 : Registry := mkRegistry ∅ ∅ 0.

(** [getOrCreateAIManager(tabId)] *)
Definition getOrCreateAIManager (t : nat) (r : Registry) : loc * Registry :=
  match sessionMap r !! t with
  | Some l => (l, r)
  | None =>
      let l := next_loc r in
      (l, mkRegistry (<[t := l]> (sessionMap r)) (<[l := new_AIManager]> (heap r)) (S l))
  end.

(** [sender.tab?.id || 'global']: a missing id, or the falsy id 0, is the
    global context. *)
Definition tab_context (tab : option nat) : option nat :=
  match tab with
  | Some (S n) => Some (S n)
  | _ => None
  end.

(** [handleMessageAsync(request, sender)] up to the manager call: the
    manager the request is routed to (a registered one for a tab, a
    throwaway one for the global context), and the method reached or the
    error thrown first.  The throwaway manager gets [cleanup()] in
    [finally]. *)
Definition handleMessageAsync (req : Request) (tab : option nat) (r : Registry)
  : option loc * Exc mcall * Registry :=
  match tab_context tab with
  | Some t =>
      let (l, r1) := getOrCreateAIManager t r in
      (Some l, dispatch req true, r1)
  | None => (None, dispatch req false, r)
  end.

(** [chrome.tabs.onRemoved] listener:
<<
    const manager = sessionMap.get(tabId);
    if (manager) { manager.cleanup(); sessionMap.delete(tabId); }
>> *)
Definition onRemoved (dt : sess -> bool) (t : nat) (r : Registry) : Exc unit * Registry :=
  match sessionMap r !! t with
  | None => (inr tt, r)
  | Some l =>
      match heap r !! l with
      | None => (inr tt, r)
      | Some m =>
          let (res, w) := cleanup dt (mkWorld m []) in
          let h' := <[l := mgr w]> (heap r) in
          match res with
          | inr _ => (inr tt, mkRegistry (delete t (sessionMap r)) h' (next_loc r))
          | inl e => (inl e, mkRegistry (sessionMap r) h' (next_loc r))
          end
      end
  end.

(** An operation of the manager object at [l] (for instance an in-flight
    [reviewCode] of a tab, which keeps its manager even after the tab's
    entry is deleted). *)
Definition run_on (l : loc) (f : AIManager -> AIManager) (r : Registry) : Registry :=
  match heap r !! l with
  | None => r
  | Some m => mkRegistry (sessionMap r) (<[l := f m]> (heap r)) (next_loc r)
  end.

Inductive reg_event :=
| RMessage (req : Request) (tab : option nat)
| RRemoved (dt : sess -> bool) (t : nat)
| ROperation (l : loc) (f : AIManager -> AIManager).

Definition reg_step (e : reg_event) (r : Registry) : Registry :=
  match e with
  | RMessage req tab => snd (handleMessageAsync req tab r)
  | RRemoved dt t => snd (onRemoved dt t r)
  | ROperation l f => run_on l f r
  end.

Definition reg_run (evs : list reg_event) (r : Registry) : Registry :=
  fold_left (fun r e => reg_step e r) evs r.

(** Shape of a reachable registry: distinct tabs point to distinct
    manager objects, each allocated. *)
Definition reg_wf (r : Registry) : Prop :=
  (forall t1 t2 l, sessionMap r !! t1 = Some l -> sessionMap r !! t2 = Some l -> t1 = t2) /\
  (forall t l, sessionMap r !! t = Some l -> is_Some (heap r !! l)) /\
  (forall l, is_Some (heap r !! l) -> l < next_loc r).

(* ------------------------------------------------------------------ *)
(** ** Invariants and observations used in the statements *)

(** Every pending creation of a memoised kind is the one registered in
    [initializationPromises], promise identities are distinct and below
    [next_pid]. *)
Definition memo_inv (m : AIManager) : Prop :=
  NoDup (map fst (pending m)) /\
  (forall p k, In (p, k) (pending m) -> p < next_pid m) /\
  (forall p k, In (p, k) (pending m) -> initializationPromises m k = Some p).

(** Promise identities of the pending creations are distinct and below
    [next_pid]. *)
Definition fresh_inv (m : AIManager) : Prop :=
  NoDup (map fst (pending m)) /\
  (forall p k, In (p, k) (pending m) -> p < next_pid m).

(** A manager after [cleanup()]: nothing memoised and nothing registered
    as in flight; the creations still running are untouched. *)
Definition cleaned (m : AIManager) : Prop :=
  (forall k, sessions m k = None) /\
  translatorSessions m = [] /\
  initializationPromises m = (fun _ => None).

(** Attempts and backoff delays: [EAttempt]/[EDelay] entries of a log. *)
Definition is_sched (e : effect) : bool :=
  match e with EAttempt _ | EDelay _ => true | _ => false end.

(** The attempts and awaited delays recorded in a log. *)
Definition sched_of (l : list effect) : list effect := List.filter is_sched l.

(** [n] attempts from index [a], one backoff delay between two of them. *)
Fixpoint schedule (delay : nat -> nat) (a n : nat) : list effect :=
  match n with
  | 0 => []
  | S n' =>
      EAttempt a ::
      match n' with
      | 0 => []
      | S _ => EDelay (delay a) :: schedule delay (S a) n'
      end
  end.

(** Number of attempts recorded in a log. *)
Definition attempts_made (l : list effect) : nat :=
  length (List.filter (fun e => match e with EAttempt _ => true | _ => false end) l).

(* ------------------------------------------------------------------ *)
(** ** [initTranslatorSession] awaited by a single caller *)

(** A caller awaiting its own [initTranslatorSession(sourceLanguage,
    targetLanguage)] call, with [ce] settling the creation it starts. *)
Definition initTranslatorSession_seq (key : lang_key) (ce : CreateEnv) : M sess :=
  fun w =>
    match initTranslatorSession key (mgr w) with
    | (Immediate t, m1) => (inr t, mkWorld m1 (log w))
    | (Awaits p, m1) =>
        match settleT p ce (mkWorld m1 (log w)) with
        | (Some o, w2) => (o, w2)
        | (None, w2) => (inl "pending", w2)
        end
    end.

(** [translateComment(text, targetLanguage, sourceLanguage = 'en')]: the
    text is translated as it is; no retry, the error is rethrown and the
    translator stays cached. *)
Definition translateComment (env : OpEnv) (text targetLanguage sourceLanguage : string)
  : M string :=
  try_catch
    (let! translator := initTranslatorSession_seq (sourceLanguage, targetLanguage)
                          (op_create env) in
     lift (withTimeout (op_answer env translator text)))
    (fun e => throw e).

(* ------------------------------------------------------------------ *)
(** ** [generateDocumentation] and [refactorCode] of the simple class *)

(** [if (!this.session) await this.createSession();] followed by
    [this.session.prompt(text)] under [withTimeout]. *)
Definition simple_prompt (dt : sess -> bool) (env : OpEnv) (text : string)
  : MS SimpleWorld string :=
  let! w := get in
  let! s := match session w with
            | Some s => ret s
            | None => createSession dt (op_create env)
            end in
  lift (withTimeout (op_answer env s text)).

(** Simple [generateDocumentation(code, options)]: no retry, the error is
    rethrown ([catch (error) { ...; throw error; }]). *)
Definition generateDocumentation_simple (dt : sess -> bool) (env : OpEnv) (code : string)
  : MS SimpleWorld string :=
  try_catch (simple_prompt dt env (docPrompt_simple code)) (fun e => throw e).

(** Simple [refactorCode(code, options)] *)
Definition refactorCode_simple (dt : sess -> bool) (env : OpEnv) (code : string)
  : MS SimpleWorld string :=
  try_catch (simple_prompt dt env (refactorPrompt_simple code)) (fun e => throw e).

(* ------------------------------------------------------------------ *)
(** ** The periodic stale-session sweep (background.js) *)

(** The [setInterval] callback, once [chrome.tabs.query] has answered:
<<
    const activeTabs = new Set(tabs.map(tab => tab.id));
    sessionMap.forEach((manager, tabId) => {
      if (!activeTabs.has(tabId)) { manager.cleanup(); sessionMap.delete(tabId); }
    });
>>
    [order] lists the tab ids in the order [forEach] visits them; a visit
    does what the [onRemoved] listener does for the tab.  An exception
    would end the [forEach]. *)
Fixpoint sweep (dt : sess -> bool) (activeTabs order : list nat) (r : Registry)
  : Exc unit * Registry :=
  match order with
  | [] => (inr tt, r)
  | t :: order' =>
      if existsb (Nat.eqb t) activeTabs then sweep dt activeTabs order' r
      else
        match onRemoved dt t r with
        | (inr _, r1) => sweep dt activeTabs order' r1
        | (inl e, r1) => (inl e, r1)
        end
  end.

(* ------------------------------------------------------------------ *)
(** ** Text utilities of helpers.js *)

(** Text is ASCII: a character is an [Ascii.ascii], [.length] counts
    characters, and JavaScript's [\s] and [String.prototype.trim] both
    mean the characters of [is_ws]. *)

Definition chr (n : nat) : Ascii.ascii := Ascii.ascii_of_nat n.

(** [String.prototype.split(sep)] for a one-character separator. *)
Fixpoint split_on (sep : Ascii.ascii) (s : string) : list string :=
  match s with
  | EmptyString => [EmptyString]
  | String c s' =>
      let rest := split_on sep s' in
      if Ascii.eqb c sep then EmptyString :: rest
      else match rest with
           | [] => [String c EmptyString]
           | w :: ws => String c w :: ws
           end
  end.

(** [String.prototype.toLowerCase] *)
Definition lower_char (c : Ascii.ascii) : Ascii.ascii :=
  let n := Ascii.nat_of_ascii c in
  if Nat.leb 65 n && Nat.leb n 90 then Ascii.ascii_of_nat (n + 32) else c.

Fixpoint toLowerCase (s : string) : string :=
  match s with
  | EmptyString => EmptyString
  | String c s' => String (lower_char c) (toLowerCase s')
  end.

(** *** [detectLanguage(filename, content)] *)

(** The values a property lookup on [languageMap] can give: one of its
    strings, or a property inherited from [Object.prototype]. *)
Inductive jsvalue :=
| JStr (s : string)
| JObjectConstructor      (* Object.prototype.constructor, the function Object *)
| JObjectPrototype.       (* the accessor __proto__ of a plain object *)

Definition languageMap : list (string * string) :=
  [("js", "javascript"); ("jsx", "javascript"); ("ts", "typescript");
   ("tsx", "typescript"); ("py", "python"); ("java", "java"); ("cpp", "cpp");
   ("cc", "cpp"); ("cxx", "cpp"); ("c", "c"); ("h", "c"); ("cs", "csharp");
   ("go", "go"); ("rs", "rust"); ("php", "php"); ("rb", "ruby");
   ("swift", "swift"); ("kt", "kotlin"); ("kts", "kotlin"); ("scala", "scala");
   ("sh", "bash"); ("bash", "bash"); ("sql", "sql"); ("html", "html");
   ("css", "css"); ("scss", "scss"); ("json", "json"); ("xml", "xml");
   ("yaml", "yaml"); ("yml", "yaml"); ("md", "markdown"); ("r", "r");
   ("dart", "dart"); ("lua", "lua"); ("vim", "vim"); ("dockerfile", "docker")].

Fixpoint assoc_str (k : string) (l : list (string * string)) : option string :=
  match l with
  | [] => None
  | (k', v) :: l' => if String.eqb k' k then Some v else assoc_str k l'
  end.

(** [languageMap[ext]]: an own property, else a property of
    [Object.prototype]; [constructor] and [__proto__] are the only ones
    whose names have no upper-case letter. *)
Definition languageMap_get (k : string) : option jsvalue :=
  match assoc_str k languageMap with
  | Some v => Some (JStr v)
  | None =>
      if String.eqb k "constructor" then Some JObjectConstructor
      else if String.eqb k "__proto__" then Some JObjectPrototype
      else None
  end.

(** [v || 'unknown'] *)
Definition or_unknown (v : option jsvalue) : jsvalue :=
  match v with
  | None => JStr "unknown"
  | Some (JStr s) => if String.eqb s EmptyString then JStr "unknown" else JStr s
  | Some o => o
  end.

(** [if (!filename) return 'unknown';
    const ext = filename.split('.').pop().toLowerCase();
    return languageMap[ext] || 'unknown';] *)
Definition detectLanguage (filename : option string) : jsvalue :=
  match filename with
  | None => JStr "unknown"
  | Some f =>
      if String.eqb f EmptyString then JStr "unknown"
      else
        let ext := toLowerCase (List.last (split_on (chr 46) f) EmptyString) in
        or_unknown (languageMap_get ext)
  end.

(** *** [calculateCodeMetrics(code)] *)

Record CodeMetrics := mkCodeMetrics {
  lines : nat;
  nonEmptyLines : nat;
  characters : nat;
  words : nat;
  averageLineLength : option nat   (* None: the key is absent *)
}.

(** [code.split(/\s+/)]: each maximal run of white space separates two
    pieces.  [cur] is the piece being read (reversed), [in_ws] says that
    the previous character was white space. *)
Fixpoint ws_pieces (l cur : list Ascii.ascii) (in_ws : bool) : list (list Ascii.ascii) :=
  match l with
  | [] => [rev cur]
  | c :: l' =>
      if is_ws c then
        if in_ws then ws_pieces l' [] true else rev cur :: ws_pieces l' [] true
      else ws_pieces l' (c :: cur) false
  end.

(** [Math.round(a / b)] for [b > 0]: [Math.floor(a / b + 0.5)]. *)
Definition round_div (a b : nat) : nat := (2 * a + b) / (2 * b).

Definition calculateCodeMetrics (code : option string) : CodeMetrics :=
  let zero := mkCodeMetrics 0 0 0 0 None in
  match code with
  | None => zero
  | Some c =>
      if String.eqb c EmptyString then zero
      else
        let ls := split_on (chr 10) c in
        let nonEmpty := List.filter (fun line => Nat.ltb 0 (String.length (trim line))) ls in
        mkCodeMetrics (List.length ls) (List.length nonEmpty) (String.length c)
          (List.length (List.filter (fun w => Nat.ltb 0 (List.length w))
                          (ws_pieces (list_ascii_of_string c) [] false)))
          (Some (round_div (String.length c) (List.length ls)))
  end.

(** *** [extractCodeBlocks(text)] *)

Record CodeBlock := mkCodeBlock {
  language : string; block_code : string; startIndex : nat; endIndex : nat
}.

Definition six_backticks : string := "``````".

(** [codeBlockRegex.exec(text)] for [/``````/g] from [lastIndex]: the
    index of the match and its array; the regex has no capture group, so
    the array holds [match[0]] only. *)
Definition exec_six (text : string) (lastIndex : nat) : option (nat * list (option string)) :=
  match String.index lastIndex six_backticks text with
  | Some i => Some (i, [Some six_backticks])
  | None => None
  end.

(** [match[n]]: [undefined] past the end of the array. *)
Definition group (m : list (option string)) (n : nat) : option string :=
  match nth_error m n with Some o => o | None => None end.

(** The [while] loop; [match[2].trim()] on [undefined] throws a
    [TypeError].  [fuel] bounds the iterations. *)
Fixpoint extract_loop (text : string) (fuel lastIndex : nat) (blocks : list CodeBlock)
  : Exc (list CodeBlock) :=
  match fuel with
  | 0 => inr blocks
  | S f =>
      match exec_six text lastIndex with
      | None => inr blocks
      | Some (i, m) =>
          let lang := or_default (group m 1) "unknown" in
          match group m 2 with
          | None => inl "TypeError: Cannot read properties of undefined (reading 'trim')"
          | Some c =>
              extract_loop text f (i + String.length six_backticks)
                (blocks ++ [mkCodeBlock lang (trim c) i (i + String.length six_backticks)])
          end
      end
  end.

Definition extractCodeBlocks (text : option string) : Exc (list CodeBlock) :=
  match text with
  | None => inr []
  | Some t =>
      if String.eqb t EmptyString then inr []
      else extract_loop t (S (String.length t)) 0 []
  end.

(** *** [sanitizeCode(code, maxLength = 10000)] *)

(** Case-insensitive comparison ([i] flag): the rest of [s] after [p]. *)
Fixpoint prefix_ci (p s : list Ascii.ascii) : option (list Ascii.ascii) :=
  match p, s with
  | [], _ => Some s
  | a :: p', c :: s' =>
      if Ascii.eqb (lower_char a) (lower_char c) then prefix_ci p' s' else None
  | _ :: _, [] => None
  end.

(** [[^>]*>]: the rest after the first ['>'] (the class also matches line
    terminators, and backtracking cannot make a shorter run end in ['>']). *)
Fixpoint skip_to_gt (s : list Ascii.ascii) : option (list Ascii.ascii) :=
  match s with
  | [] => None
  | c :: s' => if Ascii.eqb c (chr 62) then Some s' else skip_to_gt s'
  end.

Definition is_line_terminator (c : Ascii.ascii) : bool :=
  let n := Ascii.nat_of_ascii c in Nat.eqb n 10 || Nat.eqb n 13.

(** [.*?] followed by [close]: the shortest run of characters other than
    line terminators after which [close] follows. *)
Fixpoint lazy_until (close s : list Ascii.ascii) {struct s} : option (list Ascii.ascii) :=
  match prefix_ci close s with
  | Some rest => Some rest
  | None =>
      match s with
      | [] => None
      | c :: s' => if is_line_terminator c then None else lazy_until close s'
      end
  end.

(** A match of [/<tag[^>]*>.*?<\/tag>/i] at the start of [s]. *)
Definition match_element (tag : string) (s : list Ascii.ascii) : option (list Ascii.ascii) :=
  match prefix_ci (list_ascii_of_string ("<" ++ tag)) s with
  | None => None
  | Some s1 =>
      match skip_to_gt s1 with
      | None => None
      | Some s2 => lazy_until (list_ascii_of_string ("</" ++ tag ++ ">")) s2
      end
  end.

(** A match of [/<embed[^>]*>/i] at the start of [s]. *)
Definition match_embed (s : list Ascii.ascii) : option (list Ascii.ascii) :=
  match prefix_ci (list_ascii_of_string "<embed") s with
  | None => None
  | Some s1 => skip_to_gt s1
  end.

(** [s.replace(regex, '')] with the [g] flag, [m s] giving the rest of
    [s] after a match at its start. *)
Fixpoint remove_fuel (m : list Ascii.ascii -> option (list Ascii.ascii)) (fuel : nat)
  (s : list Ascii.ascii) : list Ascii.ascii :=
  match fuel with
  | 0 => s
  | S f =>
      match s with
      | [] => []
      | c :: s' =>
          match m s with
          | Some rest => remove_fuel m f rest
          | None => c :: remove_fuel m f s'
          end
      end
  end.

Definition remove_all (m : list Ascii.ascii -> option (list Ascii.ascii)) (s : list Ascii.ascii)
  : list Ascii.ascii :=
  remove_fuel m (List.length s) s.

Definition sanitizeCode (code : option string) (maxLength : nat) : Exc string :=
  match code with
  | None => inl "Invalid code input"
  | Some c =>
      if String.eqb c EmptyString then inl "Invalid code input"
      else
        let s1 := remove_all (match_element "script") (list_ascii_of_string c) in
        let s2 := remove_all (match_element "iframe") s1 in
        let s3 := remove_all (match_element "object") s2 in
        let s4 := remove_all match_embed s3 in
        let sanitized := substring 0 maxLength (string_of_list_ascii s4) in
        if Nat.ltb (String.length (trim sanitized)) 10
        then inl "Code snippet too short (minimum 10 characters)"
        else inr sanitized
  end.

(** *** [formatTimestamp(timestamp)] *)

(** [`${n}`] for an integral number. *)
Definition js_number_string (z : Z) : string :=
  match z with
  | Z0 => "0"
  | Zpos p => NilEmpty.string_of_uint (Pos.to_uint p)
  | Zneg p => "-" ++ NilEmpty.string_of_uint (Pos.to_uint p)
  end.

Section FormatTimestamp.

(** [date.toLocaleDateString()], locale dependent; [None] is an Invalid Date. *)
Variable toLocaleDateString : option Z -> string.

(** [date] is the time value of [new Date(timestamp)] in milliseconds,
    [None] for NaN (an Invalid Date: [diffMins] and the others are NaN and
    every comparison with NaN is false); [now] that of [new Date()].
    [new Date] does not throw on a string, number or Date, so the [catch]
    branch is not reached. *)
Definition formatTimestamp (date : option Z) (now : Z) : string :=
  match date with
  | None => toLocaleDateString None
  | Some d =>
      let diffMs := (now - d)%Z in
      let diffMins := (diffMs / 60000)%Z in
      let diffHours := (diffMs / 3600000)%Z in
      let diffDays := (diffMs / 86400000)%Z in
      if Z.ltb diffMins 1 then "Just now"
      else if Z.ltb diffMins 60 then
        js_number_string diffMins ++ " minute" ++ (if Z.ltb 1 diffMins then "s" else EmptyString) ++ " ago"
      else if Z.ltb diffHours 24 then
        js_number_string diffHours ++ " hour" ++ (if Z.ltb 1 diffHours then "s" else EmptyString) ++ " ago"
      else if Z.ltb diffDays 7 then
        js_number_string diffDays ++ " day" ++ (if Z.ltb 1 diffDays then "s" else EmptyString) ++ " ago"
      else toLocaleDateString (Some d)
  end.

End FormatTimestamp.

(** *** [formatContent(content)] *)

(** [s.replace(regex, replacement)] with the [g] flag: [m bol s] is the
    replacement text and the rest of [s] for a match at the start of [s],
    [bol] telling whether that position starts a line (for [^] under the
    [m] flag: the start of the input or after a line terminator).  Every
    match below is non-empty and ends in a character that is not a line
    terminator. *)
Fixpoint gsub_fuel (m : bool -> list Ascii.ascii -> option (list Ascii.ascii * list Ascii.ascii))
  (fuel : nat) (bol : bool) (s : list Ascii.ascii) : list Ascii.ascii :=
  match fuel with
  | 0 => s
  | S f =>
      match s with
      | [] => []
      | c :: s' =>
          match m bol s with
          | Some (rep, rest) => rep ++ gsub_fuel m f false rest
          | None => c :: gsub_fuel m f (is_line_terminator c) s'
          end
      end
  end.

Definition gsub m (s : list Ascii.ascii) : list Ascii.ascii := gsub_fuel m (List.length s) true s.

Fixpoint match_prefix (p s : list Ascii.ascii) : option (list Ascii.ascii) :=
  match p, s with
  | [], _ => Some s
  | a :: p', c :: s' => if Ascii.eqb a c then match_prefix p' s' else None
  | _ :: _, [] => None
  end.

(** The longest prefix of [s] without a character satisfying [p], and the rest. *)
Fixpoint span_not (p : Ascii.ascii -> bool) (s : list Ascii.ascii) : list Ascii.ascii * list Ascii.ascii :=
  match s with
  | [] => ([], [])
  | c :: s' => if p c then ([], s) else let (a, b) := span_not p s' in (c :: a, b)
  end.

(** [/\n/g] with ['<br>'] *)
Definition br_match (_ : bool) (s : list Ascii.ascii) : option (list Ascii.ascii * list Ascii.ascii) :=
  match s with
  | c :: s' => if Ascii.eqb c (chr 10) then Some (list_ascii_of_string "<br>", s') else None
  | [] => None
  end.

(** [/D([^d]+)D/g] with ['<tag>$1</tag>'], the delimiter [D] being [d] or
    [dd]: the greedy class stops at the first [d], and a shorter run would
    end before a character other than [d]. *)
Definition delim_match (delim : list Ascii.ascii) (d : Ascii.ascii) (tag : string) (_ : bool)
  (s : list Ascii.ascii) : option (list Ascii.ascii * list Ascii.ascii) :=
  match match_prefix delim s with
  | None => None
  | Some s1 =>
      match span_not (Ascii.eqb d) s1 with
      | ([], _) => None
      | (run, rest0) =>
          match match_prefix delim rest0 with
          | None => None
          | Some rest =>
              Some (list_ascii_of_string ("<" ++ tag ++ ">") ++ run ++
                    list_ascii_of_string ("</" ++ tag ++ ">"), rest)
          end
      end
  end.

(** [/^P(.+)$/gm] with ['<tag>$1</tag>']: [.+] takes the rest of the line,
    and [$] holds there. *)
Definition header_match (p : string) (tag : string) (bol : bool)
  (s : list Ascii.ascii) : option (list Ascii.ascii * list Ascii.ascii) :=
  if bol then
    match match_prefix (list_ascii_of_string p) s with
    | None => None
    | Some s1 =>
        match span_not is_line_terminator s1 with
        | ([], _) => None
        | (run, rest) =>
            Some (list_ascii_of_string ("<" ++ tag ++ ">") ++ run ++
                  list_ascii_of_string ("</" ++ tag ++ ">"), rest)
        end
    end
  else None.

Definition formatContent (content : option string) : string :=
  match content with
  | None => EmptyString
  | Some c =>
      if String.eqb c EmptyString then EmptyString
      else
        let s1 := gsub br_match (list_ascii_of_string c) in
        let s2 := gsub (delim_match [chr 96] (chr 96) "code") s1 in
        let s3 := gsub (delim_match [chr 42; chr 42] (chr 42) "strong") s2 in
        let s4 := gsub (delim_match [chr 42] (chr 42) "em") s3 in
        let s5 := gsub (header_match "### " "h3") s4 in
        let s6 := gsub (header_match "## " "h2") s5 in
        let s7 := gsub (header_match "# " "h1") s6 in
        string_of_list_ascii s7
  end.

(** *** [parseGitHubURL(url)] *)

Record GitHubURLInfo := mkGitHubURLInfo {
  owner : option string;
  repo : option string;
  type : option string;
  path : option string;
  isPR : bool;
  isFile : bool;
  isGist : bool
}.

(** [s.includes(sub)] *)
Definition includes (s sub : string) : bool :=
  match String.index 0 sub s with Some _ => true | None => false end.

(** [x || null] on a string or [undefined]. *)
Definition or_null (x : option string) : option string :=
  match x with
  | Some s => if String.eqb s EmptyString then None else Some s
  | None => None
  end.

Section ParseGitHubURL.

(** [new URL(url)]: its [hostname] and [pathname], or [None] when the
    constructor throws. *)
Variable URL_parse : string -> option (string * string).

Definition parseGitHubURL (url : option string) : option GitHubURLInfo :=
  match url with
  | None => None
  | Some u =>
      if String.eqb u EmptyString then None
      else
        match URL_parse u with
        | None => None
        | Some (hostname, pathname) =>
            if negb (includes hostname "github.com") then None
            else
              let pathParts := List.filter (fun p => negb (String.eqb p EmptyString))
                                 (split_on (chr 47) pathname) in
              Some (mkGitHubURLInfo
                      (or_null (nth_error pathParts 0))
                      (or_null (nth_error pathParts 1))
                      (or_null (nth_error pathParts 2))
                      (or_null (Some (String.concat (String (chr 47) EmptyString) (skipn 3 pathParts))))
                      (match nth_error pathParts 2 with Some t => String.eqb t "pull" | None => false end)
                      (match nth_error pathParts 2 with Some t => String.eqb t "blob" | None => false end)
                      (includes hostname "gist.github.com"))
        end
  end.

End ParseGitHubURL.

(** [formatContent(content)] of the side panel script (unnamed/part_000),
    the first four replacements of the one in helpers.js. *)
Definition formatContent_panel (content : option string) : string :=
  match content with
  | None => EmptyString
  | Some c =>
      if String.eqb c EmptyString then EmptyString
      else
        let s1 := gsub br_match (list_ascii_of_string c) in
        let s2 := gsub (delim_match [chr 96] (chr 96) "code") s1 in
        let s3 := gsub (delim_match [chr 42; chr 42] (chr 42) "strong") s2 in
        let s4 := gsub (delim_match [chr 42] (chr 42) "em") s3 in
        string_of_list_ascii s4
  end.

(** Helper predicates of the proofs below. *)

Definition strict (m : list Ascii.ascii -> option (list Ascii.ascii)) : Prop :=
  forall s r, m s = Some r -> List.length r < List.length s.

Definition needs_lt (m : list Ascii.ascii -> option (list Ascii.ascii)) : Prop :=
  forall c s, c <> chr 60 -> m (c :: s) = None.

Definition fc_special (x : Ascii.ascii) : bool :=
  Ascii.eqb x (chr 96) || Ascii.eqb x (chr 42) || Ascii.eqb x (chr 35).

Definition br_char (x : Ascii.ascii) : list Ascii.ascii :=
  if Ascii.eqb x (chr 10) then list_ascii_of_string "<br>" else [x].

Definition no_nl (l : list Ascii.ascii) : bool := forallb (fun c => negb (Ascii.eqb c (chr 10))) l.

Definition keeps_no_nl (m : bool -> list Ascii.ascii -> option (list Ascii.ascii * list Ascii.ascii)) : Prop :=
  forall b s rep rest, no_nl s = true -> m b s = Some (rep, rest) -> no_nl rep = true /\ no_nl rest = true.

Definition panel_special (x : Ascii.ascii) : bool := Ascii.eqb x (chr 96) || Ascii.eqb x (chr 42).

Definition path_segment (s : string) : Prop := s <> EmptyString /\ ~ In (chr 47) (list_ascii_of_string s).

(* ================================================================== *)
(** * Properties *)

(** ** Evaluations on small inputs *)

Example two_callers_share :
  initSession KPrompt (snd (initSession KPrompt new_AIManager))
  = (Awaits 0, snd (initSession KPrompt new_AIManager)).
Proof. reflexivity. Qed.

Example settle_stores :
  sessions (mgr (run [EvInit KPrompt; EvSettle 0 (env_ok 7)] world0)) KPrompt = Some 7.
Proof. reflexivity. Qed.

Example settle_clears_entry :
  initializationPromises (mgr (run [EvInit KPrompt; EvSettle 0 env_timeout] world0)) KPrompt
  = None.
Proof. reflexivity. Qed.

(** ** Session creation touches only the log *)

Ltac case_create ce :=
  destruct (api_present ce); simpl;
  [ destruct (availability_res ce) as [a| |]; simpl;
    [ destruct (String.eqb a "unavailable"); simpl;
      [ | destruct (create_res ce); simpl ]
    | | ] | ].

Lemma _createSession_mgr k ce w : mgr (snd (_createSession k ce w)) = mgr w.
Proof.
  unfold _createSession, try_catch, bindM, lift, emit, throw.
  case_create ce; reflexivity.
Qed.

Lemma _createSession_log k ce w :
  exists l, log (snd (_createSession k ce w)) = log w ++ l /\ create_calls l <= 1.
Proof.
  unfold _createSession, try_catch, bindM, lift, emit, throw.
  case_create ce;
    first [ exists []; rewrite app_nil_r; split; [reflexivity | unfold create_calls; simpl; lia]
          | exists [ECreate k]; split; [reflexivity | unfold create_calls; simpl; lia] ].
Qed.

Lemma _createTranslator_fields key ce w :
  let m' := mgr (snd (_createTranslator key ce w)) in
  sessions m' = sessions (mgr w) /\
  initializationPromises m' = initializationPromises (mgr w) /\
  pending m' = pending (mgr w) /\
  next_pid m' = next_pid (mgr w).
Proof.
  unfold _createTranslator, try_catch, bindM, lift, emit, throw, modify_mgr, ret.
  case_create ce; repeat split; reflexivity.
Qed.

Lemma find_pending_In {K} p (l : list (pid * K)) k :
  find_pending p l = Some k -> In (p, k) l.
Proof.
  induction l as [|[p' k'] l IH]; simpl; [discriminate|].
  destruct (Nat.eqb_spec p' p) as [->|_]; intros H.
  - injection H as ->. now left.
  - right. now apply IH.
Qed.

Lemma In_find_pending {K} p (l : list (pid * K)) k :
  NoDup (map fst l) -> In (p, k) l -> find_pending p l = Some k.
Proof.
  induction l as [|[p' k'] l IH]; simpl; [contradiction|].
  intros Hnd [Heq | Hin]; inversion Hnd as [|? ? Hnotin Hnd']; subst.
  - injection Heq as -> ->. now rewrite Nat.eqb_refl.
  - destruct (Nat.eqb_spec p' p) as [->|_].
    + exfalso. apply Hnotin, list_elem_of_In. apply (in_map fst) in Hin. exact Hin.
    + now apply IH.
Qed.

Lemma In_remove_pending {K} p (l : list (pid * K)) q k :
  In (q, k) (remove_pending p l) <-> In (q, k) l /\ q <> p.
Proof.
  unfold remove_pending. rewrite filter_In. simpl.
  destruct (Nat.eqb_spec q p); intuition (try discriminate; auto).
Qed.

Lemma NoDup_remove_pending {K} p (l : list (pid * K)) :
  NoDup (map fst l) -> NoDup (map fst (remove_pending p l)).
Proof.
  induction l as [|[p' k'] l IH]; simpl; [auto|].
  intros Hnd. inversion Hnd as [|? ? Hnotin Hnd']; subst.
  destruct (Nat.eqb p' p); simpl; [now apply IH|].
  constructor; [|now apply IH].
  intros Hin. apply Hnotin. apply list_elem_of_In in Hin. apply list_elem_of_In.
  apply in_map_iff in Hin as [[q k] [Hq Hin]]. simpl in Hq; subst.
  apply In_remove_pending in Hin as [Hin _].
  now apply (in_map fst) in Hin.
Qed.

Lemma upd_eq {V} (f : kind -> V) k v : upd f k v k = v.
Proof. unfold upd. now destruct (decide (k = k)). Qed.

Lemma upd_ne {V} (f : kind -> V) k k' v : k' <> k -> upd f k v k' = f k'.
Proof. unfold upd. now destruct (decide (k' = k)). Qed.

(** ** The in-flight invariant of [initializationPromises] *)

Lemma memo_inv_new : memo_inv new_AIManager.
Proof. split; [constructor | split; simpl; tauto]. Qed.

Lemma memo_inv_init k m : memo_inv m -> memo_inv (snd (initSession k m)).
Proof.
  intros Hinv. unfold initSession.
  destruct (initializationPromises m k) eqn:E; [exact Hinv|].
  destruct (sessions m k); [exact Hinv|].
  destruct Hinv as (Hnd & Hfr & Hip).
  unfold start_creation, memo_inv; cbn. split; [|split].
  - constructor; [|exact Hnd].
    intros Hin. apply list_elem_of_In, in_map_iff in Hin as [[q k'] [Hq Hin]].
    simpl in Hq; subst. apply Hfr in Hin. lia.
  - intros p k' [Heq|Hin]; [injection Heq as <- <-; lia | apply Hfr in Hin; lia].
  - intros p k' [Heq|Hin].
    + injection Heq as <- <-. apply upd_eq.
    + destruct (decide (k' = k)) as [->|Hne].
      * apply Hip in Hin. congruence.
      * rewrite upd_ne by exact Hne. now apply Hip.
Qed.

Lemma memo_inv_initT key m : memo_inv m -> memo_inv (snd (initTranslatorSession key m)).
Proof.
  intros (Hnd & Hfr & Hip). unfold initTranslatorSession.
  unfold memo_inv; destruct (map_get key (translatorSessions m)); simpl;
    [split; [|split]; assumption|].
  split; [|split]; simpl; [assumption| |assumption].
  intros p k Hin. apply Hfr in Hin. lia.
Qed.

Lemma settle_shape p ce w o w' k :
  find_pending p (pending (mgr w)) = Some k ->
  settle p ce w = (o, w') ->
  pending (mgr w') = remove_pending p (pending (mgr w)) /\
  next_pid (mgr w') = next_pid (mgr w) /\
  initializationPromises (mgr w') = upd (initializationPromises (mgr w)) k None /\
  (forall e, o = Some (inl e) -> sessions (mgr w') = sessions (mgr w)).
Proof.
  intros F. unfold settle. rewrite F.
  destruct (_createSession k ce (mkWorld (drop_pending p (mgr w)) (log w))) as [o1 w1] eqn:C.
  pose proof (_createSession_mgr k ce (mkWorld (drop_pending p (mgr w)) (log w))) as Hm.
  rewrite C in Hm. simpl in Hm.
  intros Heq. injection Heq as <- <-.
  destruct o1 as [e1|s1]; simpl; rewrite Hm; simpl;
    repeat split; try (intros e He; first [reflexivity | discriminate]).
Qed.

Lemma settle_none p ce w :
  find_pending p (pending (mgr w)) = None -> settle p ce w = (None, w).
Proof. intros F. unfold settle. now rewrite F. Qed.

Lemma memo_inv_settle p ce w : memo_inv (mgr w) -> memo_inv (mgr (snd (settle p ce w))).
Proof.
  intros (Hnd & Hfr & Hip).
  destruct (find_pending p (pending (mgr w))) as [k|] eqn:F;
    [|rewrite settle_none by exact F; split; [|split]; assumption].
  destruct (settle p ce w) as [o w'] eqn:S.
  destruct (settle_shape p ce w o w' k F S) as (Hp & Hn & Hi & _). simpl.
  split; [|split]; rewrite ?Hp, ?Hn, ?Hi.
  - now apply NoDup_remove_pending.
  - intros q k' Hin. apply In_remove_pending in Hin as [Hin _]. now apply Hfr in Hin.
  - intros q k' Hin. apply In_remove_pending in Hin as [Hin Hne].
    destruct (decide (k' = k)) as [->|Hne'].
    + apply find_pending_In in F. apply Hip in F. apply Hip in Hin. congruence.
    + rewrite upd_ne by exact Hne'. now apply Hip.
Qed.

Lemma memo_inv_settleT p ce w : memo_inv (mgr w) -> memo_inv (mgr (snd (settleT p ce w))).
Proof.
  intros Hinv. unfold settleT.
  destruct (find_pending p (pendingT (mgr w))) as [key|]; [|exact Hinv].
  match goal with |- context [_createTranslator key ce ?w0] =>
    destruct (_createTranslator key ce w0) as [o w1] eqn:C;
    pose proof (_createTranslator_fields key ce w0) as Hf end.
  rewrite C in Hf. simpl in Hf. destruct Hf as (_ & Hi & Hp & Hn).
  destruct Hinv as (Hnd & Hfr & Hip). simpl.
  split; [|split]; rewrite ?Hp, ?Hn, ?Hi; assumption.
Qed.

Lemma memo_inv_step e w :
  match e with EvCleanup _ => False | _ => True end ->
  memo_inv (mgr w) -> memo_inv (mgr (step e w)).
Proof.
  destruct e; simpl; intros Hc Hinv; try contradiction.
  - now apply memo_inv_init.
  - now apply memo_inv_initT.
  - now apply memo_inv_settle.
  - now apply memo_inv_settleT.
Qed.

Lemma memo_inv_run evs w : no_cleanup evs -> memo_inv (mgr w) -> memo_inv (mgr (run evs w)).
Proof.
  revert w. induction evs as [|e evs IH]; intros w Hnc Hinv; simpl; [exact Hinv|].
  inversion Hnc as [|? ? He Hnc']; subst.
  apply IH; [exact Hnc'|]. now apply memo_inv_step.
Qed.

(** ** [cleanup()] *)

Lemma cleanup_slot_spec dt k w :
  let (r, w') := cleanup_slot dt k w in
  r = inr tt /\
  (forall k', sessions (mgr w') k' = upd (sessions (mgr w)) k None k') /\
  initializationPromises (mgr w') = initializationPromises (mgr w) /\
  translatorSessions (mgr w') = translatorSessions (mgr w) /\
  pending (mgr w') = pending (mgr w) /\
  pendingT (mgr w') = pendingT (mgr w) /\
  next_pid (mgr w') = next_pid (mgr w).
Proof.
  unfold cleanup_slot, bindM, get, try_catch, destroy_session, emit, throw, ret,
    modify_mgr, set_session.
  destruct (sessions (mgr w) k) as [s|] eqn:E.
  - destruct (dt s); cbn; repeat split.
  - cbn. repeat split. intros k'. unfold upd.
    destruct (decide (k' = k)) as [->|]; [exact E | reflexivity].
Qed.

Lemma destroy_each_spec dt l w :
  let (r, w') := destroy_each dt l w in r = inr tt /\ mgr w' = mgr w.
Proof.
  revert w. induction l as [|[key t] l IH]; intros w; simpl; [split; reflexivity|].
  unfold bindM, try_catch, destroy_session, emit, throw, ret.
  destruct (dt t); cbn;
    match goal with |- context [destroy_each dt l ?w1] =>
      specialize (IH w1); destruct (destroy_each dt l w1) as [r w'] end;
    destruct IH as [-> ->]; split; reflexivity.
Qed.

Ltac step_slot dt k w E :=
  let r := fresh "r" in let w' := fresh "w" in
  pose proof (cleanup_slot_spec dt k w) as E;
  destruct (cleanup_slot dt k w) as [r w'];
  destruct E as (-> & E).

Lemma cleanup_spec dt w :
  let (r, w') := cleanup dt w in
  r = inr tt /\ cleaned (mgr w') /\
  pending (mgr w') = pending (mgr w) /\
  pendingT (mgr w') = pendingT (mgr w) /\
  next_pid (mgr w') = next_pid (mgr w).
Proof.
  unfold cleanup. unfold bindM at 1.
  step_slot dt KPrompt w E1. unfold bindM at 1.
  step_slot dt KWriter w0 E2. unfold bindM at 1.
  step_slot dt KRewriter w1 E3. unfold bindM at 1.
  step_slot dt KSummarizer w2 E4.
  unfold bindM at 1, get.
  unfold bindM at 1.
  pose proof (destroy_each_spec dt (translatorSessions (mgr w3)) w3) as E5.
  destruct (destroy_each dt (translatorSessions (mgr w3)) w3) as [r5 w5].
  destruct E5 as [-> E5].
  unfold bindM, modify_mgr. cbn.
  destruct E1 as (S1 & _ & _ & P1 & T1 & N1), E2 as (S2 & _ & _ & P2 & T2 & N2),
    E3 as (S3 & _ & _ & P3 & T3 & N3), E4 as (S4 & _ & _ & P4 & T4 & N4).
  rewrite E5. split; [reflexivity|]. split; [|repeat split; congruence].
  split; [|split; reflexivity].
  intros k. cbn. rewrite S4.
  unfold upd at 1. destruct (decide (k = KSummarizer)); [reflexivity|].
  rewrite S3. unfold upd at 1. destruct (decide (k = KRewriter)); [reflexivity|].
  rewrite S2. unfold upd at 1. destruct (decide (k = KWriter)); [reflexivity|].
  rewrite S1. unfold upd. destruct (decide (k = KPrompt)); [reflexivity|].
  destruct k; congruence.
Qed.

Lemma cleanup_clean dt w : cleaned (mgr w) -> cleanup dt w = (inr tt, w).
Proof.
  destruct w as [[ss ip ts pd pt np] l]. intros (Hs & Ht & Hi). cbn in *. subst.
  unfold cleanup, cleanup_slot, bindM, get, modify_mgr, set_translators,
    clear_initProms, ret. cbn. rewrite !Hs. reflexivity.
Qed.

(** ** Promise identities stay fresh under every event, [cleanup] included *)

Lemma fresh_inv_step e w : fresh_inv (mgr w) -> fresh_inv (mgr (step e w)).
Proof.
  intros [Hnd Hfr]. destruct e as [k|key|p ce|p ce|dt]; simpl.
  - unfold initSession.
    destruct (initializationPromises (mgr w) k); [split; assumption|].
    destruct (sessions (mgr w) k); [split; assumption|].
    unfold start_creation, fresh_inv; cbn. split.
    + constructor; [|exact Hnd].
      intros Hin. apply list_elem_of_In, in_map_iff in Hin as [[q k'] [Hq Hin]].
      simpl in Hq; subst. apply Hfr in Hin. lia.
    + intros p k' [Heq|Hin]; [injection Heq as <- <-; lia | apply Hfr in Hin; lia].
  - unfold initTranslatorSession, fresh_inv.
    destruct (map_get key (translatorSessions (mgr w))); cbn; [split; assumption|].
    split; [assumption|]. intros p k Hin. apply Hfr in Hin. lia.
  - destruct (find_pending p (pending (mgr w))) as [k|] eqn:F;
      [|rewrite settle_none by exact F; split; assumption].
    destruct (settle p ce w) as [o w'] eqn:S. simpl.
    destruct (settle_shape p ce w o w' k F S) as (Hp & Hn & _).
    unfold fresh_inv. rewrite Hp, Hn. split; [now apply NoDup_remove_pending|].
    intros q k' Hin. apply In_remove_pending in Hin as [Hin _]. now apply Hfr in Hin.
  - unfold settleT.
    destruct (find_pending p (pendingT (mgr w))) as [key|]; [|split; assumption].
    match goal with |- context [_createTranslator key ce ?w0] =>
      destruct (_createTranslator key ce w0) as [o w1] eqn:C;
      pose proof (_createTranslator_fields key ce w0) as Hf end.
    rewrite C in Hf. simpl in Hf. destruct Hf as (_ & _ & Hp & Hn).
    unfold fresh_inv. simpl. rewrite Hp, Hn. split; assumption.
  - pose proof (cleanup_spec dt w) as Hc. destruct (cleanup dt w) as [r w'].
    destruct Hc as (_ & _ & Hp & _ & Hn). unfold fresh_inv. simpl.
    rewrite Hp, Hn. split; assumption.
Qed.

Lemma fresh_inv_run evs w : fresh_inv (mgr w) -> fresh_inv (mgr (run evs w)).
Proof.
  revert w. induction evs as [|e evs IH]; intros w H; simpl; [exact H|].
  apply IH. now apply fresh_inv_step.
Qed.

Lemma fresh_inv_world0 : fresh_inv (mgr world0).
Proof. split; [constructor | simpl; tauto]. Qed.

(** [C10] When a creation started by [init<Kind>Session] settles, with
    success or failure, the [initializationPromises] entry of its kind is
    deleted and the creation is no longer in flight.  A failed creation
    stores no session: the memo is exactly as before; so when that kind
    had no session, the next call starts a fresh creation (a new promise,
    not the rejected one).  This holds after any interleaving of calls,
    settlements and [cleanup()]. *)
Theorem settle_releases_entry evs p k ce o w' :
  In (p, k) (pending (mgr (run evs world0))) ->
  settle p ce (run evs world0) = (o, w') ->
  initializationPromises (mgr w') k = None /\
  ~ In (p, k) (pending (mgr w')) /\
  (forall e, o = Some (inl e) ->
     sessions (mgr w') = sessions (mgr (run evs world0)) /\
     (sessions (mgr (run evs world0)) k = None ->
        fst (initSession k (mgr w')) = Awaits (next_pid (mgr w')) /\
        next_pid (mgr w') <> p)).
Proof.
  intros Hin Hs.
  destruct (fresh_inv_run evs world0 fresh_inv_world0) as [Hnd Hfr].
  assert (F : find_pending p (pending (mgr (run evs world0))) = Some k)
    by (now apply In_find_pending).
  destruct (settle_shape p ce _ o w' k F Hs) as (Hp & Hn & Hi & Hss).
  split; [rewrite Hi; apply upd_eq|].
  split; [rewrite Hp; intros Hr; apply In_remove_pending in Hr as [_ Hr]; now apply Hr|].
  intros e He. specialize (Hss e He). split; [exact Hss|].
  intros Hnone. unfold initSession.
  rewrite Hi, upd_eq, Hss, Hnone. split; [reflexivity|].
  rewrite Hn. apply Hfr in Hin. lia.
Qed.

Lemma settle_releases_entry_witness :
  In (0, KPrompt) (pending (mgr (run [EvInit KPrompt] world0))) /\
  (initializationPromises
     (mgr (snd (settle 0 env_timeout (run [EvInit KPrompt] world0)))) KPrompt = None /\ True).
Proof.
  split; [simpl; auto|].
  split; [|exact I].
  apply (settle_releases_entry [EvInit KPrompt] 0 KPrompt env_timeout
           (fst (settle 0 env_timeout (run [EvInit KPrompt] world0)))
           (snd (settle 0 env_timeout (run [EvInit KPrompt] world0)))).
  - simpl; auto.
  - vm_compute. reflexivity.
Defined.

(** For the prompt, writer, rewriter and summarizer kinds, after any
    interleaving of calls and settlements with no [cleanup()] among them:
    any two creations of one kind in flight are the same promise; a caller
    arriving while a creation is in flight gets that promise back and
    changes nothing (so every caller sees the same session or the same
    error); and a creation issues at most one [create()] call. *)
Theorem initSession_single_flight evs :
  no_cleanup evs ->
  let m := mgr (run evs world0) in
  (forall k p p', In (p, k) (pending m) -> In (p', k) (pending m) -> p = p') /\
  (forall k p, In (p, k) (pending m) -> initSession k m = (Awaits p, m)) /\
  (forall k ce w, exists l,
     log (snd (_createSession k ce w)) = log w ++ l /\ create_calls l <= 1).
Proof.
  intros Hnc. cbv zeta.
  destruct (memo_inv_run evs world0 Hnc memo_inv_new) as (_ & _ & Hip).
  split; [|split].
  - intros k p p' H1 H2. apply Hip in H1. apply Hip in H2. congruence.
  - intros k p H. unfold initSession. now rewrite (Hip p k H).
  - intros k ce w. apply _createSession_log.
Qed.

Lemma initSession_single_flight_witness :
  no_cleanup [EvInit KPrompt; EvInit KPrompt] /\
  initSession KPrompt (mgr (run [EvInit KPrompt; EvInit KPrompt] world0))
  = (Awaits 0, mgr (run [EvInit KPrompt; EvInit KPrompt] world0)).
Proof.
  split; [repeat constructor|].
  apply (initSession_single_flight [EvInit KPrompt; EvInit KPrompt]);
    [repeat constructor | simpl; auto].
Defined.

(** [C1] fails for the translator kind: [initTranslatorSession] has no
    in-flight memo.  Two concurrent [initTranslatorSession('en', 'es')]
    calls on a fresh manager both start a creation (promises 0 and 1),
    two [create()] calls are issued, the callers get two different
    translators (5 and 6), and the second replaces the first in
    [translatorSessions].  For the memoised kinds, a [cleanup()] during a
    creation empties [initializationPromises], so a later call starts a
    second creation of the prompt kind while the first is still in
    flight, again with two [create()] calls. *)
Lemma initSession_single_flight_counterexample :
  let key := ("en", "es") in
  let w2 := run [EvInitT key; EvInitT key] world0 in
  let w3 := snd (settleT 0 (env_ok 5) w2) in
  let w4 := snd (settleT 1 (env_ok 6) w3) in
  fst (initTranslatorSession key (mgr world0)) = Awaits 0 /\
  fst (initTranslatorSession key (mgr (run [EvInitT key] world0))) = Awaits 1 /\
  pendingT (mgr w2) = [(1, key); (0, key)] /\
  fst (settleT 0 (env_ok 5) w2) = Some (inr 5) /\
  fst (settleT 1 (env_ok 6) w3) = Some (inr 6) /\
  create_calls (log w4) = 2 /\
  translatorSessions (mgr w4) = [(key, 6)] /\
  pending (mgr (run [EvInit KPrompt; EvCleanup (fun _ => false); EvInit KPrompt] world0))
    = [(1, KPrompt); (0, KPrompt)] /\
  create_calls (log (run [EvInit KPrompt; EvCleanup (fun _ => false); EvInit KPrompt;
                          EvSettle 0 (env_ok 5); EvSettle 1 (env_ok 6)] world0)) = 2.
Proof. vm_compute. repeat split. Qed.

(** ** The retry loop: attempts and backoff delays *)

Section RetryFacts.
Context {St A B : Type}.
Variable emit_ev : effect -> MS St unit.
Variable sched : St -> list effect.
Variable body : nat -> MS St A.
Variable on_fail : MS St unit.
Variable finish : A -> nat -> B.
Variable maxRetries : nat.
Variable delay : nat -> nat.
Variable fail_msg : string -> string.

Hypothesis emit_sched : forall e s,
  is_sched e = true -> fst (emit_ev e s) = inr tt /\
  sched (snd (emit_ev e s)) = sched s ++ [e].
Hypothesis body_sched : forall a s, sched (snd (body a s)) = sched s.
Hypothesis on_fail_ok : forall s, fst (on_fail s) = inr tt /\ sched (snd (on_fail s)) = sched s.

Lemma retry_loop_sched fuel : forall attempt s lastError res s',
  attempt + fuel = S maxRetries -> 1 <= fuel ->
  retry_loop emit_ev body on_fail finish maxRetries delay fail_msg
    attempt fuel lastError s = (res, s') ->
  exists n,
    1 <= n <= fuel /\
    sched s' = sched s ++ schedule delay attempt n /\
    (forall b, res = inr b -> exists a, b = finish a (attempt + n)) /\
    ((exists e, res = inl e) -> n = fuel).
Proof.
  induction fuel as [|f IH]; intros attempt s lastError res s' Hsum Hf R; [lia|].
  simpl in R. unfold bindM at 1 in R.
  destruct (emit_sched (EAttempt attempt) s eq_refl) as [E1 S1].
  destruct (emit_ev (EAttempt attempt) s) as [r1 s1]. simpl in E1, S1. subst r1.
  unfold try_catch, bindM at 1 in R.
  pose proof (body_sched attempt s1) as SB.
  destruct (body attempt s1) as [[e|a] s2]; simpl in SB.
  - unfold bindM at 1 in R.
    destruct (on_fail_ok s2) as [E3 S3].
    destruct (on_fail s2) as [r3 s3]. simpl in E3, S3. subst r3.
    destruct (Nat.eqb attempt maxRetries) eqn:Heq;
      [apply Nat.eqb_eq in Heq | apply Nat.eqb_neq in Heq].
    + unfold throw in R. injection R as <- <-.
      exists 1. cbn. split; [lia|]. split; [congruence|].
      split; [intros b Hb; discriminate|]. intros _. lia.
    + unfold bindM at 1 in R.
      destruct (emit_sched (EDelay (delay attempt)) s3 eq_refl) as [E4 S4].
      destruct (emit_ev (EDelay (delay attempt)) s3) as [r4 s4].
      simpl in E4, S4. subst r4.
      destruct f as [|f']; [lia|].
      destruct (IH (S attempt) s4 e res s' ltac:(lia) ltac:(lia) R)
        as (n & Hn & Hs & Hok & Hko).
      exists (S n). split; [lia|]. split.
      * rewrite Hs, S4, S3, SB, S1.
        destruct n as [|n']; [lia|]. cbn. now rewrite <- !app_assoc.
      * split.
        -- intros b Hb. destruct (Hok b Hb) as [a' ->]. exists a'. f_equal. lia.
        -- intros He. specialize (Hko He). lia.
  - unfold ret in R. injection R as <- <-.
    exists 1. cbn. split; [lia|]. split; [congruence|].
    split.
    + intros b Hb. injection Hb as <-. exists a. f_equal. lia.
    + intros [e He]. discriminate.
Qed.

Lemma retry_first_success lastError s a s1 s2 :
  emit_ev (EAttempt 0) s = (inr tt, s1) ->
  body 0 s1 = (inr a, s2) ->
  retry emit_ev body on_fail finish maxRetries delay fail_msg lastError s
  = (inr (finish a 1), s2).
Proof.
  intros E1 Hb. unfold retry. simpl. unfold bindM at 1. rewrite E1.
  unfold try_catch, bindM. rewrite Hb. reflexivity.
Qed.
End RetryFacts.

Lemma schedule_ext d1 d2 a n :
  (forall i, a <= i -> i + 1 < a + n -> d1 i = d2 i) ->
  schedule d1 a n = schedule d2 a n.
Proof.
  revert a. induction n as [|n IH]; intros a H; [reflexivity|].
  destruct n as [|n']; [reflexivity|].
  cbn [schedule]. rewrite (H a) by lia. f_equal. f_equal.
  apply IH. intros i Hi1 Hi2. apply H; lia.
Qed.

Lemma sched_of_app l1 l2 : sched_of (l1 ++ l2) = sched_of l1 ++ sched_of l2.
Proof. unfold sched_of. apply List.filter_app. Qed.

Lemma sched_of_cons_other e l : is_sched e = false -> sched_of (e :: l) = sched_of l.
Proof. intros H. unfold sched_of. simpl. now rewrite H. Qed.

Ltac sched_simpl :=
  repeat (rewrite ?sched_of_app, ?app_nil_r; cbn [sched_of List.filter is_sched]);
  rewrite ?app_nil_r.

Lemma emit_sched_world e w :
  is_sched e = true ->
  fst (emit e w) = inr tt /\ sched_of (log (snd (emit e w))) = sched_of (log w) ++ [e].
Proof.
  intros H. split; [reflexivity|]. cbn. rewrite sched_of_app. unfold sched_of at 2.
  simpl. now rewrite H.
Qed.

Lemma _createSession_sched k ce w :
  sched_of (log (snd (_createSession k ce w))) = sched_of (log w).
Proof.
  unfold _createSession, try_catch, bindM, lift, emit, throw.
  case_create ce; sched_simpl; reflexivity.
Qed.

Lemma settle_sched p ce w : sched_of (log (snd (settle p ce w))) = sched_of (log w).
Proof.
  unfold settle. destruct (find_pending p (pending (mgr w))) as [k|]; [|reflexivity].
  match goal with |- context [_createSession k ce ?w0] =>
    pose proof (_createSession_sched k ce w0) as H;
    destruct (_createSession k ce w0) as [o w1] end.
  simpl in *. destruct o; exact H.
Qed.

Lemma initSession_seq_sched k ce w :
  sched_of (log (snd (initSession_seq k ce w))) = sched_of (log w).
Proof.
  unfold initSession_seq.
  destruct (initSession k (mgr w)) as [[s|p] m1]; [reflexivity|].
  pose proof (settle_sched p ce (mkWorld m1 (log w))) as H.
  destruct (settle p ce (mkWorld m1 (log w))) as [[o|] w2]; exact H.
Qed.

Lemma reviewCode_body_sched env language code a w :
  sched_of (log (snd (reviewCode_body env language code a w))) = sched_of (log w).
Proof.
  unfold reviewCode_body, bindM.
  pose proof (initSession_seq_sched KPrompt (rv_create env a) w) as H.
  destruct (initSession_seq KPrompt (rv_create env a) w) as [[e|s] w1]; exact H.
Qed.

Lemma cleanup_slot_ok dt k w :
  fst (cleanup_slot dt k w) = inr tt /\
  sched_of (log (snd (cleanup_slot dt k w))) = sched_of (log w).
Proof.
  unfold cleanup_slot, bindM, get, try_catch, destroy_session, emit, throw, ret,
    modify_mgr.
  destruct (sessions (mgr w) k) as [s|]; [|split; reflexivity].
  destruct (dt s); cbn; split; sched_simpl; reflexivity.
Qed.

Lemma semit_sched e w :
  is_sched e = true ->
  fst (semit e w) = inr tt /\ sched_of (slog (snd (semit e w))) = sched_of (slog w) ++ [e].
Proof.
  intros H. split; [reflexivity|]. cbn. rewrite sched_of_app. unfold sched_of at 2.
  simpl. now rewrite H.
Qed.

Lemma simple_drop_ok dt w :
  fst (simple_drop dt w) = inr tt /\
  sched_of (slog (snd (simple_drop dt w))) = sched_of (slog w).
Proof.
  unfold simple_drop, bindM, get, try_catch, sdestroy, semit, throw, ret,
    set_simple_session.
  destruct (session w) as [s|]; [|split; reflexivity].
  destruct (dt s); cbn; split; sched_simpl; reflexivity.
Qed.

Lemma createSession_sched dt ce w :
  sched_of (slog (snd (createSession dt ce w))) = sched_of (slog w).
Proof.
  unfold createSession, try_catch, bindM at 1.
  destruct (simple_drop_ok dt w) as [E1 S1].
  destruct (simple_drop dt w) as [r1 w1]. simpl in E1, S1. subst r1.
  unfold bindM, semit, lift, set_simple_session, throw, ret.
  destruct (api_present ce); cbn; [destruct (create_res ce); cbn|];
    sched_simpl; exact S1.
Qed.

Lemma reviewCode_simple_body_sched dt env code a w :
  sched_of (slog (snd (reviewCode_simple_body dt env code a w))) = sched_of (slog w).
Proof.
  unfold reviewCode_simple_body, bindM, get.
  destruct (session w) as [s|]; [reflexivity|].
  pose proof (createSession_sched dt (rv_create env a) w) as H.
  destruct (createSession dt (rv_create env a) w) as [[e|s] w1]; exact H.
Qed.

Lemma attempts_made_app l1 l2 : attempts_made (l1 ++ l2) = attempts_made l1 + attempts_made l2.
Proof. unfold attempts_made. now rewrite List.filter_app, length_app. Qed.

Lemma attempts_made_sched l : attempts_made (sched_of l) = attempts_made l.
Proof.
  induction l as [|e l IH]; [reflexivity|].
  destruct e; unfold attempts_made, sched_of in *; simpl; try rewrite IH; reflexivity.
Qed.

Lemma attempts_made_schedule d a n : attempts_made (schedule d a n) = n.
Proof.
  revert a. induction n as [|n IH]; intros a; [reflexivity|].
  destruct n as [|n']; [reflexivity|].
  specialize (IH (S a)). unfold attempts_made in *. cbn [schedule List.filter length].
  simpl in IH |- *. now rewrite IH.
Qed.

Lemma reviewCode_sched dt env language code w res w' :
  reviewCode dt env language code w = (res, w') ->
  exists n, 1 <= n <= 3 /\
    sched_of (log w') = sched_of (log w) ++ schedule (fun a => 1000 * (a + 1)) 0 n /\
    (forall r, res = inr r -> attempts r = n) /\
    ((exists e, res = inl e) -> n = 3).
Proof.
  unfold reviewCode, retry. intros R.
  eapply (retry_loop_sched emit (fun w => sched_of (log w))) in R;
    [| intros; apply emit_sched_world; assumption
     | intros; apply reviewCode_body_sched
     | intros; apply cleanup_slot_ok | lia | lia].
  destruct R as (n & Hn & Hs & Hok & Hko). exists n.
  split; [exact Hn|]. split; [exact Hs|]. split; [|exact Hko].
  intros r Hr. destruct (Hok r Hr) as [a ->]. reflexivity.
Qed.

Lemma reviewCode_simple_sched dt env code w res w' :
  reviewCode_simple dt env code w = (res, w') ->
  exists n, 1 <= n <= 2 /\
    sched_of (slog w') = sched_of (slog w) ++ schedule (fun _ => 3000) 0 n /\
    (forall r, res = inr r -> attempts r = n) /\
    ((exists e, res = inl e) -> n = 2).
Proof.
  unfold reviewCode_simple, retry. intros R.
  eapply (retry_loop_sched semit (fun w => sched_of (slog w))) in R;
    [| intros; apply semit_sched; assumption
     | intros; apply reviewCode_simple_body_sched
     | intros; apply simple_drop_ok | lia | lia].
  destruct R as (n & Hn & Hs & Hok & Hko). exists n.
  split; [exact Hn|]. split; [exact Hs|]. split; [|exact Hko].
  intros r Hr. destruct (Hok r Hr) as [a ->]. reflexivity.
Qed.

Lemma retryWithBackoff_sched {A} (fn_out : nat -> Exc A) maxRetries baseDelay l res l' :
  retryWithBackoff fn_out maxRetries baseDelay l = (res, l') ->
  exists n, 1 <= n <= maxRetries + 1 /\
    sched_of l' = sched_of l ++ schedule (fun a => baseDelay * 2 ^ a) 0 n /\
    ((exists e, res = inl e) -> n = maxRetries + 1).
Proof.
  unfold retryWithBackoff, retry. intros R.
  eapply (retry_loop_sched lemit sched_of) in R;
    [| intros e s He; split; [reflexivity|]; cbn; rewrite sched_of_app;
       unfold sched_of at 2; simpl; now rewrite He
     | intros; reflexivity
     | intros; split; reflexivity | lia | lia].
  destruct R as (n & Hn & Hs & _ & Hko). exists n.
  split; [lia|]. split; [exact Hs|]. intros He. specialize (Hko He). lia.
Qed.

Lemma attempts_from_sched l l' d n :
  sched_of l' = sched_of l ++ schedule d 0 n ->
  attempts_made l' - attempts_made l = n.
Proof.
  intros H. rewrite <- (attempts_made_sched l'), <- (attempts_made_sched l), H.
  rewrite attempts_made_app, attempts_made_schedule. lia.
Qed.

(** C2: in every [OperationResult] (both [reviewCode] methods) and in
    [retryWithBackoff], the number [n] of attempts made satisfies
    [1 <= n <= maxRetries + 1]; a success reports [attempts = n], a
    failure is raised only after exactly [maxRetries + 1] attempts, and a
    success at the first try reports [attempts = 1]. *)
Theorem reviewCode_attempts_bounded :
  (forall dt env language code w res w',
     reviewCode dt env language code w = (res, w') ->
     let n := attempts_made (log w') - attempts_made (log w) in
     1 <= n <= 2 + 1 /\
     (forall r, res = inr r -> attempts r = n) /\
     ((exists e, res = inl e) -> n = 2 + 1)) /\
  (forall dt env code w res w',
     reviewCode_simple dt env code w = (res, w') ->
     let n := attempts_made (slog w') - attempts_made (slog w) in
     1 <= n <= 1 + 1 /\
     (forall r, res = inr r -> attempts r = n) /\
     ((exists e, res = inl e) -> n = 1 + 1)) /\
  (forall (A : Type) (fn_out : nat -> Exc A) maxRetries baseDelay l res l',
     retryWithBackoff fn_out maxRetries baseDelay l = (res, l') ->
     let n := attempts_made l' - attempts_made l in
     1 <= n <= maxRetries + 1 /\
     ((exists e, res = inl e) -> n = maxRetries + 1)) /\
  (forall dt env language code w a w2,
     reviewCode_body env language code 0 (snd (emit (EAttempt 0) w)) = (inr a, w2) ->
     reviewCode dt env language code w = (inr (mkOperationResult a 1), w2)) /\
  (forall dt env code w a w2,
     reviewCode_simple_body dt env code 0 (snd (semit (EAttempt 0) w)) = (inr a, w2) ->
     reviewCode_simple dt env code w = (inr (mkOperationResult a 1), w2)).
Proof.
  split; [|split; [|split; [|split]]].
  - intros dt env language code w res w' R.
    destruct (reviewCode_sched dt env language code w res w' R) as (n & Hn & Hs & Hok & Hko).
    cbv zeta. rewrite (attempts_from_sched _ _ _ _ Hs). repeat split; auto; lia.
  - intros dt env code w res w' R.
    destruct (reviewCode_simple_sched dt env code w res w' R) as (n & Hn & Hs & Hok & Hko).
    cbv zeta. rewrite (attempts_from_sched _ _ _ _ Hs). repeat split; auto; lia.
  - intros A fn_out maxRetries baseDelay l res l' R.
    destruct (retryWithBackoff_sched fn_out maxRetries baseDelay l res l' R)
      as (n & Hn & Hs & Hko).
    cbv zeta. rewrite (attempts_from_sched _ _ _ _ Hs). split; auto.
  - intros dt env language code w a w2 Hb.
    unfold reviewCode. apply retry_first_success with (s1 := snd (emit (EAttempt 0) w)).
    + reflexivity.
    + exact Hb.
  - intros dt env code w a w2 Hb.
    unfold reviewCode_simple. apply retry_first_success with (s1 := snd (semit (EAttempt 0) w)).
    + reflexivity.
    + exact Hb.
Qed.

Lemma reviewCode_attempts_bounded_witness :
  fst (reviewCode (fun _ => false)
         (mkReviewEnv (fun _ => env_ok 7)
            (fun a _ _ => if Nat.eqb a 0 then Hangs else Resolves "ok"))
         None "const x = 1;" world0) = inr (mkOperationResult "ok" 2) /\
  (let w' := snd (reviewCode (fun _ => false)
         (mkReviewEnv (fun _ => env_ok 7)
            (fun a _ _ => if Nat.eqb a 0 then Hangs else Resolves "ok"))
         None "const x = 1;" world0) in
   let n := attempts_made (log w') - attempts_made (log world0) in
   1 <= n <= 2 + 1 /\
   (forall r, (inr (mkOperationResult "ok" 2) : Exc OperationResult) = inr r ->
              attempts r = n)).
Proof.
  split; [vm_compute; reflexivity|].
  destruct (proj1 reviewCode_attempts_bounded (fun _ => false)
         (mkReviewEnv (fun _ => env_ok 7)
            (fun a _ _ => if Nat.eqb a 0 then Hangs else Resolves "ok"))
         None "const x = 1;" world0 (inr (mkOperationResult "ok" 2))
         (snd (reviewCode (fun _ => false)
         (mkReviewEnv (fun _ => env_ok 7)
            (fun a _ _ => if Nat.eqb a 0 then Hangs else Resolves "ok"))
         None "const x = 1;" world0))
         ltac:(vm_compute; reflexivity)) as [H1 [H2 _]].
  split; [exact H1 | exact H2].
Defined.

(** C4: every backoff delay awaited after a failed attempt of index
    [attempt] equals [baseDelay * 2 ^ attempt], with exactly one delay
    between two consecutive attempts and none after the last: the
    attempts and delays of a run are [schedule (fun a => baseDelay * 2 ^ a) 0 n]
    for its [n] attempts.  [baseDelay] is 1000 for the enhanced
    [reviewCode] (whose [1000 * (attempt + 1)] agrees with
    [1000 * 2 ^ attempt] for the two delays it can await), 3000 for the
    simple [reviewCode], and the argument of [retryWithBackoff]. *)
Theorem reviewCode_backoff_exponential :
  (forall dt env language code w res w',
     reviewCode dt env language code w = (res, w') ->
     exists n, 1 <= n <= 3 /\
       sched_of (log w') = sched_of (log w) ++ schedule (fun a => 1000 * 2 ^ a) 0 n) /\
  (forall dt env code w res w',
     reviewCode_simple dt env code w = (res, w') ->
     exists n, 1 <= n <= 2 /\
       sched_of (slog w') = sched_of (slog w) ++ schedule (fun a => 3000 * 2 ^ a) 0 n) /\
  (forall (A : Type) (fn_out : nat -> Exc A) maxRetries baseDelay l res l',
     retryWithBackoff fn_out maxRetries baseDelay l = (res, l') ->
     exists n, 1 <= n <= maxRetries + 1 /\
       sched_of l' = sched_of l ++ schedule (fun a => baseDelay * 2 ^ a) 0 n).
Proof.
  split; [|split].
  - intros dt env language code w res w' R.
    destruct (reviewCode_sched dt env language code w res w' R) as (n & Hn & Hs & _).
    exists n. split; [exact Hn|]. rewrite Hs. f_equal. apply schedule_ext.
    intros i _ Hi. destruct i as [|[|i]]; simpl; lia.
  - intros dt env code w res w' R.
    destruct (reviewCode_simple_sched dt env code w res w' R) as (n & Hn & Hs & _).
    exists n. split; [exact Hn|]. rewrite Hs. f_equal. apply schedule_ext.
    intros i _ Hi. destruct i as [|i]; simpl; lia.
  - intros A fn_out maxRetries baseDelay l res l' R.
    destruct (retryWithBackoff_sched fn_out maxRetries baseDelay l res l' R) as (n & Hn & Hs & _).
    exists n. split; [exact Hn | exact Hs].
Qed.

Lemma reviewCode_backoff_exponential_witness :
  exists n, 1 <= n <= 3 /\
    sched_of (log (snd (reviewCode (fun _ => false)
         (mkReviewEnv (fun _ => env_ok 7)
            (fun a _ _ => if Nat.eqb a 0 then Hangs else Resolves "ok"))
         None "const x = 1;" world0)))
    = sched_of (log world0) ++ schedule (fun a => 1000 * 2 ^ a) 0 n.
Proof.
  apply (proj1 reviewCode_backoff_exponential (fun _ => false)
         (mkReviewEnv (fun _ => env_ok 7)
            (fun a _ _ => if Nat.eqb a 0 then Hangs else Resolves "ok"))
         None "const x = 1;" world0
         (fst (reviewCode (fun _ => false)
         (mkReviewEnv (fun _ => env_ok 7)
            (fun a _ _ => if Nat.eqb a 0 then Hangs else Resolves "ok"))
         None "const x = 1;" world0))).
  vm_compute. reflexivity.
Defined.

(** The scenario of the specification: the first [prompt()] times out, the
    second succeeds; the result reports two attempts and exactly one
    1000 ms delay was awaited between them. *)
Example review_timeout_then_success :
  let r := reviewCode (fun _ => false)
         (mkReviewEnv (fun _ => env_ok 7)
            (fun a _ _ => if Nat.eqb a 0 then Hangs else Resolves "ok"))
         None "const x = 1;" world0 in
  fst r = inr (mkOperationResult "ok" 2) /\
  sched_of (log (snd r)) = [EAttempt 0; EDelay 1000; EAttempt 1].
Proof. vm_compute. split; reflexivity. Qed.

Lemma reviewCode_unfold dt env language code :
  reviewCode dt env language code = reviewCode_from dt env language code 0 3 EmptyString.
Proof. reflexivity. Qed.

Lemma lang_key_eqb_spec a b : lang_key_eqb a b = true <-> a = b.
Proof.
  destruct a as [a1 a2], b as [b1 b2]. unfold lang_key_eqb. cbn.
  rewrite andb_true_iff, !String.eqb_eq. split.
  - intros [-> ->]. reflexivity.
  - intros H. injection H as -> ->. split; reflexivity.
Qed.

Lemma lang_key_eqb_refl a : lang_key_eqb a a = true.
Proof. apply lang_key_eqb_spec. reflexivity. Qed.

Lemma map_get_set_eq key v l : map_get key (map_set key v l) = Some v.
Proof.
  induction l as [|[k' v'] l IH]; cbn; [rewrite lang_key_eqb_refl; reflexivity|].
  destruct (lang_key_eqb k' key) eqn:E; cbn; rewrite E; [reflexivity | exact IH].
Qed.

Lemma map_get_set_ne key key' v l :
  key' <> key -> map_get key' (map_set key v l) = map_get key' l.
Proof.
  intros N. induction l as [|[k' v'] l IH]; cbn.
  - destruct (lang_key_eqb key key') eqn:E; [|reflexivity].
    apply lang_key_eqb_spec in E. congruence.
  - destruct (lang_key_eqb k' key) eqn:E; cbn; [|rewrite IH; reflexivity].
    apply lang_key_eqb_spec in E. subst k'.
    destruct (lang_key_eqb key key') eqn:E'; [|reflexivity].
    apply lang_key_eqb_spec in E'. congruence.
Qed.

Lemma initSession_seq_keeps k ce ce' w s w1 :
  initializationPromises (mgr w) k = None ->
  initSession_seq k ce w = (inr s, w1) ->
  sessions (mgr w1) k = Some s /\ initializationPromises (mgr w1) k = None /\
  (log w1 = log w \/ log w1 = log w ++ [ECreate k]) /\
  initSession_seq k ce' w1 = (inr s, w1).
Proof.
  intros Hi. unfold initSession_seq at 1, initSession. rewrite Hi.
  destruct (sessions (mgr w) k) as [s0|] eqn:Es.
  - intros H. injection H as <- <-. cbn. split; [exact Es|]. split; [exact Hi|].
    split; [left; reflexivity|].
    unfold initSession_seq, initSession. cbn. rewrite Hi, Es. reflexivity.
  - unfold start_creation, settle. cbn. rewrite Nat.eqb_refl.
    unfold _createSession, try_catch, bindM, lift, emit, throw.
    case_create ce; intros H; try discriminate. injection H as <- <-.
    cbn. rewrite !upd_eq. split; [reflexivity|]. split; [reflexivity|].
    split; [right; reflexivity|].
    unfold initSession_seq, initSession. cbn. rewrite !upd_eq. reflexivity.
Qed.

Lemma initTranslatorSession_seq_keeps key ce ce' w t w1 :
  initTranslatorSession_seq key ce w = (inr t, w1) ->
  map_get key (translatorSessions (mgr w1)) = Some t /\
  (log w1 = log w \/ log w1 = log w ++ [ECreateT key]) /\
  initTranslatorSession_seq key ce' w1 = (inr t, w1).
Proof.
  unfold initTranslatorSession_seq at 1, initTranslatorSession.
  destruct (map_get key (translatorSessions (mgr w))) as [t0|] eqn:Eg.
  - intros H. injection H as <- <-. cbn. split; [exact Eg|]. split; [left; reflexivity|].
    unfold initTranslatorSession_seq, initTranslatorSession. cbn. rewrite Eg. reflexivity.
  - unfold settleT. cbn. rewrite Nat.eqb_refl.
    unfold _createTranslator, try_catch, bindM, lift, emit, throw, modify_mgr, ret.
    case_create ce; intros H; try discriminate. injection H as <- <-. cbn.
    split; [apply map_get_set_eq|]. split; [right; reflexivity|].
    unfold initTranslatorSession_seq, initTranslatorSession. cbn.
    rewrite map_get_set_eq. reflexivity.
Qed.

(** A single-shot operation: obtain the session, then one call of its verb. *)
Lemma single_shot_after {A} (get_s : M sess) (verb : sess -> awaited A) w s w1 :
  get_s w = (inr s, w1) ->
  try_catch (bindM get_s (fun s => lift (withTimeout (verb s)))) (fun e => throw e) w
  = (withTimeout (verb s), w1).
Proof.
  intros H. unfold try_catch, bindM, throw. rewrite H.
  destruct (withTimeout (verb s)); reflexivity.
Qed.

Lemma single_shot_keeps k (pr : string -> string) env x w s w1 :
  initializationPromises (mgr w) k = None ->
  initSession_seq k (op_create env) w = (inr s, w1) ->
  try_catch (bindM (initSession_seq k (op_create env))
               (fun s => lift (withTimeout (op_answer env s (pr x))))) (fun e => throw e) w
    = (withTimeout (op_answer env s (pr x)), w1) /\
  sessions (mgr w1) k = Some s /\
  (log w1 = log w \/ log w1 = log w ++ [ECreate k]) /\
  (forall env' x',
     try_catch (bindM (initSession_seq k (op_create env'))
                  (fun s => lift (withTimeout (op_answer env' s (pr x'))))) (fun e => throw e) w1
     = (withTimeout (op_answer env' s (pr x')), w1)).
Proof.
  intros Hi Hs.
  destruct (initSession_seq_keeps k (op_create env) (op_create env) w s w1 Hi Hs)
    as (Ss & _ & Hl & _).
  split; [apply (single_shot_after _ (fun s => op_answer env s (pr x))), Hs|].
  split; [exact Ss|]. split; [exact Hl|].
  intros env' x'. apply (single_shot_after _ (fun s => op_answer env' s (pr x'))).
  exact (proj2 (proj2 (proj2 (initSession_seq_keeps k (op_create env) (op_create env')
                                 w s w1 Hi Hs)))).
Qed.

(** C3 (amended): only [reviewCode] retries.  When its attempt [a] fails
    and another attempt follows, the loop destroys the prompt session the
    failed attempt left memoised (if any), clears [sessions.prompt], waits,
    and runs the next attempt from that state: nothing is memoised for the
    prompt kind any more, so the next attempt starts a fresh creation.
    [generateDocumentation], [refactorCode], [summarizePR] and
    [translateComment] do not retry and do not destroy their session: once
    the session [s] is obtained (no creation being in flight for a
    memoised kind), the operation calls the session's verb once and,
    whatever it answers (a failure or a timeout included), ends in the
    world where [s] was obtained.  There [s] is memoised, the log holds at
    most the one [create()] call, no [destroy()], and the next call answers
    from [s] without changing anything. *)
Theorem reviewCode_retry_fresh_session :
  (forall dt env language code a lastError w e w2,
     a < 2 ->
     reviewCode_body env language code a (snd (emit (EAttempt a) w)) = (inl e, w2) ->
     let w4 := snd (emit (EDelay (1000 * (a + 1))) (snd (cleanup_slot dt KPrompt w2))) in
     reviewCode_from dt env language code a (3 - a) lastError w
       = reviewCode_from dt env language code (S a) (2 - a) e w4 /\
     sessions (mgr w4) KPrompt = None /\
     (forall s, sessions (mgr w2) KPrompt = Some s ->
        log w4 = log w2 ++ [EDestroy s; EDelay (1000 * (a + 1))]) /\
     (initializationPromises (mgr w2) KPrompt = None ->
        fst (initSession KPrompt (mgr w4)) = Awaits (next_pid (mgr w4)))) /\
  (forall env code w s w1,
     initializationPromises (mgr w) KWriter = None ->
     initSession_seq KWriter (op_create env) w = (inr s, w1) ->
     generateDocumentation env code w = (withTimeout (op_answer env s (docPrompt_enh code)), w1) /\
     sessions (mgr w1) KWriter = Some s /\
     (log w1 = log w \/ log w1 = log w ++ [ECreate KWriter]) /\
     (forall env' code', generateDocumentation env' code' w1
                         = (withTimeout (op_answer env' s (docPrompt_enh code')), w1))) /\
  (forall env code w s w1,
     initializationPromises (mgr w) KRewriter = None ->
     initSession_seq KRewriter (op_create env) w = (inr s, w1) ->
     refactorCode env code w = (withTimeout (op_answer env s (refactorContext_enh code)), w1) /\
     sessions (mgr w1) KRewriter = Some s /\
     (log w1 = log w \/ log w1 = log w ++ [ECreate KRewriter]) /\
     (forall env' code', refactorCode env' code' w1
                         = (withTimeout (op_answer env' s (refactorContext_enh code')), w1))) /\
  (forall env prContent w s w1,
     initializationPromises (mgr w) KSummarizer = None ->
     initSession_seq KSummarizer (op_create env) w = (inr s, w1) ->
     summarizePR env prContent w = (withTimeout (op_answer env s prContent), w1) /\
     sessions (mgr w1) KSummarizer = Some s /\
     (log w1 = log w \/ log w1 = log w ++ [ECreate KSummarizer]) /\
     (forall env' prContent', summarizePR env' prContent' w1
                              = (withTimeout (op_answer env' s prContent'), w1))) /\
  (forall env text targetLanguage sourceLanguage w t w1,
     initTranslatorSession_seq (sourceLanguage, targetLanguage) (op_create env) w = (inr t, w1) ->
     translateComment env text targetLanguage sourceLanguage w
       = (withTimeout (op_answer env t text), w1) /\
     map_get (sourceLanguage, targetLanguage) (translatorSessions (mgr w1)) = Some t /\
     (log w1 = log w \/ log w1 = log w ++ [ECreateT (sourceLanguage, targetLanguage)]) /\
     (forall env' text', translateComment env' text' targetLanguage sourceLanguage w1
                         = (withTimeout (op_answer env' t text'), w1))).
Proof.
  split; [|split; [|split; [|split]]].
  - intros dt env language code a lastError w e w2 Ha Hb. cbv zeta.
    replace (3 - a) with (S (2 - a)) by lia.
    pose proof (cleanup_slot_spec dt KPrompt w2) as CS.
    destruct (cleanup_slot dt KPrompt w2) as [r3 w3] eqn:E3.
    destruct CS as (-> & Ss & Si & _).
    split; [|split; [|split]].
    + unfold reviewCode_from. cbn [retry_loop].
      unfold bindM at 1. unfold emit at 1. cbn [fst snd].
      unfold emit in Hb. cbn [snd] in Hb.
      unfold try_catch, bindM at 1. rewrite Hb.
      unfold bindM at 1. rewrite E3.
      replace (Nat.eqb a 2) with false by (symmetry; apply Nat.eqb_neq; lia).
      reflexivity.
    + cbn. rewrite Ss. apply upd_eq.
    + intros s Hs. cbn.
      unfold cleanup_slot, bindM, get in E3. rewrite Hs in E3.
      unfold try_catch, destroy_session, bindM, emit, throw, ret, modify_mgr in E3.
      destruct (dt s); cbn in E3; injection E3 as <-; cbn;
        rewrite <- app_assoc; reflexivity.
    + intros Hi. cbn. unfold initSession.
      rewrite Si, Hi, Ss, upd_eq. reflexivity.
  - intros env code w s w1. exact (single_shot_keeps KWriter docPrompt_enh env code w s w1).
  - intros env code w s w1.
    exact (single_shot_keeps KRewriter refactorContext_enh env code w s w1).
  - intros env prContent w s w1.
    exact (single_shot_keeps KSummarizer (fun x => x) env prContent w s w1).
  - intros env text targetLanguage sourceLanguage w t w1 Ht.
    destruct (initTranslatorSession_seq_keeps _ _ (op_create env) w t w1 Ht) as (Hg & Hl & _).
    split; [apply (single_shot_after _ (fun t => op_answer env t text)), Ht|].
    split; [exact Hg|]. split; [exact Hl|].
    intros env' text'. apply (single_shot_after _ (fun t => op_answer env' t text')).
    exact (proj2 (proj2 (initTranslatorSession_seq_keeps _ _ (op_create env') w t w1 Ht))).
Qed.

Lemma reviewCode_retry_fresh_session_witness :
  (let env := mkReviewEnv (fun _ => env_ok 7)
                (fun a _ _ => if Nat.eqb a 0 then Hangs else Resolves "ok") in
   let w2 := snd (reviewCode_body env None "const x = 1;" 0 (snd (emit (EAttempt 0) world0))) in
   let w4 := snd (emit (EDelay (1000 * (0 + 1)))
                    (snd (cleanup_slot (fun _ => false) KPrompt w2))) in
   sessions (mgr w2) KPrompt = Some 7 /\
   sessions (mgr w4) KPrompt = None /\
   log w4 = log w2 ++ [EDestroy 7; EDelay (1000 * (0 + 1))]) /\
  (let env := mkOpEnv (env_ok 7) (fun _ _ => Hangs) in
   let w1 := snd (initSession_seq KWriter (env_ok 7) world0) in
   generateDocumentation env "const x = 1;" world0 = (inl "Operation timed out", w1) /\
   sessions (mgr w1) KWriter = Some 7) /\
  (let env := mkOpEnv (env_ok 5) (fun _ _ => Hangs) in
   let w1 := snd (initTranslatorSession_seq ("en", "es") (env_ok 5) world0) in
   translateComment env "hello" "es" "en" world0 = (inl "Operation timed out", w1) /\
   map_get ("en", "es") (translatorSessions (mgr w1)) = Some 5).
Proof.
  split; [|split].
  - intros env w2 w4.
    destruct (proj1 reviewCode_retry_fresh_session (fun _ => false) env None "const x = 1;" 0
                EmptyString world0 "Operation timed out" w2
                ltac:(lia) ltac:(vm_compute; reflexivity)) as (_ & H1 & H2 & _).
    split; [vm_compute; reflexivity|]. split; [exact H1|].
    apply H2. vm_compute. reflexivity.
  - intros env w1.
    destruct (proj1 (proj2 reviewCode_retry_fresh_session) env "const x = 1;" world0 7 w1
                eq_refl eq_refl) as (H1 & H2 & _).
    split; [exact H1 | exact H2].
  - intros env w1.
    destruct (proj2 (proj2 (proj2 (proj2 reviewCode_retry_fresh_session)))
                env "hello" "es" "en" world0 5 w1 eq_refl) as (H1 & H2 & _).
    split; [exact H1 | exact H2].
Defined.

(** C3 fails for [generateDocumentation] and [translateComment] (and
    likewise [refactorCode] and [summarizePR]): there is no retry and no
    clean-up.  When [writer.write] or [translator.translate] times out,
    the session stays memoised and is not destroyed, and the next call
    reuses it instead of creating a fresh one. *)
Lemma reviewCode_retry_fresh_session_counterexample :
  let env1 := mkOpEnv (env_ok 7) (fun _ _ => Hangs) in
  let env2 := mkOpEnv (env_ok 8)
                (fun s _ => Resolves (if Nat.eqb s 7 then "from 7" else "fresh")) in
  let w1 := snd (generateDocumentation env1 "const x = 1;" world0) in
  let v1 := snd (translateComment env1 "hello" "es" "en" world0) in
  fst (generateDocumentation env1 "const x = 1;" world0) = inl "Operation timed out" /\
  sessions (mgr w1) KWriter = Some 7 /\
  List.existsb (fun e => match e with EDestroy _ => true | _ => false end) (log w1) = false /\
  fst (generateDocumentation env2 "const x = 1;" w1) = inr "from 7" /\
  create_calls (log (snd (generateDocumentation env2 "const x = 1;" w1))) = 1 /\
  fst (translateComment env1 "hello" "es" "en" world0) = inl "Operation timed out" /\
  map_get ("en", "es") (translatorSessions (mgr v1)) = Some 7 /\
  List.existsb (fun e => match e with EDestroy _ => true | _ => false end) (log v1) = false /\
  fst (translateComment env2 "hello" "es" "en" v1) = inr "from 7" /\
  create_calls (log (snd (translateComment env2 "hello" "es" "en" v1))) = 1.
Proof. vm_compute. repeat split. Qed.

(** ** Input validation in the dispatcher *)

Lemma code_too_short_spec o :
  (o = None \/ exists s, o = Some s /\ String.length (trim s) < 10) ->
  code_too_short o = true.
Proof.
  intros [-> | (s & -> & Hs)]; [reflexivity|].
  simpl. apply orb_true_intro. right. apply Nat.ltb_lt. exact Hs.
Qed.

Lemma dispatch_short req b :
  In (action req) ["reviewCode"; "generateDocs"; "refactorCode"] ->
  code_too_short (req_code req) = true ->
  dispatch req b = inl "Code is too short or empty".
Proof.
  intros Ha Hs. unfold dispatch.
  destruct Ha as [Ha | [Ha | [Ha | []]]]; rewrite <- Ha; simpl; rewrite Hs; reflexivity.
Qed.

Lemma getOrCreateAIManager_cases t r :
  snd (getOrCreateAIManager t r) = r \/
  (sessionMap r !! t = None /\
   heap (snd (getOrCreateAIManager t r)) = <[next_loc r := new_AIManager]> (heap r)).
Proof.
  unfold getOrCreateAIManager.
  destruct (sessionMap r !! t) eqn:E; [left; reflexivity | right; split; reflexivity].
Qed.

Lemma handleMessageAsync_res req tab r :
  exists b, let '(_, res, _) := handleMessageAsync req tab r in res = dispatch req b.
Proof.
  unfold handleMessageAsync. destruct (tab_context tab) as [t|].
  - destruct (getOrCreateAIManager t r). exists true. reflexivity.
  - exists false. reflexivity.
Qed.

Lemma dispatch_summarizePR req b :
  action req = "summarizePR" ->
  ((req_content req = None \/ req_content req = Some EmptyString) ->
     dispatch req b = inl "No content to summarize") /\
  (forall s, req_content req = Some s -> s <> EmptyString ->
     dispatch req b = inr (CSummarizePR s)).
Proof.
  intros Ha. unfold dispatch. rewrite Ha. cbn -[falsy get_or].
  split.
  - intros [-> | ->]; reflexivity.
  - intros s -> Hs. destruct s as [|c s']; [congruence | reflexivity].
Qed.

Lemma dispatch_translateComment req b :
  action req = "translateComment" ->
  ((req_text req = None \/ req_text req = Some EmptyString) ->
     dispatch req b = inl "No text to translate") /\
  (forall s, req_text req = Some s -> s <> EmptyString ->
     dispatch req b = inr (CTranslateComment s (get_or (targetLanguage req) "es")
                             (get_or (sourceLanguage req) "en"))).
Proof.
  intros Ha. unfold dispatch. rewrite Ha. cbn -[falsy get_or].
  split.
  - intros [-> | ->]; reflexivity.
  - intros s -> Hs. destruct s as [|c s']; [congruence | reflexivity].
Qed.

(** C5 (amended): a [reviewCode], [generateDocs] or [refactorCode] request
    whose code is missing or has fewer than 10 characters after trimming
    is rejected with ['Code is too short or empty'] before any manager
    method runs: no manager method is reached, and the only change to the
    registry is the empty manager [getOrCreateAIManager] may register for
    the tab; every existing manager is left as it was.  A [summarizePR]
    ([translateComment]) request is rejected exactly when its content
    (text) is missing or empty: any non-empty one, however short, reaches
    [aiManager.summarizePR] ([aiManager.translateComment]) as it is. *)
Theorem handleMessage_rejects_short_code :
  (forall req tab r,
     In (action req) ["reviewCode"; "generateDocs"; "refactorCode"] ->
     (req_code req = None \/ exists s, req_code req = Some s /\ String.length (trim s) < 10) ->
     let '(_, res, r') := handleMessageAsync req tab r in
     res = inl "Code is too short or empty" /\
     (r' = r \/ exists t, sessionMap r !! t = None /\ r' = snd (getOrCreateAIManager t r)) /\
     (heap r !! next_loc r = None ->
      forall l m, heap r !! l = Some m -> heap r' !! l = Some m)) /\
  (forall req tab r,
     action req = "summarizePR" ->
     let '(_, res, _) := handleMessageAsync req tab r in
     ((req_content req = None \/ req_content req = Some EmptyString) ->
        res = inl "No content to summarize") /\
     (forall s, req_content req = Some s -> s <> EmptyString -> res = inr (CSummarizePR s))) /\
  (forall req tab r,
     action req = "translateComment" ->
     let '(_, res, _) := handleMessageAsync req tab r in
     ((req_text req = None \/ req_text req = Some EmptyString) ->
        res = inl "No text to translate") /\
     (forall s, req_text req = Some s -> s <> EmptyString ->
        res = inr (CTranslateComment s (get_or (targetLanguage req) "es")
                     (get_or (sourceLanguage req) "en")))).
Proof.
  split; [|split].
  - intros req tab r Ha Hc. apply code_too_short_spec in Hc.
    unfold handleMessageAsync.
    destruct (tab_context tab) as [t|].
    + pose proof (getOrCreateAIManager_cases t r) as C.
      destruct (getOrCreateAIManager t r) as [l r1] eqn:E. cbn [snd] in C.
      split; [apply dispatch_short; assumption|].
      destruct C as [-> | [Hn Hh]].
      * split; [left; reflexivity|]. intros _ l' m Hm. exact Hm.
      * split.
        -- right. exists t. split; [exact Hn|]. rewrite E. reflexivity.
        -- intros Hfree l' m Hm. rewrite Hh.
           rewrite lookup_insert_ne; [exact Hm|].
           intros <-. congruence.
    + split; [apply dispatch_short; assumption|].
      split; [left; reflexivity|]. intros _ l m Hm. exact Hm.
  - intros req tab r Ha. destruct (handleMessageAsync_res req tab r) as [b Hb].
    destruct (handleMessageAsync req tab r) as [[l res] r']. rewrite Hb.
    apply dispatch_summarizePR, Ha.
  - intros req tab r Ha. destruct (handleMessageAsync_res req tab r) as [b Hb].
    destruct (handleMessageAsync req tab r) as [[l res] r']. rewrite Hb.
    apply dispatch_translateComment, Ha.
Qed.

Lemma handleMessage_rejects_short_code_witness :
  (let req := mkRequest "reviewCode" (Some "  x = 1;  ") None None None None in
   let '(_, res, r') := handleMessageAsync req (Some 3) reg0 in
   res = inl "Code is too short or empty" /\
   (r' = reg0 \/ exists t, sessionMap reg0 !! t = None /\ r' = snd (getOrCreateAIManager t reg0)) /\
   (heap reg0 !! next_loc reg0 = None ->
    forall l m, heap reg0 !! l = Some m -> heap r' !! l = Some m)) /\
  snd (fst (handleMessageAsync (mkRequest "summarizePR" None (Some "a") None None None)
                               (Some 3) reg0)) = inr (CSummarizePR "a") /\
  snd (fst (handleMessageAsync (mkRequest "translateComment" None None (Some EmptyString)
                                  None None) None reg0)) = inl "No text to translate".
Proof.
  split; [|split].
  - apply (proj1 handleMessage_rejects_short_code
             (mkRequest "reviewCode" (Some "  x = 1;  ") None None None None) (Some 3) reg0).
    + simpl. left. reflexivity.
    + right. exists "  x = 1;  ". split; [reflexivity | vm_compute; lia].
  - pose proof (proj1 (proj2 handleMessage_rejects_short_code)
                  (mkRequest "summarizePR" None (Some "a") None None None) (Some 3) reg0
                  eq_refl) as H.
    destruct (handleMessageAsync _ _ _) as [[l res] r'] eqn:E. cbn.
    apply (proj2 H "a" eq_refl). discriminate.
  - pose proof (proj2 (proj2 handleMessage_rejects_short_code)
                  (mkRequest "translateComment" None None (Some EmptyString) None None)
                  None reg0 eq_refl) as H.
    destruct (handleMessageAsync _ _ _) as [[l res] r'] eqn:E. cbn.
    apply (proj1 H). right. reflexivity.
Defined.

(** C5 fails for [summarizePR] and [translateComment]: their only check
    is that the text is present and non-empty, so a 3-character content
    reaches [aiManager.summarizePR] and a 2-character text reaches
    [aiManager.translateComment]. *)
Lemma handleMessage_rejects_short_code_counterexample :
  dispatch (mkRequest "summarizePR" None (Some "abc") None None None) true
    = inr (CSummarizePR "abc") /\
  dispatch (mkRequest "translateComment" None None (Some "hi") None None) true
    = inr (CTranslateComment "hi" "es" "en").
Proof. vm_compute. split; reflexivity. Qed.

(** ** Length of the prompts *)

Lemma length_app_str (s1 s2 : string) :
  String.length (s1 ++ s2) = String.length s1 + String.length s2.
Proof. induction s1 as [|c s1 IH]; simpl; [reflexivity | now rewrite IH]. Qed.

Lemma length_substring0 n (s : string) : String.length (substring 0 n s) <= n.
Proof.
  revert s. induction n as [|n IH]; intros [|c s]; simpl; try lia.
  specialize (IH s). lia.
Qed.

Lemma length_string_of_list l : String.length (string_of_list_ascii l) = List.length l.
Proof. induction l as [|c l IH]; simpl; [reflexivity | now rewrite IH]. Qed.

Ltac length_str := repeat rewrite length_app_str; simpl String.length.

Lemma reviewPrompt_enh_length language code :
  String.length (reviewPrompt_enh language code)
  = String.length (reviewPrompt_enh language EmptyString) + String.length code.
Proof. unfold reviewPrompt_enh. length_str. lia. Qed.

Lemma docPrompt_enh_length code :
  String.length (docPrompt_enh code)
  = String.length (docPrompt_enh EmptyString) + String.length code.
Proof. unfold docPrompt_enh. length_str. lia. Qed.

Lemma refactorContext_enh_length code :
  String.length (refactorContext_enh code)
  = String.length (refactorContext_enh EmptyString) + String.length code.
Proof. unfold refactorContext_enh. length_str. lia. Qed.

(** C6 (amended): only the simple class truncates.  Its [reviewCode],
    [generateDocumentation] and [refactorCode] embed
    [code.substring(0, 2000)], so each prompt is at most 2000 characters
    longer than its template; the prompts of the enhanced class embed the
    code in full, so their length grows with the code without bound; and
    [summarizePR] and [translateComment] hand the text to the session's
    [summarize] ([translate]) call unchanged, whatever its length. *)
Theorem simple_prompts_truncated code language :
  String.length (reviewPrompt_simple code) <= String.length (reviewPrompt_simple EmptyString) + 2000 /\
  String.length (docPrompt_simple code) <= String.length (docPrompt_simple EmptyString) + 2000 /\
  String.length (refactorPrompt_simple code) <= String.length (refactorPrompt_simple EmptyString) + 2000 /\
  String.length (reviewPrompt_enh language code)
    = String.length (reviewPrompt_enh language EmptyString) + String.length code /\
  String.length (docPrompt_enh code) = String.length (docPrompt_enh EmptyString) + String.length code /\
  String.length (refactorContext_enh code)
    = String.length (refactorContext_enh EmptyString) + String.length code /\
  (forall env w s w1,
     initSession_seq KSummarizer (op_create env) w = (inr s, w1) ->
     summarizePR env code w = (withTimeout (op_answer env s code), w1)) /\
  (forall env targetLanguage sourceLanguage w t w1,
     initTranslatorSession_seq (sourceLanguage, targetLanguage) (op_create env) w = (inr t, w1) ->
     translateComment env code targetLanguage sourceLanguage w
       = (withTimeout (op_answer env t code), w1)).
Proof.
  pose proof (length_substring0 2000 code).
  split; [|split; [|split; [|split; [|split; [|split; [|split]]]]]].
  - unfold reviewPrompt_simple. length_str. lia.
  - unfold docPrompt_simple. length_str. lia.
  - unfold refactorPrompt_simple. length_str. lia.
  - apply reviewPrompt_enh_length.
  - apply docPrompt_enh_length.
  - apply refactorContext_enh_length.
  - intros env w s w1 Hs. apply (single_shot_after _ (fun s => op_answer env s code)), Hs.
  - intros env targetLanguage sourceLanguage w t w1 Ht.
    apply (single_shot_after _ (fun t => op_answer env t code)), Ht.
Qed.

Lemma simple_prompts_truncated_witness :
  let env := mkOpEnv (env_ok 4) (fun _ t => Resolves t) in
  summarizePR env "abc" world0
    = (inr "abc", snd (initSession_seq KSummarizer (env_ok 4) world0)) /\
  translateComment env "hola" "en" "es" world0
    = (inr "hola", snd (initTranslatorSession_seq ("es", "en") (env_ok 4) world0)).
Proof.
  intros env. split.
  - apply (proj1 (proj2 (proj2 (proj2 (proj2 (proj2 (proj2
             (simple_prompts_truncated "abc" None))))))) env world0 4).
    reflexivity.
  - apply (proj2 (proj2 (proj2 (proj2 (proj2 (proj2 (proj2
             (simple_prompts_truncated "hola" None))))))) env "en" "es" world0 4).
    reflexivity.
Defined.

(** C6 fails for the enhanced class: no bound holds for the prompt of its
    [reviewCode] (nor for its other operations, nor for [summarizePR] and
    [translateComment], which pass the text as it is). *)
Lemma simple_prompts_truncated_counterexample :
  ~ exists N, forall code, String.length (reviewPrompt_enh None code) <= N.
Proof.
  intros [N H]. specialize (H (string_of_list_ascii (repeat (Ascii.ascii_of_nat 97) (S N)))).
  rewrite reviewPrompt_enh_length, length_string_of_list, repeat_length in H. lia.
Qed.

(** ** [checkCapabilities()] *)

Lemma bind_ok {St A B} (m : MS St A) (k : A -> MS St B) s a s1 :
  m s = (inr a, s1) -> bindM m k s = k a s1.
Proof. intros H. unfold bindM. rewrite H. reflexivity. Qed.

Lemma probe_ok o u c : probe o u c = (inr tt, snd (probe o u c)).
Proof. destruct o as [[a|e|]|]; reflexivity. Qed.

Lemma probe_fail o u c :
  (o = None \/ exists av e, o = Some av /\ withTimeout av = inl e) ->
  snd (probe o u c) = c.
Proof.
  intros [-> | (av & e & -> & He)]; [reflexivity|].
  destruct av; cbn in He |- *; congruence.
Qed.

Lemma probe_pres {T} (f : Capabilities -> T) o u c :
  (forall b st c', f (u b st c') = f c') -> f (snd (probe o u c)) = f c.
Proof. intros Hu. destruct o as [[a|e|]|]; cbn; try reflexivity. apply Hu. Qed.

(** The five probes of the enhanced class, one after the other. *)
Lemma checkCapabilities_enh_eq env :
  let c1 := match lm_avail env with
            | Some _ => set_apiFound caps_init_enh
            | None => caps_init_enh
            end in
  let c2 := snd (probe (lm_avail env) upd_prompt c1) in
  let c3 := snd (probe (writer_avail env) upd_writer c2) in
  let c4 := snd (probe (rewriter_avail env) upd_rewriter c3) in
  let c5 := snd (probe (summarizer_avail env) upd_summarizer c4) in
  let c6 := snd (probe (translator_avail env) upd_translator c5) in
  checkCapabilities_enh env = inr c6.
Proof.
  intros c1 c2 c3 c4 c5 c6. unfold checkCapabilities_enh, try_catch.
  rewrite (bind_ok _ _ _ tt c1) by (unfold c1; destruct (lm_avail env); reflexivity).
  rewrite (bind_ok _ _ _ tt c2) by apply probe_ok.
  rewrite (bind_ok _ _ _ tt c3) by apply probe_ok.
  rewrite (bind_ok _ _ _ tt c4) by apply probe_ok.
  rewrite (bind_ok _ _ _ tt c5) by apply probe_ok.
  rewrite (bind_ok _ _ _ tt c6) by apply probe_ok.
  reflexivity.
Qed.

Ltac probes_pres f :=
  repeat (rewrite (probe_pres f) by reflexivity).

Lemma probe_failed o u c : avail_failed o = true -> snd (probe o u c) = c.
Proof. destruct o as [[a|e|]|]; cbn; try discriminate; reflexivity. Qed.

(** C7 (amended): both [checkCapabilities] methods always resolve with a
    record.  In the enhanced class, [apiFound] tells whether [LanguageModel]
    exists, and for each of the five capability types a missing type or a
    failed or timed-out [availability()] leaves its flag [false] and its
    status key absent (there is no ['not-found'] or ['error'] status).  The
    simple class resolves with [{prompt: false, promptStatus: 'not-found',
    apiFound: false}] when [LanguageModel] is absent, and with [prompt:
    false, promptStatus: 'error'] when its test session cannot be
    created. *)
Theorem checkCapabilities_total env :
  (exists c, checkCapabilities_enh env = inr c /\
     apiFound c = bool_decide (is_Some (lm_avail env)) /\
     (avail_failed (lm_avail env) = true -> cap_prompt c = false /\ promptStatus c = None) /\
     (avail_failed (writer_avail env) = true -> cap_writer c = false /\ writerStatus c = None) /\
     (avail_failed (rewriter_avail env) = true ->
        cap_rewriter c = false /\ rewriterStatus c = None) /\
     (avail_failed (summarizer_avail env) = true ->
        cap_summarizer c = false /\ summarizerStatus c = None) /\
     (avail_failed (translator_avail env) = true ->
        cap_translator c = false /\ translatorStatus c = None)) /\
  (exists c, checkCapabilities_simple env = inr c /\
     apiFound c = bool_decide (is_Some (lm_avail env)) /\
     (lm_avail env = None -> cap_prompt c = false /\ promptStatus c = Some "not-found") /\
     (forall e, lm_avail env <> None -> withTimeout (lm_test_create env) = inl e ->
        cap_prompt c = false /\ promptStatus c = Some "error")).
Proof.
  split.
  - pose proof (checkCapabilities_enh_eq env) as E. cbv zeta in E.
    eexists. split; [exact E|].
    split; [|split; [|split; [|split; [|split]]]].
    + probes_pres apiFound. destruct (lm_avail env); reflexivity.
    + intros Hf. probes_pres cap_prompt. probes_pres promptStatus.
      rewrite !probe_failed by exact Hf.
      destruct (lm_avail env); split; reflexivity.
    + intros Hf. probes_pres cap_writer. probes_pres writerStatus.
      rewrite !probe_failed by exact Hf.
      probes_pres cap_writer. probes_pres writerStatus.
      destruct (lm_avail env); split; reflexivity.
    + intros Hf. probes_pres cap_rewriter. probes_pres rewriterStatus.
      rewrite !probe_failed by exact Hf.
      probes_pres cap_rewriter. probes_pres rewriterStatus.
      destruct (lm_avail env); split; reflexivity.
    + intros Hf. probes_pres cap_summarizer. probes_pres summarizerStatus.
      rewrite !probe_failed by exact Hf.
      probes_pres cap_summarizer. probes_pres summarizerStatus.
      destruct (lm_avail env); split; reflexivity.
    + intros Hf. probes_pres cap_translator. probes_pres translatorStatus.
      rewrite !probe_failed by exact Hf.
      probes_pres cap_translator. probes_pres translatorStatus.
      destruct (lm_avail env); split; reflexivity.
  - destruct env as [[av|] wa ra sa ta tc td]; cbn.
    + destruct tc as [s|m|]; [destruct td|..]; cbn; eexists; (split; [reflexivity|]);
        repeat split; try reflexivity; intros; try discriminate; congruence.
    + eexists. split; [reflexivity|]. repeat split; intros; try reflexivity; congruence.
Qed.

Lemma checkCapabilities_total_witness :
  (exists c, checkCapabilities_simple
               (mkCapEnv None None None None None Hangs false) = inr c /\
     cap_prompt c = false /\ promptStatus c = Some "not-found" /\ apiFound c = false) /\
  (exists c, checkCapabilities_enh
               (mkCapEnv (Some (Resolves "available")) None (Some (Rejects "denied"))
                  (Some (Resolves "downloadable")) (Some Hangs) Hangs false) = inr c /\
     apiFound c = true /\
     cap_writer c = false /\ writerStatus c = None /\
     cap_rewriter c = false /\ rewriterStatus c = None /\
     cap_translator c = false /\ translatorStatus c = None).
Proof.
  split.
  - destruct (proj2 (checkCapabilities_total (mkCapEnv None None None None None Hangs false)))
      as (c & Hc & Ha & Hn & _).
    exists c. split; [exact Hc|].
    destruct (Hn eq_refl) as [H1 H2]. split; [exact H1|]. split; [exact H2|].
    rewrite Ha. reflexivity.
  - destruct (proj1 (checkCapabilities_total
                       (mkCapEnv (Some (Resolves "available")) None (Some (Rejects "denied"))
                          (Some (Resolves "downloadable")) (Some Hangs) Hangs false)))
      as (c & Hc & Ha & _ & Hw & Hr & _ & Ht).
    exists c. split; [exact Hc|]. split; [rewrite Ha; reflexivity|].
    destruct (Hw eq_refl) as [H1 H2]. destruct (Hr eq_refl) as [H3 H4].
    destruct (Ht eq_refl) as [H5 H6].
    repeat split; assumption.
Defined.

(** C7 fails for the enhanced class: with no capability type present it
    resolves with [promptStatus] absent, not ['not-found']; and a timed-out
    [LanguageModel.availability()] leaves no ['error'] status either. *)
Lemma checkCapabilities_total_counterexample :
  checkCapabilities_enh (mkCapEnv None None None None None Hangs false)
    = inr caps_init_enh /\
  promptStatus caps_init_enh = None /\
  exists c, checkCapabilities_enh (mkCapEnv (Some Hangs) None None None None Hangs false)
              = inr c /\ promptStatus c = None /\ apiFound c = true.
Proof.
  split; [reflexivity|]. split; [reflexivity|].
  eexists. split; [reflexivity|]. split; reflexivity.
Qed.

(** ** The per-tab registry *)

Lemma reg_wf_reg0 : reg_wf reg0.
Proof.
  unfold reg_wf, reg0; cbn. split; [|split].
  - intros t1 t2 l H. rewrite lookup_empty in H. discriminate.
  - intros t l H. rewrite lookup_empty in H. discriminate.
  - intros l [m H]. rewrite lookup_empty in H. discriminate.
Qed.

Lemma reg_wf_getOrCreate t r : reg_wf r -> reg_wf (snd (getOrCreateAIManager t r)).
Proof.
  intros (Hinj & Hal & Hlt). unfold getOrCreateAIManager.
  destruct (sessionMap r !! t) as [l|] eqn:Et; [split; [|split]; assumption|].
  unfold reg_wf; cbn. split; [|split].
  - intros t1 t2 l H1 H2.
    destruct (decide (t1 = t)) as [->|N1]; destruct (decide (t2 = t)) as [->|N2]; auto.
    + rewrite lookup_insert_eq in H1. rewrite lookup_insert_ne in H2 by congruence.
      injection H1 as <-. pose proof (Hlt (next_loc r) (Hal _ _ H2)). lia.
    + rewrite lookup_insert_eq in H2. rewrite lookup_insert_ne in H1 by congruence.
      injection H2 as <-. pose proof (Hlt (next_loc r) (Hal _ _ H1)). lia.
    + rewrite lookup_insert_ne in H1, H2 by congruence. exact (Hinj _ _ _ H1 H2).
  - intros t1 l H1. destruct (decide (t1 = t)) as [->|N1].
    + rewrite lookup_insert_eq in H1. injection H1 as <-. rewrite lookup_insert_eq. eauto.
    + rewrite lookup_insert_ne in H1 by congruence.
      destruct (decide (l = next_loc r)) as [->|Nl]; [rewrite lookup_insert_eq; eauto|].
      rewrite lookup_insert_ne by congruence. exact (Hal _ _ H1).
  - intros l Hl. destruct (decide (l = next_loc r)) as [->|Nl]; [lia|].
    rewrite lookup_insert_ne in Hl by congruence. pose proof (Hlt l Hl). lia.
Qed.

Lemma reg_wf_onRemoved dt t r : reg_wf r -> reg_wf (snd (onRemoved dt t r)).
Proof.
  intros (Hinj & Hal & Hlt). unfold onRemoved.
  destruct (sessionMap r !! t) as [l|] eqn:Et; [|split; [|split]; assumption].
  destruct (heap r !! l) as [m|] eqn:Eh; [|split; [|split]; assumption].
  destruct (cleanup dt (mkWorld m [])) as [res w].
  assert (Hal' : forall t1 l1, sessionMap r !! t1 = Some l1 ->
            is_Some (<[l := mgr w]> (heap r) !! l1)).
  { intros t1 l1 H1. destruct (decide (l1 = l)) as [->|N]; [rewrite lookup_insert_eq; eauto|].
    rewrite lookup_insert_ne by congruence. exact (Hal _ _ H1). }
  assert (Hlt' : forall l1, is_Some (<[l := mgr w]> (heap r) !! l1) -> l1 < next_loc r).
  { intros l1 H1. destruct (decide (l1 = l)) as [->|N]; [apply Hlt; rewrite Eh; eauto|].
    rewrite lookup_insert_ne in H1 by congruence. exact (Hlt _ H1). }
  destruct res as [e|u]; unfold reg_wf; cbn; split; try split; try assumption.
  - intros t1 t2 l1 H1 H2.
    destruct (decide (t1 = t)) as [->|N1]; [rewrite lookup_delete_eq in H1; discriminate|].
    destruct (decide (t2 = t)) as [->|N2]; [rewrite lookup_delete_eq in H2; discriminate|].
    rewrite lookup_delete_ne in H1, H2 by congruence. exact (Hinj _ _ _ H1 H2).
  - intros t1 l1 H1.
    destruct (decide (t1 = t)) as [->|N1]; [rewrite lookup_delete_eq in H1; discriminate|].
    rewrite lookup_delete_ne in H1 by congruence. exact (Hal' _ _ H1).
Qed.

Lemma reg_wf_run_on l f r : reg_wf r -> reg_wf (run_on l f r).
Proof.
  intros (Hinj & Hal & Hlt). unfold run_on.
  destruct (heap r !! l) as [m|] eqn:Eh; [|split; [|split]; assumption].
  unfold reg_wf; cbn. split; [exact Hinj|]. split.
  - intros t1 l1 H1. destruct (decide (l1 = l)) as [->|N]; [rewrite lookup_insert_eq; eauto|].
    rewrite lookup_insert_ne by congruence. exact (Hal _ _ H1).
  - intros l1 H1. destruct (decide (l1 = l)) as [->|N]; [apply Hlt; rewrite Eh; eauto|].
    rewrite lookup_insert_ne in H1 by congruence. exact (Hlt _ H1).
Qed.

Lemma reg_wf_step e r : reg_wf r -> reg_wf (reg_step e r).
Proof.
  intros H. destruct e as [req tab | dt t | l f]; cbn.
  - unfold handleMessageAsync. destruct (tab_context tab) as [t|]; [|exact H].
    pose proof (reg_wf_getOrCreate t r H) as H'.
    destruct (getOrCreateAIManager t r) as [l r1]. exact H'.
  - apply reg_wf_onRemoved, H.
  - apply reg_wf_run_on, H.
Qed.

Lemma reg_wf_run evs r : reg_wf r -> reg_wf (reg_run evs r).
Proof.
  revert r. induction evs as [|e evs IH]; intros r H; [exact H|].
  apply IH, reg_wf_step, H.
Qed.

Lemma onRemoved_other dt t t' l' r :
  reg_wf r -> t <> t' -> sessionMap r !! t' = Some l' ->
  sessionMap (snd (onRemoved dt t r)) !! t' = Some l' /\
  heap (snd (onRemoved dt t r)) !! l' = heap r !! l'.
Proof.
  intros (Hinj & _ & _) Ht Hl'. unfold onRemoved.
  destruct (sessionMap r !! t) as [l|] eqn:Et; [|split; [exact Hl' | reflexivity]].
  destruct (heap r !! l) as [m|] eqn:Eh; [|split; [exact Hl' | reflexivity]].
  assert (l <> l') by (intros <-; apply Ht, (Hinj _ _ _ Et Hl')).
  destruct (cleanup dt (mkWorld m [])) as [[e|u] w]; cbn.
  - split; [exact Hl'|]. rewrite lookup_insert_ne by congruence. reflexivity.
  - rewrite lookup_delete_ne by congruence.
    split; [exact Hl'|]. rewrite lookup_insert_ne by congruence. reflexivity.
Qed.

Lemma run_on_other l f l' r :
  l <> l' -> sessionMap (run_on l f r) = sessionMap r /\ heap (run_on l f r) !! l' = heap r !! l'.
Proof.
  intros N. unfold run_on. destruct (heap r !! l); [|split; reflexivity].
  cbn. split; [reflexivity|]. rewrite lookup_insert_ne by congruence. reflexivity.
Qed.

Lemma handleMessage_other req tab t' l' r :
  reg_wf r -> tab_context tab <> Some t' -> sessionMap r !! t' = Some l' ->
  sessionMap (snd (handleMessageAsync req tab r)) !! t' = Some l' /\
  heap (snd (handleMessageAsync req tab r)) !! l' = heap r !! l'.
Proof.
  intros (_ & Hal & Hlt) Ht Hl'. unfold handleMessageAsync.
  destruct (tab_context tab) as [t|]; [|split; [exact Hl' | reflexivity]].
  unfold getOrCreateAIManager.
  destruct (sessionMap r !! t) as [l|] eqn:Et; [split; [exact Hl' | reflexivity]|].
  cbn. pose proof (Hlt l' (Hal _ _ Hl')).
  rewrite lookup_insert_ne by congruence. split; [exact Hl'|].
  rewrite lookup_insert_ne by lia. reflexivity.
Qed.

(** C8: in every registry reached from the empty one by messages, tab
    closings and steps of running operations, a tab is mapped to one
    manager object and distinct tabs to distinct objects; closing a tab,
    a message from another context, and an operation of another manager
    leave every other tab's entry and manager object unchanged. *)
Theorem registry_isolation evs :
  let r := reg_run evs reg0 in
  (forall t1 t2 l, sessionMap r !! t1 = Some l -> sessionMap r !! t2 = Some l -> t1 = t2) /\
  (forall t l, sessionMap r !! t = Some l -> is_Some (heap r !! l)) /\
  (forall dt t t' l', t <> t' -> sessionMap r !! t' = Some l' ->
     sessionMap (snd (onRemoved dt t r)) !! t' = Some l' /\
     heap (snd (onRemoved dt t r)) !! l' = heap r !! l') /\
  (forall req tab t' l', tab_context tab <> Some t' -> sessionMap r !! t' = Some l' ->
     sessionMap (snd (handleMessageAsync req tab r)) !! t' = Some l' /\
     heap (snd (handleMessageAsync req tab r)) !! l' = heap r !! l') /\
  (forall l f l', l <> l' ->
     sessionMap (run_on l f r) = sessionMap r /\ heap (run_on l f r) !! l' = heap r !! l').
Proof.
  intros r. pose proof (reg_wf_run evs reg0 reg_wf_reg0) as W. fold r in W.
  pose proof W as (Hinj & Hal & Hlt).
  split; [exact Hinj|]. split; [exact Hal|]. split; [|split].
  - intros dt t t' l' Ht Hl'. apply onRemoved_other; assumption.
  - intros req tab t' l' Ht Hl'. apply handleMessage_other; assumption.
  - intros l f l' N. apply run_on_other, N.
Qed.

Lemma registry_isolation_witness :
  let evs := [RMessage (mkRequest "reviewCode" (Some "const answer = 42;") None None None None) (Some 1);
              RMessage (mkRequest "reviewCode" (Some "let y = x + 1;") None None None None) (Some 2)] in
  let r := reg_run evs reg0 in
  sessionMap r !! 2 = Some 1 /\
  sessionMap (snd (onRemoved (fun _ => false) 1 r)) !! 2 = Some 1 /\
  heap (snd (onRemoved (fun _ => false) 1 r)) !! 1 = heap r !! 1.
Proof.
  intros evs r.
  destruct (registry_isolation evs) as (_ & _ & H & _).
  split; [vm_compute; reflexivity|].
  apply H; [lia | vm_compute; reflexivity].
Defined.

(** ** Idempotent, tolerant destruction *)

Lemma simple_drop_spec dt w :
  fst (simple_drop dt w) = inr tt /\ session (snd (simple_drop dt w)) = None.
Proof.
  destruct w as [[s|] l]; unfold simple_drop, bindM, get, try_catch, sdestroy, semit,
    set_simple_session, throw, ret; cbn; [destruct (dt s)|]; split; reflexivity.
Qed.

Lemma onRemoved_gone dt t r :
  sessionMap r !! t = None -> onRemoved dt t r = (inr tt, r).
Proof. intros H. unfold onRemoved. rewrite H. reflexivity. Qed.

(** C9: [cleanup()] of either class never throws, whatever [destroy()]
    does ([dt] says which sessions' [destroy] throws), and a second
    [cleanup()] changes nothing and calls no [destroy]; the clean-up of one
    prompt session in [reviewCode] never throws either.  The
    [tabs.onRemoved] listener never throws, is a no-op for a tab without a
    manager, and a second close of the same tab is a no-op. *)
Theorem cleanup_idempotent :
  (forall dt w, fst (cleanup dt w) = inr tt) /\
  (forall dt dt' w, cleanup dt' (snd (cleanup dt w)) = (inr tt, snd (cleanup dt w))) /\
  (forall dt k w, fst (cleanup_slot dt k w) = inr tt) /\
  (forall dt w, fst (simple_drop dt w) = inr tt) /\
  (forall dt dt' w, simple_drop dt' (snd (simple_drop dt w)) = (inr tt, snd (simple_drop dt w))) /\
  (forall dt t r, fst (onRemoved dt t r) = inr tt) /\
  (forall dt t r, sessionMap r !! t = None -> onRemoved dt t r = (inr tt, r)) /\
  (forall dt dt' t r,
     onRemoved dt' t (snd (onRemoved dt t r)) = (inr tt, snd (onRemoved dt t r))).
Proof.
  assert (C : forall dt w, fst (cleanup dt w) = inr tt /\ cleaned (mgr (snd (cleanup dt w)))).
  { intros dt w. pose proof (cleanup_spec dt w) as S.
    destruct (cleanup dt w) as [r w']. destruct S as (-> & Hc & _). split; [reflexivity | exact Hc]. }
  assert (R : forall t r,
             (forall dt, onRemoved dt t r = (inr tt, r)) \/
             (forall dt, fst (onRemoved dt t r) = inr tt /\
                         sessionMap (snd (onRemoved dt t r)) !! t = None)).
  { intros t r. unfold onRemoved.
    destruct (sessionMap r !! t) as [l|] eqn:Et; [|left; reflexivity].
    destruct (heap r !! l) as [m|] eqn:Eh; [|left; reflexivity].
    right. intros dt.
    destruct (C dt (mkWorld m [])) as [Cr _].
    destruct (cleanup dt (mkWorld m [])) as [[e|u] w]; cbn in Cr; [discriminate|].
    cbn. split; [reflexivity|]. apply lookup_delete_eq. }
  split; [|split; [|split; [|split; [|split; [|split; [|split]]]]]].
  - intros dt w. apply C.
  - intros dt dt' w. apply cleanup_clean, C.
  - intros dt k w. pose proof (cleanup_slot_spec dt k w) as S.
    destruct (cleanup_slot dt k w) as [r w']. destruct S as [-> _]. reflexivity.
  - intros dt w. apply simple_drop_spec.
  - intros dt dt' w. destruct (simple_drop_spec dt w) as [_ Hn].
    destruct (simple_drop dt w) as [r [s l]]. cbn in Hn |- *. subst s. reflexivity.
  - intros dt t r. destruct (R t r) as [E | E]; [rewrite E; reflexivity | apply E].
  - intros dt t r H. apply onRemoved_gone, H.
  - intros dt dt' t r. destruct (R t r) as [E | E].
    + rewrite !E. reflexivity.
    + apply onRemoved_gone, E.
Qed.

Lemma cleanup_idempotent_witness :
  onRemoved (fun _ => true) 5 reg0 = (inr tt, reg0) /\
  cleanup (fun _ => true) (snd (cleanup (fun _ => true) (snd (settle 0 (env_ok 7)
    (mkWorld (snd (initSession KPrompt new_AIManager)) [])))))
  = (inr tt, snd (cleanup (fun _ => true) (snd (settle 0 (env_ok 7)
    (mkWorld (snd (initSession KPrompt new_AIManager)) []))))).
Proof.
  split.
  - apply (proj1 (proj2 (proj2 (proj2 (proj2 (proj2 (proj2 cleanup_idempotent))))))).
    vm_compute. reflexivity.
  - apply (proj1 (proj2 cleanup_idempotent)).
Defined.


(* ================================================================== *)
(** * Further properties of the code *)

(** ** The AI managers and the background registry *)

(** [initPromptSession] (and the other [init*Session] methods of the enhanced class) memoise: when no creation is in flight and a call returns a Session, that Session is kept in [sessions] with no pending entry, and a second call returns the same Session with no create() call and no change of state, whatever the environment would answer. *)
Theorem initSession_seq_memoises k ce ce' w s w1 :
  initializationPromises (mgr w) k = None ->
  initSession_seq k ce w = (inr s, w1) ->
  sessions (mgr w1) k = Some s /\ initializationPromises (mgr w1) k = None /\
  initSession_seq k ce' w1 = (inr s, w1).
Proof.
  intros Hi. unfold initSession_seq at 1, initSession. rewrite Hi.
  destruct (sessions (mgr w) k) as [s0|] eqn:Es.
  - intros H. injection H as <- <-. cbn. split; [exact Es|]. split; [exact Hi|].
    unfold initSession_seq, initSession. cbn. rewrite Hi, Es. reflexivity.
  - unfold start_creation, settle. cbn. rewrite Nat.eqb_refl.
    destruct (_createSession k ce _) as [[e|s1] w2]; intros H; [discriminate|].
    injection H as <- <-.
    cbn. rewrite !upd_eq. split; [reflexivity|]. split; [reflexivity|].
    unfold initSession_seq, initSession. cbn. rewrite !upd_eq. reflexivity.
Qed.

Lemma initSession_seq_memoises_witness :
  initSession_seq KPrompt (env_ok 7) world0 = (inr 7, snd (initSession_seq KPrompt (env_ok 7) world0)) /\
  initSession_seq KPrompt env_timeout (snd (initSession_seq KPrompt (env_ok 7) world0))
  = (inr 7, snd (initSession_seq KPrompt (env_ok 7) world0)).
Proof.
  split; [reflexivity|].
  apply (initSession_seq_memoises KPrompt (env_ok 7) env_timeout world0 7); reflexivity.
Defined.

(** [initTranslatorSession] caches per language pair: once a call returns a Translator for a pair, [translatorSessions] maps that pair to it, the entries of the other pairs are unchanged, and a second call for the pair returns it with no effect. *)
Theorem initTranslatorSession_seq_caches key ce ce' w t w1 :
  initTranslatorSession_seq key ce w = (inr t, w1) ->
  map_get key (translatorSessions (mgr w1)) = Some t /\
  (forall key', key' <> key ->
     map_get key' (translatorSessions (mgr w1)) = map_get key' (translatorSessions (mgr w))) /\
  initTranslatorSession_seq key ce' w1 = (inr t, w1).
Proof.
  unfold initTranslatorSession_seq at 1, initTranslatorSession.
  destruct (map_get key (translatorSessions (mgr w))) as [t0|] eqn:Eg.
  - intros H. injection H as <- <-. cbn. split; [exact Eg|]. split; [reflexivity|].
    unfold initTranslatorSession_seq, initTranslatorSession. cbn. rewrite Eg. reflexivity.
  - unfold settleT. cbn. rewrite Nat.eqb_refl.
    unfold _createTranslator, try_catch, bindM, lift, emit, throw, modify_mgr, ret.
    case_create ce; intros H; try discriminate. injection H as <- <-. cbn.
    split; [apply map_get_set_eq|]. split; [intros key' N; apply map_get_set_ne, N|].
    unfold initTranslatorSession_seq, initTranslatorSession. cbn.
    rewrite map_get_set_eq. reflexivity.
Qed.

Lemma initTranslatorSession_seq_caches_witness :
  let w1 := snd (initTranslatorSession_seq ("en", "es") (env_ok 5) world0) in
  initTranslatorSession_seq ("en", "es") (env_ok 5) world0 = (inr 5, w1) /\
  initTranslatorSession_seq ("en", "es") env_unavailable w1 = (inr 5, w1).
Proof.
  intros w1. split; [reflexivity|].
  apply (initTranslatorSession_seq_caches ("en", "es") (env_ok 5) env_unavailable world0 5 w1).
  reflexivity.
Defined.

Lemma try_rethrow {St A} (c : MS St A) w : try_catch c (fun e => throw e) w = c w.
Proof. unfold try_catch, throw. destruct (c w) as [[e|a] w']; reflexivity. Qed.

Lemma simple_prompt_spec dt env text w :
  (forall s, session w = Some s ->
     simple_prompt dt env text w = (withTimeout (op_answer env s text), w)) /\
  (session w = None ->
     let (r, w1) := simple_prompt dt env text w in
     (session w1 = None /\ exists e, r = inl ("Failed to create session: " ++ e)%string) \/
     (exists s, session w1 = Some s /\ slog w1 = slog w ++ [ECreate KPrompt] /\
                r = withTimeout (op_answer env s text))).
Proof.
  destruct w as [o l]. cbn. split.
  - intros s ->. reflexivity.
  - intros ->. unfold simple_prompt, createSession, simple_drop, bindM, get, ret,
      try_catch, throw, semit, set_simple_session, lift. cbn.
    destruct (api_present (op_create env)); cbn.
    + destruct (create_res (op_create env)) as [s| e |]; cbn.
      * right. exists s. repeat split.
      * left. split; [reflexivity|]. eexists; reflexivity.
      * left. split; [reflexivity|]. eexists; reflexivity.
    + left. split; [reflexivity|]. eexists; reflexivity.
Qed.

(** [generateDocumentation] and [refactorCode] of the simple class answer from the memoised session when there is one, without creating another; with none, they either fail with 'Failed to create session: ...' and still have no session, or create exactly one session, keep it, and answer from it. *)
Theorem simple_ops_session_reuse dt env code w :
  (forall s, session w = Some s ->
     generateDocumentation_simple dt env code w
     = (withTimeout (op_answer env s (docPrompt_simple code)), w) /\
     refactorCode_simple dt env code w
     = (withTimeout (op_answer env s (refactorPrompt_simple code)), w)) /\
  (session w = None ->
     let (r, w1) := generateDocumentation_simple dt env code w in
     (session w1 = None /\ exists e, r = inl ("Failed to create session: " ++ e)%string) \/
     (exists s, session w1 = Some s /\ slog w1 = slog w ++ [ECreate KPrompt] /\
                r = withTimeout (op_answer env s (docPrompt_simple code)))) /\
  (session w = None ->
     let (r, w1) := refactorCode_simple dt env code w in
     (session w1 = None /\ exists e, r = inl ("Failed to create session: " ++ e)%string) \/
     (exists s, session w1 = Some s /\ slog w1 = slog w ++ [ECreate KPrompt] /\
                r = withTimeout (op_answer env s (refactorPrompt_simple code)))).
Proof.
  unfold generateDocumentation_simple, refactorCode_simple. rewrite !try_rethrow.
  split; [|split].
  - intros s Hs. split; apply simple_prompt_spec, Hs.
  - apply simple_prompt_spec.
  - apply simple_prompt_spec.
Qed.

Section RetryFailure.
Context {St A B : Type}.
Variable emit_ev : effect -> MS St unit.
Variable body : nat -> MS St A.
Variable on_fail : MS St unit.
Variable finish : A -> nat -> B.
Variable maxRetries : nat.
Variable delay : nat -> nat.
Variable fail_msg : string -> string.
Hypothesis emit_ok : forall e s, fst (emit_ev e s) = inr tt.
Hypothesis on_fail_ok : forall s, fst (on_fail s) = inr tt.

Lemma retry_loop_fail fuel : forall attempt lastError s e s',
  attempt + fuel = S maxRetries -> 1 <= fuel ->
  retry_loop emit_ev body on_fail finish maxRetries delay fail_msg
    attempt fuel lastError s = (inl e, s') ->
  exists s1 s2 e', body maxRetries s1 = (inl e', s2) /\ e = fail_msg e' /\
                   s' = snd (on_fail s2).
Proof.
  induction fuel as [|f IH]; intros attempt lastError s e s' Hsum Hf R; [lia|].
  simpl in R. unfold bindM at 1 in R.
  pose proof (emit_ok (EAttempt attempt) s) as E1.
  destruct (emit_ev (EAttempt attempt) s) as [r1 s1]. cbn in E1. subst r1.
  unfold try_catch, bindM at 1 in R.
  destruct (body attempt s1) as [[e1|a] s2] eqn:Hb; [|unfold ret in R; discriminate].
  unfold bindM at 1 in R.
  pose proof (on_fail_ok s2) as E3.
  destruct (on_fail s2) as [r3 s3] eqn:Ho. cbn in E3. subst r3.
  destruct (Nat.eqb attempt maxRetries) eqn:Heq;
    [apply Nat.eqb_eq in Heq | apply Nat.eqb_neq in Heq].
  - unfold throw in R. injection R as <- <-. subst attempt.
    exists s1, s2, e1. rewrite Ho. repeat split; assumption.
  - unfold bindM at 1 in R.
    pose proof (emit_ok (EDelay (delay attempt)) s3) as E4.
    destruct (emit_ev (EDelay (delay attempt)) s3) as [r4 s4]. cbn in E4. subst r4.
    destruct f as [|f']; [lia|].
    exact (IH (S attempt) e1 s4 e s' ltac:(lia) ltac:(lia) R).
Qed.
End RetryFailure.

(** When the enhanced [reviewCode] fails, no prompt Session is memoised afterwards, and the error is 'Review failed after 3 attempts: ' followed by the error of the third attempt. *)
Theorem reviewCode_failure_clears_prompt dt env language code w e w' :
  reviewCode dt env language code w = (inl e, w') ->
  sessions (mgr w') KPrompt = None /\
  exists s1 s2 e', reviewCode_body env language code 2 s1 = (inl e', s2) /\
                   e = ("Review failed after 3 attempts: " ++ e')%string.
Proof.
  intros R. unfold reviewCode, retry in R.
  destruct (retry_loop_fail emit (reviewCode_body env language code) (cleanup_slot dt KPrompt)
              mkOperationResult 2 (fun attempt => 1000 * (attempt + 1))
              (fun e => "Review failed after 3 attempts: " ++ e)%string
              (fun e s => eq_refl)
              (fun s => ltac:(pose proof (cleanup_slot_spec dt KPrompt s) as S;
                              destruct (cleanup_slot dt KPrompt s) as [r s'];
                              destruct S as [-> _]; reflexivity))
              3 0 EmptyString w e w' eq_refl ltac:(lia) R) as (s1 & s2 & e' & Hb & He & Hs).
  split.
  - subst w'. pose proof (cleanup_slot_spec dt KPrompt s2) as S.
    destruct (cleanup_slot dt KPrompt s2) as [r s3]. destruct S as (_ & S & _).
    cbn. rewrite S. apply upd_eq.
  - exists s1, s2, e'. split; assumption.
Qed.

(** When the simple [reviewCode] fails, no session is memoised afterwards, and the error is 'Review failed: ' followed by the error of the second attempt and '. Try with shorter code.'. *)
Theorem reviewCode_simple_failure_clears dt env code w e w' :
  reviewCode_simple dt env code w = (inl e, w') ->
  session w' = None /\
  exists s1 s2 e', reviewCode_simple_body dt env code 1 s1 = (inl e', s2) /\
                   e = ("Review failed: " ++ e' ++ ". Try with shorter code.")%string.
Proof.
  intros R. unfold reviewCode_simple, retry in R.
  destruct (retry_loop_fail semit (reviewCode_simple_body dt env code) (simple_drop dt)
              mkOperationResult 1 (fun _ => 3000)
              (fun e => "Review failed: " ++ e ++ ". Try with shorter code.")%string
              (fun e s => eq_refl) (fun s => proj1 (simple_drop_spec dt s))
              2 0 EmptyString w e w' eq_refl ltac:(lia) R) as (s1 & s2 & e' & Hb & He & Hs).
  split.
  - subst w'. apply simple_drop_spec.
  - exists s1, s2, e'. split; assumption.
Qed.

Lemma reviewCode_failure_clears_prompt_witness :
  let env := mkReviewEnv (fun _ => env_ok 7) (fun _ _ _ => Hangs) in
  let w' := snd (reviewCode (fun _ => false) env None "let x = 1;" world0) in
  reviewCode (fun _ => false) env None "let x = 1;" world0
  = (inl "Review failed after 3 attempts: Operation timed out", w') /\
  sessions (mgr w') KPrompt = None.
Proof.
  intros env w'. split; [vm_compute; reflexivity|].
  apply (reviewCode_failure_clears_prompt (fun _ => false) env None "let x = 1;" world0
           "Review failed after 3 attempts: Operation timed out" w').
  vm_compute; reflexivity.
Defined.

Lemma reviewCode_simple_failure_clears_witness :
  let env := mkReviewEnv (fun _ => env_ok 7) (fun _ _ _ => Hangs) in
  let w' := snd (reviewCode_simple (fun _ => false) env "let x = 1;" (mkSimpleWorld None [])) in
  reviewCode_simple (fun _ => false) env "let x = 1;" (mkSimpleWorld None [])
  = (inl "Review failed: Operation timed out. Try with shorter code.", w') /\
  session w' = None.
Proof.
  intros env w'. split; [vm_compute; reflexivity|].
  apply (reviewCode_simple_failure_clears (fun _ => false) env "let x = 1;" (mkSimpleWorld None [])
           "Review failed: Operation timed out. Try with shorter code." w').
  vm_compute; reflexivity.
Defined.

Lemma rwb_loop {A} (fn_out : nat -> Exc A) mr d msg : forall fuel attempt lastError l,
  attempt + fuel = S mr ->
  (forall a, fst (retry_loop lemit (fun a => lift (fn_out a)) (ret tt) (fun r _ => r) mr d msg
                    attempt fuel lastError l) = inr a ->
     exists k, attempt <= k <= mr /\ fn_out k = inr a /\
               forall j, attempt <= j < k -> exists e, fn_out j = inl e) /\
  (forall e, fst (retry_loop lemit (fun a => lift (fn_out a)) (ret tt) (fun r _ => r) mr d msg
                    attempt fuel lastError l) = inl e -> 1 <= fuel ->
     exists e', fn_out mr = inl e' /\ e = msg e' /\
                forall j, attempt <= j <= mr -> exists e0, fn_out j = inl e0).
Proof.
  induction fuel as [|f IH]; intros attempt lastError l Hsum.
  - split; [intros a H; discriminate | intros e _ H; lia].
  - cbn [retry_loop]. unfold bindM at 1, lemit. unfold try_catch, bindM at 1, lift.
    destruct (fn_out attempt) as [e1|a1] eqn:Ef.
    + unfold bindM at 1, ret.
      destruct (Nat.eqb attempt mr) eqn:Heq;
        [apply Nat.eqb_eq in Heq | apply Nat.eqb_neq in Heq].
      * unfold throw. cbn. split; [intros a H; discriminate|].
        intros e H _. injection H as <-. subst attempt. exists e1.
        split; [exact Ef|]. split; [reflexivity|].
        intros j Hj. assert (j = mr) as -> by lia. eauto.
      * unfold bindM at 1. cbn.
        destruct (IH (S attempt) e1 ((l ++ [EAttempt attempt]) ++ [EDelay (d attempt)])
                    ltac:(lia)) as [IH1 IH2].
        split.
        -- intros a H. destruct (IH1 a H) as (k & Hk & Hka & Hj).
           exists k. split; [lia|]. split; [exact Hka|].
           intros j Hj'. destruct (Nat.eq_dec j attempt) as [->|N]; [eauto|].
           apply Hj. lia.
        -- intros e H _. destruct f as [|f']; [lia|].
           destruct (IH2 e H ltac:(lia)) as (e' & He' & Hm & Hj).
           exists e'. split; [exact He'|]. split; [exact Hm|].
           intros j Hj'. destruct (Nat.eq_dec j attempt) as [->|N]; [eauto|].
           apply Hj. lia.
    + cbn. split.
      * intros a H. injection H as <-. exists attempt. split; [lia|].
        split; [exact Ef|]. intros j Hj. lia.
      * intros e H. discriminate.
Qed.

(** [retryWithBackoff] resolves with the value of the first successful call among the first maxRetries + 1 calls, and rejects exactly when all of them fail, with 'Failed after (maxRetries + 1) attempts: ' followed by the last error. *)
Theorem retryWithBackoff_outcome {A} (fn_out : nat -> Exc A) maxRetries baseDelay l :
  (forall a, fst (retryWithBackoff fn_out maxRetries baseDelay l) = inr a <->
     exists k, k <= maxRetries /\ fn_out k = inr a /\
               forall j, j < k -> exists e, fn_out j = inl e) /\
  (forall e, fst (retryWithBackoff fn_out maxRetries baseDelay l) = inl e <->
     (forall j, j <= maxRetries -> exists e0, fn_out j = inl e0) /\
     exists e', fn_out maxRetries = inl e' /\
       e = ("Failed after " ++ NilEmpty.string_of_uint (Nat.to_uint (maxRetries + 1))
            ++ " attempts: " ++ e')%string).
Proof.
  unfold retryWithBackoff, retry.
  set (msg := fun e => ("Failed after " ++ NilEmpty.string_of_uint (Nat.to_uint (maxRetries + 1))
                        ++ " attempts: " ++ e)%string).
  set (R := fst (retry_loop lemit (fun a => lift (fn_out a)) (ret tt) (fun r _ => r) maxRetries
                   (fun attempt => baseDelay * 2 ^ attempt) msg 0 (S maxRetries) EmptyString l)).
  destruct (rwb_loop fn_out maxRetries (fun attempt => baseDelay * 2 ^ attempt) msg
              (S maxRetries) 0 EmptyString l eq_refl) as [Ok Ko].
  fold R in Ok, Ko.
  split.
  - intros a. split.
    + intros H. destruct (Ok a H) as (k & Hk & Ha & Hj). exists k.
      split; [lia|]. split; [exact Ha|]. intros j Hj'. apply Hj. lia.
    + intros (k & Hk & Ha & Hj). destruct R as [e|a'] eqn:ER.
      * destruct (Ko e eq_refl ltac:(lia)) as (? & ? & ? & Hall).
        destruct (Hall k ltac:(lia)) as [e0 He0]. congruence.
      * destruct (Ok a' eq_refl) as (k' & Hk' & Ha' & Hj').
        destruct (Nat.lt_trichotomy k k') as [Lt | [-> | Gt]].
        -- destruct (Hj' k ltac:(lia)) as [e0 He0]. congruence.
        -- congruence.
        -- destruct (Hj k' Gt) as [e0 He0]. congruence.
  - intros e. split.
    + intros H. destruct (Ko e H ltac:(lia)) as (e' & He' & Hm & Hall).
      split; [intros j Hj; apply Hall; lia|]. exists e'. split; [exact He' | exact Hm].
    + intros (Hall & e' & He' & Hm). destruct R as [e1|a'] eqn:ER.
      * destruct (Ko e1 eq_refl ltac:(lia)) as (e2 & He2 & Hm2 & _).
        rewrite He' in He2. injection He2 as E2. unfold msg in Hm2. congruence.
      * destruct (Ok a' eq_refl) as (k' & Hk' & Ha' & _).
        destruct (Hall k' ltac:(lia)) as [e0 He0]. congruence.
Qed.

(** [getOrCreateAIManager] maps the tab to the manager it returns, a second call returns the same manager with no change, an existing entry is returned untouched, and for a new tab the manager is a fresh object, no other tab or object changes, and the registry stays well formed. *)
Theorem getOrCreateAIManager_memo t r :
  let (l, r1) := getOrCreateAIManager t r in
  sessionMap r1 !! t = Some l /\
  getOrCreateAIManager t r1 = (l, r1) /\
  (forall l0, sessionMap r !! t = Some l0 -> l = l0 /\ r1 = r) /\
  (sessionMap r !! t = None -> reg_wf r ->
     heap r !! l = None /\ heap r1 !! l = Some new_AIManager /\
     (forall t', t' <> t -> sessionMap r1 !! t' = sessionMap r !! t') /\
     (forall l', l' <> l -> heap r1 !! l' = heap r !! l') /\
     reg_wf r1).
Proof.
  pose proof (reg_wf_getOrCreate t r) as Wf.
  unfold getOrCreateAIManager in *.
  destruct (sessionMap r !! t) as [l|] eqn:Et.
  - split; [exact Et|]. split; [rewrite Et; reflexivity|].
    split; [intros l0 H; injection H as ->; split; reflexivity|].
    intros H. discriminate.
  - cbn. split; [apply lookup_insert_eq|]. split; [rewrite lookup_insert_eq; reflexivity|].
    split; [intros l0 H; discriminate|].
    intros _ W. split; [|split; [apply lookup_insert_eq|split; [|split]]].
    + destruct W as (_ & _ & Hlt). destruct (heap r !! next_loc r) eqn:Eh; [|reflexivity].
      exfalso. pose proof (Hlt (next_loc r) ltac:(rewrite Eh; eauto)). lia.
    + intros t' N. apply lookup_insert_ne. congruence.
    + intros l' N. apply lookup_insert_ne. congruence.
    + exact (Wf W).
Qed.

(** A message with no tab or from tab 0 (a falsy id) is handled without a tab manager and leaves the registry unchanged, so openSidePanel then fails with 'No tab ID available'; a message from a tab n+1 leaves that tab mapped to the manager that handled it. *)
Theorem handleMessage_global_context req r n :
  handleMessageAsync req (Some 0) r = (None, dispatch req false, r) /\
  handleMessageAsync req None r = (None, dispatch req false, r) /\
  (action req = "openSidePanel" ->
     dispatch req false = inl "No tab ID available" /\ dispatch req true = inr COpenSidePanel) /\
  (let '(ol, _, r1) := handleMessageAsync req (Some (S n)) r in
   exists l, ol = Some l /\ sessionMap r1 !! S n = Some l).
Proof.
  split; [reflexivity|]. split; [reflexivity|]. split.
  - intros Ha. unfold dispatch. rewrite Ha. cbn. split; reflexivity.
  - unfold handleMessageAsync, tab_context, getOrCreateAIManager.
    destruct (sessionMap r !! S n) as [l|] eqn:E; cbn.
    + exists l. split; [reflexivity | exact E].
    + exists (next_loc r). split; [reflexivity | apply lookup_insert_eq].
Qed.

Lemma onRemoved_wf_spec dt t r :
  reg_wf r ->
  fst (onRemoved dt t r) = inr tt /\
  (forall t', t' <> t -> sessionMap (snd (onRemoved dt t r)) !! t' = sessionMap r !! t') /\
  sessionMap (snd (onRemoved dt t r)) !! t = None /\
  (forall l, (forall t', sessionMap r !! t' = Some l -> t' <> t) ->
     heap (snd (onRemoved dt t r)) !! l = heap r !! l) /\
  (forall l, sessionMap r !! t = Some l ->
     exists m', heap (snd (onRemoved dt t r)) !! l = Some m' /\ cleaned m').
Proof.
  intros (Hinj & Hal & Hlt). unfold onRemoved.
  destruct (sessionMap r !! t) as [l|] eqn:Et.
  2:{ cbn. split; [reflexivity|]. split; [reflexivity|]. split; [exact Et|].
      split; [reflexivity|]. intros l H; discriminate. }
  destruct (Hal t l Et) as [m Eh]. rewrite Eh.
  pose proof (cleanup_spec dt (mkWorld m [])) as S.
  destruct (cleanup dt (mkWorld m [])) as [res w]. destruct S as (-> & Hc & _). cbn.
  split; [reflexivity|]. split; [intros t' N; apply lookup_delete_ne; congruence|].
  split; [apply lookup_delete_eq|]. split.
  - intros l' H. destruct (decide (l' = l)) as [->|N]; [exfalso; exact (H t Et eq_refl)|].
    apply lookup_insert_ne. congruence.
  - intros l' H. injection H as <-. exists (mgr w).
    split; [apply lookup_insert_eq | exact Hc].
Qed.

Lemma sweep_spec dt active order : forall r,
  reg_wf r ->
  let (res, r') := sweep dt active order r in
  res = inr tt /\ reg_wf r' /\
  (forall t, In t order -> ~ In t active -> sessionMap r' !! t = None) /\
  (forall t, ~ (In t order /\ ~ In t active) -> sessionMap r' !! t = sessionMap r !! t) /\
  (forall l, (forall t, sessionMap r !! t = Some l -> ~ (In t order /\ ~ In t active)) ->
     heap r' !! l = heap r !! l) /\
  (forall t l, In t order -> ~ In t active -> sessionMap r !! t = Some l ->
     exists m', heap r' !! l = Some m' /\ cleaned m').
Proof.
  induction order as [|t order IH]; intros r W; cbn [sweep].
  - split; [reflexivity|]. split; [exact W|]. split; [intros t []|].
    split; [reflexivity|]. split; [reflexivity|]. intros t l [].
  - destruct (existsb (Nat.eqb t) active) eqn:Ea.
    + assert (Ha : In t active).
      { apply existsb_exists in Ea. destruct Ea as (x & Hx & Ex).
        apply Nat.eqb_eq in Ex. subst x. exact Hx. }
      specialize (IH r W). destruct (sweep dt active order r) as [res r'].
      destruct IH as (-> & W' & H3 & H4 & H5 & H6).
      split; [reflexivity|]. split; [exact W'|]. split; [|split; [|split]].
      * intros t0 [->|Hin] Hna; [contradiction|]. apply H3; assumption.
      * intros t0 Hn. apply H4. intros [Hin Hna]. apply Hn. split; [right|]; assumption.
      * intros l Hl. apply H5. intros t0 Ht0 [Hin Hna]. apply (Hl t0 Ht0). split; [right|]; assumption.
      * intros t0 l [->|Hin] Hna Hl; [contradiction|]. apply (H6 t0 l); assumption.
    + assert (Ha : ~ In t active).
      { intros Hin. assert (existsb (Nat.eqb t) active = true) as E; [|congruence].
        apply existsb_exists. exists t. split; [exact Hin | apply Nat.eqb_refl]. }
      pose proof (onRemoved_wf_spec dt t r W) as (R1 & R2 & R3 & R4 & R5).
      pose proof (reg_wf_onRemoved dt t r W) as W1.
      destruct (onRemoved dt t r) as [res1 r1]. cbn in R1, R2, R3, R4, R5, W1. subst res1.
      pose proof W as (Hinj & Hal & _).
      specialize (IH r1 W1). destruct (sweep dt active order r1) as [res r'].
      destruct IH as (-> & W' & H3 & H4 & H5 & H6).
      split; [reflexivity|]. split; [exact W'|]. split; [|split; [|split]].
      * intros t0 Hin0 Hna. destruct (in_dec Nat.eq_dec t0 order) as [Hin|Hnin].
        -- apply H3; assumption.
        -- destruct Hin0 as [<-|Hin]; [|contradiction].
           rewrite H4 by tauto. exact R3.
      * intros t0 Hn. assert (t0 <> t) by (intros ->; apply Hn; split; [left|]; auto).
        rewrite H4 by (intros [Hi Hn']; apply Hn; split; [right; exact Hi | exact Hn']).
        apply R2. assumption.
      * intros l Hl. rewrite H5.
        -- apply R4. intros t' Ht' ->. apply (Hl t Ht'). split; [left; reflexivity | exact Ha].
        -- intros t0 Ht0 [Hin Hna].
           destruct (decide (t0 = t)) as [->|N]; [rewrite R3 in Ht0; discriminate|].
           rewrite R2 in Ht0 by exact N. apply (Hl t0 Ht0). split; [right|]; assumption.
      * intros t0 l Hin0 Hna Hl. destruct (decide (t0 = t)) as [->|N].
        -- destruct (R5 l Hl) as (m' & Hm' & Hc). exists m'. split; [|exact Hc].
           rewrite H5; [exact Hm'|]. intros t1 Ht1 _.
           destruct (decide (t1 = t)) as [->|N1]; [rewrite R3 in Ht1; discriminate|].
           rewrite R2 in Ht1 by exact N1. apply N1, (Hinj _ _ _ Ht1 Hl).
        -- destruct Hin0 as [<-|Hin]; [congruence|].
           apply (H6 t0 l Hin Hna). rewrite R2 by exact N. exact Hl.
Qed.

(** The periodic sweep of the background script, over a well-formed registry whose tabs are all visited, never fails: afterwards only active tabs have managers, each keeping its entry and manager object, and every inactive tab has lost its entry and its manager has been cleaned up. *)
Theorem sweep_removes_stale dt activeTabs order r res r' :
  reg_wf r ->
  (forall t l, sessionMap r !! t = Some l -> In t order) ->
  sweep dt activeTabs order r = (res, r') ->
  res = inr tt /\ reg_wf r' /\
  (forall t l, sessionMap r' !! t = Some l -> In t activeTabs /\ sessionMap r !! t = Some l) /\
  (forall t l, In t activeTabs -> sessionMap r !! t = Some l ->
     sessionMap r' !! t = Some l /\ heap r' !! l = heap r !! l) /\
  (forall t l, ~ In t activeTabs -> sessionMap r !! t = Some l ->
     sessionMap r' !! t = None /\ exists m', heap r' !! l = Some m' /\ cleaned m').
Proof.
  intros W Cov Hs. pose proof W as (Hinj & _ & _).
  pose proof (sweep_spec dt activeTabs order r W) as S. rewrite Hs in S.
  destruct S as (-> & W' & H3 & H4 & H5 & H6).
  split; [reflexivity|]. split; [exact W'|]. split; [|split].
  - intros t l Hl. destruct (in_dec Nat.eq_dec t activeTabs) as [Ha|Ha].
    + split; [exact Ha|]. rewrite <- H4; [exact Hl|]. tauto.
    + destruct (in_dec Nat.eq_dec t order) as [Ho|Ho].
      * rewrite H3 in Hl by assumption. discriminate.
      * rewrite H4 in Hl by tauto. exfalso. exact (Ho (Cov t l Hl)).
  - intros t l Ha Hl. split; [rewrite H4; [exact Hl | tauto]|].
    apply H5. intros t0 Ht0. rewrite (Hinj _ _ _ Ht0 Hl). tauto.
  - intros t l Ha Hl. split; [apply H3; [exact (Cov t l Hl) | exact Ha]|].
    exact (H6 t l (Cov t l Hl) Ha Hl).
Qed.

Lemma sweep_removes_stale_witness :
  let evs := [RMessage (mkRequest "reviewCode" (Some "const answer = 42;") None None None None) (Some 1);
              RMessage (mkRequest "reviewCode" (Some "let y = x + 1;") None None None None) (Some 2)] in
  let r := reg_run evs reg0 in
  let r' := snd (sweep (fun _ => false) [2] [1; 2] r) in
  sessionMap r' !! 1 = None /\ sessionMap r' !! 2 = Some 1.
Proof.
  intros evs r r'.
  assert (E : sessionMap r = <[2:=1]> (<[1:=0]> ∅)) by (vm_compute; reflexivity).
  destruct (sweep_removes_stale (fun _ => false) [2] [1; 2] r
              (fst (sweep (fun _ => false) [2] [1; 2] r)) r') as (_ & _ & _ & H4 & H5).
  - exact (reg_wf_run evs reg0 reg_wf_reg0).
  - intros t l H. rewrite E in H.
    apply lookup_insert_Some in H as [[<- _] | [_ H]]; [right; left; reflexivity|].
    apply lookup_insert_Some in H as [[<- _] | [_ H]]; [left; reflexivity|].
    rewrite lookup_empty in H. discriminate.
  - apply surjective_pairing.
  - split.
    + apply (H5 1 0); [intros [H|[]]; discriminate | rewrite E; reflexivity].
    + apply (H4 2 1); [left; reflexivity | rewrite E; reflexivity].
Defined.

(** ** helpers.js *)

Lemma list_ascii_of_string_app s1 s2 :
  list_ascii_of_string (s1 ++ s2)%string = list_ascii_of_string s1 ++ list_ascii_of_string s2.
Proof. induction s1 as [|c s1 IH]; [reflexivity | exact (f_equal (cons c) IH)]. Qed.

Lemma append_String c s1 s2 : (String c s1 ++ s2)%string = String c (s1 ++ s2)%string.
Proof. reflexivity. Qed.

Lemma append_Empty s : (EmptyString ++ s)%string = s.
Proof. reflexivity. Qed.

Lemma length_list_ascii_of_string s : List.length (list_ascii_of_string s) = String.length s.
Proof. induction s as [|c s IH]; cbn; [reflexivity | now rewrite IH]. Qed.

Lemma split_on_length c s :
  List.length (split_on c s) = S (count_occ Ascii.ascii_dec (list_ascii_of_string s) c).
Proof.
  induction s as [|a s IH]; [reflexivity|]. cbn [split_on list_ascii_of_string count_occ].
  destruct (Ascii.eqb a c) eqn:E.
  - apply Ascii.eqb_eq in E. subst a. destruct (Ascii.ascii_dec c c) as [_|N]; [|congruence].
    cbn. rewrite IH. reflexivity.
  - destruct (Ascii.ascii_dec a c) as [->|_]; [rewrite Ascii.eqb_refl in E; discriminate|].
    destruct (split_on c s) as [|w ws]; cbn in IH |- *; [discriminate | exact IH].
Qed.

Lemma last_cons_ne {A} (x : A) l d : l <> [] -> List.last (x :: l) d = List.last l d.
Proof. destruct l; [congruence | reflexivity]. Qed.

Lemma split_on_last_sep c s1 s2 :
  List.last (split_on c (s1 ++ String c s2)%string) EmptyString = List.last (split_on c s2) EmptyString.
Proof.
  induction s1 as [|a s1 IH]; [rewrite append_Empty | rewrite append_String]; cbn [split_on].
  - rewrite Ascii.eqb_refl. apply last_cons_ne.
    intros H. pose proof (split_on_length c s2) as L. rewrite H in L. discriminate.
  - destruct (Ascii.eqb a c).
    + rewrite last_cons_ne; [exact IH|].
      intros H. pose proof (split_on_length c (s1 ++ String c s2)) as L. rewrite H in L. discriminate.
    + pose proof (split_on_length c (s1 ++ String c s2)) as L.
      rewrite list_ascii_of_string_app, count_occ_app in L. cbn in L.
      destruct (Ascii.ascii_dec c c) as [_|N]; [|congruence].
      destruct (split_on c (s1 ++ String c s2)) as [|w ws]; [discriminate|].
      destruct ws as [|w' ws]; [cbn in L; lia|]. exact IH.
Qed.

Lemma split_on_no_sep c s : ~ In c (list_ascii_of_string s) -> split_on c s = [s].
Proof.
  induction s as [|a s IH]; intros H; [reflexivity|]. cbn in H |- *.
  destruct (Ascii.eqb a c) eqn:E; [apply Ascii.eqb_eq in E; subst; tauto|].
  rewrite IH by tauto. reflexivity.
Qed.

(** [detectLanguage] looks only at the text after the last dot, lower-cased (the whole name when it has no dot); the extensions 'constructor' and '__proto__' yield inherited Object properties instead of a language name. *)
Theorem detectLanguage_last_extension base ext name :
  (~ In (chr 46) (list_ascii_of_string ext) ->
   detectLanguage (Some (base ++ "." ++ ext)%string) = or_unknown (languageMap_get (toLowerCase ext))) /\
  (~ In (chr 46) (list_ascii_of_string name) -> name <> EmptyString ->
   detectLanguage (Some name) = or_unknown (languageMap_get (toLowerCase name))) /\
  detectLanguage (Some (base ++ ".constructor")%string) = JObjectConstructor /\
  detectLanguage (Some (base ++ ".__proto__")%string) = JObjectPrototype.
Proof.
  assert (Ext : forall ext, ~ In (chr 46) (list_ascii_of_string ext) ->
            detectLanguage (Some (base ++ "." ++ ext)%string) = or_unknown (languageMap_get (toLowerCase ext))).
  { intros e He. unfold detectLanguage.
    destruct (String.eqb (base ++ "." ++ e)%string EmptyString) eqn:E.
    { apply String.eqb_eq in E. destruct base; discriminate. }
    change ("." ++ e)%string with (String (chr 46) e).
    rewrite split_on_last_sep, split_on_no_sep by exact He. reflexivity. }
  split; [apply Ext|]. split.
  - intros Hn Hne. unfold detectLanguage.
    destruct (String.eqb name EmptyString) eqn:E; [apply String.eqb_eq in E; contradiction|].
    rewrite split_on_no_sep by exact Hn. reflexivity.
  - split; apply Ext; cbn; intros H; repeat (destruct H as [H|H]; [discriminate|]); exact H.
Qed.

Lemma detectLanguage_last_extension_witness :
  detectLanguage (Some ("src/App" ++ "." ++ "JSX")%string) = JStr "javascript" /\
  detectLanguage (Some "Dockerfile") = JStr "docker".
Proof.
  destruct (detectLanguage_last_extension "src/App" "JSX" "Dockerfile") as (H1 & H2 & _).
  split.
  - rewrite H1; [reflexivity|]. cbn. intros H. repeat (destruct H as [H|H]; [discriminate|]). exact H.
  - rewrite H2; [reflexivity| |discriminate]. cbn. intros H.
    repeat (destruct H as [H|H]; [discriminate|]). exact H.
Defined.

Lemma forallb_rev {A} (f : A -> bool) l : forallb f (rev l) = forallb f l.
Proof.
  induction l as [|x l IH]; [reflexivity|]. cbn. rewrite forallb_app, IH. cbn.
  rewrite andb_true_r, andb_comm. reflexivity.
Qed.

Lemma drop_ws_forallb l : forallb is_ws (drop_ws l) = forallb is_ws l.
Proof.
  induction l as [|c l IH]; [reflexivity|]. cbn.
  destruct (is_ws c) eqn:E; cbn; [exact IH | rewrite E; reflexivity].
Qed.

Lemma drop_ws_nil l : drop_ws l = [] <-> forallb is_ws l = true.
Proof.
  induction l as [|c l IH]; [split; reflexivity|]. cbn.
  destruct (is_ws c); cbn; [exact IH | split; discriminate].
Qed.

Lemma trim_length_zero s :
  String.length (trim s) = 0 <-> forallb is_ws (list_ascii_of_string s) = true.
Proof.
  unfold trim. rewrite length_string_of_list, length_rev.
  rewrite length_zero_iff_nil, drop_ws_nil, forallb_rev, drop_ws_forallb. reflexivity.
Qed.

Lemma filter_length_zero {A} (f : A -> bool) l :
  List.length (List.filter f l) = 0 <-> forallb (fun x => negb (f x)) l = true.
Proof.
  induction l as [|x l IH]; [split; reflexivity|]. cbn.
  destruct (f x); cbn; [split; discriminate | exact IH].
Qed.

Lemma filter_length_le {A} (f : A -> bool) l : List.length (List.filter f l) <= List.length l.
Proof. induction l as [|x l IH]; [reflexivity|]. cbn. destruct (f x); cbn; lia. Qed.

Lemma split_on_ws_lines c s :
  is_ws c = true ->
  forallb (fun line => negb (Nat.ltb 0 (String.length (trim line)))) (split_on c s)
  = forallb is_ws (list_ascii_of_string s).
Proof.
  intros Hc.
  assert (L : forall line, negb (Nat.ltb 0 (String.length (trim line)))
                           = forallb is_ws (list_ascii_of_string line)).
  { intros line. destruct (forallb is_ws (list_ascii_of_string line)) eqn:E.
    - apply trim_length_zero in E. rewrite E. reflexivity.
    - destruct (String.length (trim line)) eqn:E'; [|reflexivity].
      apply trim_length_zero in E'. congruence. }
  induction s as [|a s IH]; [reflexivity|]. cbn [split_on list_ascii_of_string forallb].
  destruct (Ascii.eqb a c) eqn:E.
  - apply Ascii.eqb_eq in E. subst a. cbn [forallb]. rewrite L, IH, Hc. reflexivity.
  - pose proof (split_on_length c s) as Len.
    destruct (split_on c s) as [|w ws]; [discriminate|].
    cbn [forallb] in IH |- *. rewrite L in IH |- *. cbn. rewrite <- IH, andb_assoc. reflexivity.
Qed.

Lemma ws_pieces_empty l : forall cur b,
  (b = true -> cur = []) ->
  forallb (fun w => negb (Nat.ltb 0 (List.length w))) (ws_pieces l cur b)
  = match cur with [] => true | _ => false end && forallb is_ws l.
Proof.
  induction l as [|c l IH]; intros cur b Hb; cbn.
  - rewrite length_rev. destruct cur; reflexivity.
  - destruct (is_ws c) eqn:E.
    + destruct b.
      * rewrite (Hb eq_refl). rewrite IH by reflexivity. reflexivity.
      * cbn. rewrite IH by reflexivity. rewrite length_rev. destruct cur; reflexivity.
    + rewrite IH by discriminate. rewrite andb_false_r. reflexivity.
Qed.

(** For non-empty code, [calculateCodeMetrics] counts one line more than newline characters, at most that many non-empty lines, and no non-empty line and no word exactly when the code is all white space. *)
Theorem calculateCodeMetrics_counts code :
  code <> EmptyString ->
  let m := calculateCodeMetrics (Some code) in
  lines m = S (count_occ Ascii.ascii_dec (list_ascii_of_string code) (chr 10)) /\
  nonEmptyLines m <= lines m /\
  (nonEmptyLines m = 0 <-> forallb is_ws (list_ascii_of_string code) = true) /\
  (words m = 0 <-> forallb is_ws (list_ascii_of_string code) = true).
Proof.
  intros Hne m. unfold m, calculateCodeMetrics.
  destruct (String.eqb code EmptyString) eqn:E; [apply String.eqb_eq in E; contradiction|].
  cbn [lines nonEmptyLines words].
  split; [apply split_on_length|]. split; [apply filter_length_le|]. split.
  - rewrite filter_length_zero. rewrite split_on_ws_lines by reflexivity. reflexivity.
  - rewrite filter_length_zero. rewrite ws_pieces_empty by discriminate. reflexivity.
Qed.

Lemma calculateCodeMetrics_counts_witness :
  let code := String.concat (String (chr 10) EmptyString) ["a b"; " "; "  c"] in
  lines (calculateCodeMetrics (Some code)) = 3 /\
  nonEmptyLines (calculateCodeMetrics (Some code)) = 2.
Proof.
  intros code. destruct (calculateCodeMetrics_counts code) as (H1 & H2 & _); [discriminate|].
  split; [rewrite H1; reflexivity | vm_compute; reflexivity].
Defined.

(** [extractCodeBlocks] never returns a block: on text containing six consecutive backticks it throws the TypeError of calling trim on an undefined group, and otherwise (or without text) it returns the empty array. *)
Theorem extractCodeBlocks_never_returns_blocks text :
  ((exists m, substring m 6 text = six_backticks) ->
   extractCodeBlocks (Some text)
   = inl "TypeError: Cannot read properties of undefined (reading 'trim')") /\
  ((forall m, substring m 6 text <> six_backticks) -> extractCodeBlocks (Some text) = inr []) /\
  extractCodeBlocks None = inr [].
Proof.
  split; [|split; [|reflexivity]].
  - intros [m Hm]. unfold extractCodeBlocks.
    destruct (String.eqb text EmptyString) eqn:E.
    { apply String.eqb_eq in E. subst text. destruct m; discriminate. }
    unfold extract_loop, exec_six.
    destruct (String.index 0 six_backticks text) as [i|] eqn:Ei; [reflexivity|].
    exfalso. exact (index_correct3 0 m six_backticks text Ei ltac:(discriminate) ltac:(lia) Hm).
  - intros Hno. unfold extractCodeBlocks.
    destruct (String.eqb text EmptyString); [reflexivity|].
    unfold extract_loop, exec_six.
    destruct (String.index 0 six_backticks text) as [i|] eqn:Ei; [|reflexivity].
    exfalso. exact (Hno i (index_correct1 0 i six_backticks text Ei)).
Qed.

(* sanitizeCode *)

Lemma prefix_ci_len p : forall s r, prefix_ci p s = Some r -> List.length p + List.length r = List.length s.
Proof.
  induction p as [|a p IH]; intros s r H; cbn in H.
  - injection H as <-. reflexivity.
  - destruct s as [|c s]; [discriminate|].
    destruct (Ascii.eqb (lower_char a) (lower_char c)); [|discriminate].
    apply IH in H. cbn. lia.
Qed.

Lemma skip_to_gt_len s : forall r, skip_to_gt s = Some r -> List.length r < List.length s.
Proof.
  induction s as [|c s IH]; intros r H; cbn in H; [discriminate|].
  destruct (Ascii.eqb c (chr 62)); [injection H as <-; cbn; lia|].
  apply IH in H. cbn. lia.
Qed.

Lemma lazy_until_len close s : forall r, lazy_until close s = Some r -> List.length r <= List.length s.
Proof.
  induction s as [|c s IH]; intros r H; cbn in H.
  - destruct (prefix_ci close []) eqn:E; [|discriminate].
    injection H as <-. apply prefix_ci_len in E. lia.
  - destruct (prefix_ci close (c :: s)) eqn:E.
    + injection H as <-. apply prefix_ci_len in E. lia.
    + destruct (is_line_terminator c); [discriminate|]. apply IH in H. cbn. lia.
Qed.

Lemma match_element_strict tag : strict (match_element tag).
Proof.
  intros s r H. unfold match_element in H.
  destruct (prefix_ci _ s) as [s1|] eqn:E1; [|discriminate].
  destruct (skip_to_gt s1) as [s2|] eqn:E2; [|discriminate].
  apply prefix_ci_len in E1. apply skip_to_gt_len in E2. apply lazy_until_len in H. lia.
Qed.

Lemma match_embed_strict : strict match_embed.
Proof.
  intros s r H. unfold match_embed in H.
  destruct (prefix_ci _ s) as [s1|] eqn:E1; [|discriminate].
  apply prefix_ci_len in E1. apply skip_to_gt_len in H. lia.
Qed.

Lemma prefix_ci_lt p c s :
  prefix_ci (chr 60 :: p) (c :: s) = if Ascii.eqb (chr 60) c then prefix_ci p s else None.
Proof. destruct c as [[] [] [] [] [] [] [] []]; reflexivity. Qed.

Lemma match_element_needs_lt tag : needs_lt (match_element tag).
Proof.
  intros c s Hc. unfold match_element. rewrite list_ascii_of_string_app.
  change (list_ascii_of_string "<") with [chr 60]. cbn [app].
  rewrite prefix_ci_lt. destruct (Ascii.eqb_spec (chr 60) c); [congruence | reflexivity].
Qed.

Lemma match_embed_needs_lt : needs_lt match_embed.
Proof.
  intros c s Hc. unfold match_embed.
  change (list_ascii_of_string "<embed") with (chr 60 :: list_ascii_of_string "embed").
  rewrite prefix_ci_lt. destruct (Ascii.eqb_spec (chr 60) c); [congruence | reflexivity].
Qed.

Section Remove.
Variable m : list Ascii.ascii -> option (list Ascii.ascii).
Hypothesis Hm : strict m.

Lemma remove_fuel_len f : forall s, List.length (remove_fuel m f s) <= List.length s.
Proof.
  induction f as [|f IH]; intros s; [reflexivity|]. cbn.
  destruct s as [|c s]; [reflexivity|].
  destruct (m (c :: s)) as [r|] eqn:E.
  - apply Hm in E. specialize (IH r). lia.
  - cbn. specialize (IH s). cbn. lia.
Qed.

Lemma remove_fuel_enough f : forall f' s, List.length s <= f -> List.length s <= f' ->
  remove_fuel m f s = remove_fuel m f' s.
Proof.
  induction f as [|f IH]; intros f' s H1 H2.
  - destruct s; [|cbn in H1; lia]. destruct f'; reflexivity.
  - destruct f' as [|f']; [destruct s; [reflexivity | cbn in H2; lia]|].
    destruct s as [|c s]; [reflexivity|]. cbn in H1, H2 |- *.
    destruct (m (c :: s)) as [r|] eqn:E.
    + apply Hm in E. cbn in E. apply IH; lia.
    + f_equal. apply IH; lia.
Qed.

Lemma remove_all_hit c s r : m (c :: s) = Some r -> remove_all m (c :: s) = remove_all m r.
Proof.
  intros E. unfold remove_all. cbn [List.length remove_fuel]. rewrite E.
  apply Hm in E. cbn in E. apply remove_fuel_enough; lia.
Qed.

Lemma remove_all_miss c s : m (c :: s) = None -> remove_all m (c :: s) = c :: remove_all m s.
Proof. intros E. unfold remove_all. cbn [List.length remove_fuel]. rewrite E. reflexivity. Qed.

Lemma remove_all_len s : List.length (remove_all m s) <= List.length s.
Proof. apply remove_fuel_len. Qed.

Hypothesis Hlt : needs_lt m.

Lemma remove_all_no_lt l1 l2 :
  forallb (fun c => negb (Ascii.eqb c (chr 60))) l1 = true ->
  remove_all m (l1 ++ l2) = l1 ++ remove_all m l2.
Proof.
  induction l1 as [|c l1 IH]; intros H; [reflexivity|].
  cbn in H. apply andb_prop in H as [Hc H].
  cbn [app]. rewrite remove_all_miss; [f_equal; exact (IH H)|].
  apply Hlt. intros ->. discriminate.
Qed.

Lemma remove_all_id l :
  forallb (fun c => negb (Ascii.eqb c (chr 60))) l = true -> remove_all m l = l.
Proof. intros H. rewrite <- (app_nil_r l) at 1. rewrite remove_all_no_lt by exact H. apply app_nil_r. Qed.

End Remove.

Lemma no_lt_iff l : forallb (fun c => negb (Ascii.eqb c (chr 60))) l = true <-> ~ In (chr 60) l.
Proof.
  induction l as [|c l IH]; cbn; [tauto|].
  rewrite andb_true_iff, IH, negb_true_iff.
  destruct (Ascii.eqb_spec c (chr 60)) as [->|Hn]; split.
  - intros [H _]; discriminate.
  - intros H; exfalso; apply H; left; reflexivity.
  - intros [_ H] [H'|H']; [congruence | contradiction].
  - intros H; split; [reflexivity|]. intros H'; apply H; right; exact H'.
Qed.

Lemma string_of_list_ascii_length l : String.length (string_of_list_ascii l) = List.length l.
Proof. induction l as [|c l IH]; cbn; congruence. Qed.

Lemma substring0_le_length n s : String.length (substring 0 n s) <= String.length s.
Proof.
  revert n; induction s as [|c s IH]; intros n; destruct n; cbn; try lia.
  specialize (IH n). lia.
Qed.

Lemma substring0_full n s : String.length s <= n -> substring 0 n s = s.
Proof.
  revert n; induction s as [|c s IH]; intros n H; destruct n; cbn in *; try reflexivity; [lia|].
  f_equal. apply IH. lia.
Qed.

(** A successful [sanitizeCode] had a non-empty string as input and returns at most maxLength characters, no more than the input, and at least 10 characters after trimming. *)
Theorem sanitizeCode_output_bounds code maxLength out :
  sanitizeCode code maxLength = inr out ->
  exists c, code = Some c /\ c <> EmptyString /\
    String.length out <= maxLength /\
    String.length out <= String.length c /\
    10 <= String.length (trim out).
Proof.
  intros H. destruct code as [c|]; [|discriminate]. unfold sanitizeCode in H.
  destruct (String.eqb_spec c EmptyString) as [|Hne]; [discriminate|].
  match type of H with (if Nat.ltb (String.length (trim ?x)) 10 then _ else _) = _ =>
    set (sanitized := x) in H end.
  destruct (Nat.ltb_spec (String.length (trim sanitized)) 10); [discriminate|].
  injection H as <-. exists c. split; [reflexivity|]. split; [exact Hne|].
  split; [apply length_substring0|]. split; [|lia].
  unfold sanitized. etransitivity; [apply substring0_le_length|].
  rewrite string_of_list_ascii_length.
  rewrite <- length_list_ascii_of_string.
  repeat (etransitivity; [apply remove_all_len;
           first [apply match_element_strict | apply match_embed_strict]|]).
  reflexivity.
Qed.

Lemma sanitizeCode_output_bounds_witness :
  exists c, Some "let x = <b>1</b>;" = Some c /\ c <> EmptyString /\
    String.length "let x = <b>1</b>;" <= 100 /\
    String.length "let x = <b>1</b>;" <= String.length c /\
    10 <= String.length (trim "let x = <b>1</b>;").
Proof. apply (sanitizeCode_output_bounds (Some "let x = <b>1</b>;") 100). vm_compute. reflexivity. Defined.

(** On code without a '<' character, [sanitizeCode] removes nothing: the result is the first maxLength characters, or the 'too short' error when they have fewer than 10 characters after trimming, or 'Invalid code input' for the empty string. *)
Theorem sanitizeCode_without_tags code maxLength :
  ~ In (chr 60) (list_ascii_of_string code) ->
  sanitizeCode (Some code) maxLength =
  if String.eqb code EmptyString then inl "Invalid code input"
  else if Nat.ltb (String.length (trim (substring 0 maxLength code))) 10
  then inl "Code snippet too short (minimum 10 characters)"
  else inr (substring 0 maxLength code).
Proof.
  intros H. apply no_lt_iff in H. unfold sanitizeCode.
  destruct (String.eqb code EmptyString); [reflexivity|].
  rewrite (remove_all_id _ (match_element_needs_lt "script") _ H).
  rewrite (remove_all_id _ (match_element_needs_lt "iframe") _ H).
  rewrite (remove_all_id _ (match_element_needs_lt "object") _ H).
  rewrite (remove_all_id _ match_embed_needs_lt _ H).
  rewrite string_of_list_ascii_of_string. reflexivity.
Qed.

Lemma sanitizeCode_without_tags_witness :
  sanitizeCode (Some "const answer = 42;") 5
  = inl "Code snippet too short (minimum 10 characters)".
Proof. rewrite sanitizeCode_without_tags by (apply no_lt_iff; reflexivity). reflexivity. Defined.

Lemma script_pass p :
  forallb (fun c => negb (Ascii.eqb c (chr 60))) (list_ascii_of_string p) = true ->
  remove_all (match_element "script")
    (list_ascii_of_string "<scr<script></script>ipt>" ++ list_ascii_of_string p ++ list_ascii_of_string "</script>")
  = list_ascii_of_string "<script>" ++ list_ascii_of_string p ++ list_ascii_of_string "</script>".
Proof.
  intros Hp. set (P := list_ascii_of_string p) in *.
  pose proof (match_element_strict "script") as Hs.
  pose proof (match_element_needs_lt "script") as Hl.
  change (list_ascii_of_string "<scr<script></script>ipt>" ++ P ++ list_ascii_of_string "</script>")
    with (chr 60 :: list_ascii_of_string "scr" ++
          (list_ascii_of_string "<script></script>" ++ (list_ascii_of_string "ipt>" ++ P) ++
           (chr 60 :: list_ascii_of_string "/script>"))).
  rewrite remove_all_miss by reflexivity.
  rewrite (remove_all_no_lt _ Hl) by reflexivity.
  change (list_ascii_of_string "<script></script>" ++ ?X) with
    (chr 60 :: (list_ascii_of_string "script></script>" ++ X)).
  rewrite (remove_all_hit _ Hs _ _ ((list_ascii_of_string "ipt>" ++ P) ++
           chr 60 :: list_ascii_of_string "/script>")) by reflexivity.
  rewrite (remove_all_no_lt _ Hl) by (rewrite forallb_app, Hp; reflexivity).
  rewrite remove_all_miss by reflexivity.
  rewrite (remove_all_id _ Hl (list_ascii_of_string "/script>")) by reflexivity.
  rewrite <- app_assoc. reflexivity.
Qed.

Lemma other_pass m p :
  strict m -> needs_lt m ->
  (forall X, m (list_ascii_of_string "<script>" ++ X) = None) ->
  (forall X, m (list_ascii_of_string "</script>" ++ X) = None) ->
  forallb (fun c => negb (Ascii.eqb c (chr 60))) (list_ascii_of_string p) = true ->
  remove_all m (list_ascii_of_string "<script>" ++ list_ascii_of_string p ++ list_ascii_of_string "</script>")
  = list_ascii_of_string "<script>" ++ list_ascii_of_string p ++ list_ascii_of_string "</script>".
Proof.
  intros Hs Hl H1 H2 Hp. set (P := list_ascii_of_string p) in *.
  change (list_ascii_of_string "<script>" ++ P ++ list_ascii_of_string "</script>")
    with (chr 60 :: (list_ascii_of_string "script>" ++ P) ++
          (chr 60 :: list_ascii_of_string "/script>")).
  rewrite remove_all_miss by exact (H1 _).
  rewrite (remove_all_no_lt _ Hl) by (rewrite forallb_app, Hp; reflexivity).
  rewrite remove_all_miss by exact (H2 []).
  rewrite (remove_all_id _ Hl (list_ascii_of_string "/script>")) by reflexivity.
  reflexivity.
Qed.

Lemma string_length_app s1 s2 :
  String.length (s1 ++ s2)%string = String.length s1 + String.length s2.
Proof. induction s1 as [|c s1 IH]; [reflexivity | rewrite append_String; cbn; congruence]. Qed.

Lemma trim_tag_wrapped p :
  trim ("<script>" ++ p ++ "</script>")%string = ("<script>" ++ p ++ "</script>")%string.
Proof.
  unfold trim. rewrite !list_ascii_of_string_app.
  change (drop_ws (list_ascii_of_string "<script>" ++ ?X)) with (list_ascii_of_string "<script>" ++ X).
  rewrite !rev_app_distr.
  change (drop_ws ((rev (list_ascii_of_string "</script>") ++ ?X) ++ ?Y))
    with ((rev (list_ascii_of_string "</script>") ++ X) ++ Y).
  rewrite <- !rev_app_distr, rev_involutive, <- !list_ascii_of_string_app.
  apply string_of_list_ascii_of_string.
Qed.

(** [sanitizeCode] strips in a single pass, so a tag split by a removed element survives: '<scr<script></script>ipt>' followed by text without '<' and '</script>' gives back a complete script element. *)
Theorem sanitizeCode_single_pass p maxLength :
  ~ In (chr 60) (list_ascii_of_string p) ->
  17 + String.length p <= maxLength ->
  sanitizeCode (Some ("<scr<script></script>ipt>" ++ p ++ "</script>")%string) maxLength
  = inr ("<script>" ++ p ++ "</script>")%string.
Proof.
  intros Hp Hlen. apply no_lt_iff in Hp. unfold sanitizeCode.
  destruct (String.eqb_spec ("<scr<script></script>ipt>" ++ p ++ "</script>") EmptyString)
    as [E|_]; [discriminate E|].
  rewrite !list_ascii_of_string_app, script_pass by exact Hp.
  rewrite (other_pass _ p (match_element_strict _) (match_element_needs_lt _))
    by (reflexivity || exact Hp).
  rewrite (other_pass _ p (match_element_strict _) (match_element_needs_lt _))
    by (reflexivity || exact Hp).
  rewrite (other_pass _ p match_embed_strict match_embed_needs_lt)
    by (reflexivity || exact Hp).
  rewrite <- !list_ascii_of_string_app, string_of_list_ascii_of_string.
  rewrite substring0_full.
  2:{ rewrite !string_length_app. cbn [String.length]. lia. }
  rewrite trim_tag_wrapped, !string_length_app. cbn [String.length].
  match goal with |- (if Nat.ltb ?n 10 then _ else _) = _ =>
    destruct (Nat.ltb_spec n 10); [lia | reflexivity] end.
Qed.

Lemma sanitizeCode_single_pass_witness :
  sanitizeCode (Some "<scr<script></script>ipt>alert(1)</script>") 100
  = inr "<script>alert(1)</script>".
Proof.
  apply (sanitizeCode_single_pass "alert(1)" 100).
  - apply no_lt_iff. reflexivity.
  - vm_compute. lia.
Defined.

Lemma div_bounds (x k : Z) : (0 < k)%Z -> (k * (x / k) <= x < k * (x / k) + k)%Z.
Proof.
  intros Hk. pose proof (Z.div_mod x k ltac:(lia)). pose proof (Z.mod_pos_bound x k Hk). lia.
Qed.

(** [formatTimestamp] gives 'Just now' for any time less than a minute ago, including every future time; 1 to 59 minutes, 1 to 23 hours and 1 to 6 days ago give the count with a singular or plural unit; a week or more, or an invalid date, falls through to toLocaleDateString. *)
Theorem formatTimestamp_bands toLocaleDateString d now :
  let diff := (now - d)%Z in
  let f := formatTimestamp toLocaleDateString in
  f None now = toLocaleDateString None /\
  ((diff < 60000)%Z -> f (Some d) now = "Just now") /\
  ((60000 <= diff < 3600000)%Z -> (1 <= diff / 60000 <= 59)%Z /\
     f (Some d) now = (js_number_string (diff / 60000) ++ " minute" ++
       (if Z.eqb (diff / 60000) 1 then EmptyString else "s") ++ " ago")%string) /\
  ((3600000 <= diff < 86400000)%Z -> (1 <= diff / 3600000 <= 23)%Z /\
     f (Some d) now = (js_number_string (diff / 3600000) ++ " hour" ++
       (if Z.eqb (diff / 3600000) 1 then EmptyString else "s") ++ " ago")%string) /\
  ((86400000 <= diff < 604800000)%Z -> (1 <= diff / 86400000 <= 6)%Z /\
     f (Some d) now = (js_number_string (diff / 86400000) ++ " day" ++
       (if Z.eqb (diff / 86400000) 1 then EmptyString else "s") ++ " ago")%string) /\
  ((604800000 <= diff)%Z -> f (Some d) now = toLocaleDateString (Some d)).
Proof.
  intros diff f. unfold f, formatTimestamp. fold diff.
  pose proof (div_bounds diff 60000 ltac:(lia)) as M.
  pose proof (div_bounds diff 3600000 ltac:(lia)) as Hh.
  pose proof (div_bounds diff 86400000 ltac:(lia)) as D.
  set (m := (diff / 60000)%Z) in *. set (h := (diff / 3600000)%Z) in *.
  set (dd := (diff / 86400000)%Z) in *.
  split; [reflexivity|].
  split; [intros B; destruct (Z.ltb_spec m 1); [reflexivity | lia]|].
  split; [|split; [|split]]; intros B.
  - assert (1 <= m <= 59)%Z by lia. split; [assumption|].
    destruct (Z.ltb_spec m 1); [lia|]. destruct (Z.ltb_spec m 60); [|lia].
    destruct (Z.ltb_spec 1 m), (Z.eqb_spec m 1); solve [reflexivity | lia].
  - assert (1 <= h <= 23)%Z by lia. split; [assumption|].
    destruct (Z.ltb_spec m 1); [lia|]. destruct (Z.ltb_spec m 60); [lia|].
    destruct (Z.ltb_spec h 24); [|lia].
    destruct (Z.ltb_spec 1 h), (Z.eqb_spec h 1); solve [reflexivity | lia].
  - assert (1 <= dd <= 6)%Z by lia. split; [assumption|].
    destruct (Z.ltb_spec m 1); [lia|]. destruct (Z.ltb_spec m 60); [lia|].
    destruct (Z.ltb_spec h 24); [lia|]. destruct (Z.ltb_spec dd 7); [|lia].
    destruct (Z.ltb_spec 1 dd), (Z.eqb_spec dd 1); solve [reflexivity | lia].
  - destruct (Z.ltb_spec m 1); [lia|]. destruct (Z.ltb_spec m 60); [lia|].
    destruct (Z.ltb_spec h 24); [lia|]. destruct (Z.ltb_spec dd 7); [lia|]. reflexivity.
Qed.

(* formatContent *)

Lemma no_char_iff x l : forallb (fun c => negb (Ascii.eqb c x)) l = true <-> ~ In x l.
Proof.
  induction l as [|c l IH]; cbn; [tauto|].
  rewrite andb_true_iff, IH, negb_true_iff.
  destruct (Ascii.eqb_spec c x) as [->|Hn]; split.
  - intros [H _]; discriminate.
  - intros H; exfalso; apply H; left; reflexivity.
  - intros [_ H] [H'|H']; [congruence | contradiction].
  - intros H; split; [reflexivity|]. intros H'; apply H; right; exact H'.
Qed.

Lemma fc_special_free l :
  (forall x, In x l -> ~ In x [chr 35; chr 42; chr 96]) ->
  forallb (fun x => negb (fc_special x)) l = true.
Proof.
  intros H. apply forallb_forall. intros x Hx. specialize (H x Hx).
  unfold fc_special.
  destruct (Ascii.eqb_spec x (chr 96)) as [->|]; [exfalso; apply H; right; right; left; reflexivity|].
  destruct (Ascii.eqb_spec x (chr 42)) as [->|]; [exfalso; apply H; right; left; reflexivity|].
  destruct (Ascii.eqb_spec x (chr 35)) as [->|]; [exfalso; apply H; left; reflexivity|].
  reflexivity.
Qed.

Lemma gsub_fuel_id (sp : Ascii.ascii -> bool) m :
  (forall b c s, sp c = false -> m b (c :: s) = None) ->
  forall s b, forallb (fun x => negb (sp x)) s = true ->
  gsub_fuel m (List.length s) b s = s.
Proof.
  intros Hm s. induction s as [|c s IH]; intros b H; [reflexivity|].
  cbn in H. apply andb_prop in H as [Hc H]. apply negb_true_iff in Hc.
  cbn [List.length gsub_fuel]. rewrite Hm by exact Hc. f_equal. apply IH, H.
Qed.

Lemma gsub_br s : forall b, gsub_fuel br_match (List.length s) b s = flat_map br_char s.
Proof.
  induction s as [|c s IH]; intros b; [reflexivity|].
  cbn [List.length gsub_fuel flat_map]. unfold br_match at 1, br_char at 1.
  destruct (Ascii.eqb c (chr 10)); [|cbn [app]]; f_equal; apply IH.
Qed.

Lemma br_char_special_free (sp : Ascii.ascii -> bool) l :
  forallb (fun x => negb (sp x)) (list_ascii_of_string "<br>") = true ->
  forallb (fun x => negb (sp x)) l = true ->
  forallb (fun x => negb (sp x)) (flat_map br_char l) = true.
Proof.
  intros Hbr. induction l as [|c l IH]; intros H; [reflexivity|].
  cbn in H. apply andb_prop in H as [Hc H]. cbn [flat_map]. rewrite forallb_app, IH by exact H.
  unfold br_char. destruct (Ascii.eqb c (chr 10)); [rewrite Hbr; reflexivity|]. cbn. rewrite Hc. reflexivity.
Qed.

Ltac all_chars c := destruct c as [[] [] [] [] [] [] [] []].

Lemma code_match_special b c s : fc_special c = false -> delim_match [chr 96] (chr 96) "code" b (c :: s) = None.
Proof. intros H; all_chars c; solve [discriminate H | reflexivity]. Qed.

Lemma strong_match_special b c s :
  fc_special c = false -> delim_match [chr 42; chr 42] (chr 42) "strong" b (c :: s) = None.
Proof. intros H; all_chars c; solve [discriminate H | reflexivity]. Qed.

Lemma em_match_special b c s : fc_special c = false -> delim_match [chr 42] (chr 42) "em" b (c :: s) = None.
Proof. intros H; all_chars c; solve [discriminate H | reflexivity]. Qed.

Lemma header_match_special p tag b c s :
  fc_special c = false -> (exists p', list_ascii_of_string p = chr 35 :: p') ->
  header_match p tag b (c :: s) = None.
Proof.
  intros H [p' Hp]. unfold header_match. destruct b; [|reflexivity]. rewrite Hp.
  all_chars c; solve [discriminate H | reflexivity].
Qed.

(** [formatContent] of helpers.js, on text without '#', '*' or '`', only replaces each newline by '<br>': any HTML in the text is passed through unescaped. *)
Theorem formatContent_plain_text c :
  (forall x, In x (list_ascii_of_string c) -> ~ In x [chr 35; chr 42; chr 96]) ->
  formatContent (Some c) = string_of_list_ascii (flat_map br_char (list_ascii_of_string c)).
Proof.
  intros H. apply fc_special_free in H. unfold formatContent.
  destruct (String.eqb_spec c EmptyString) as [->|_]; [reflexivity|].
  unfold gsub. rewrite gsub_br. apply (br_char_special_free fc_special) in H; [|reflexivity].
  set (l := flat_map br_char (list_ascii_of_string c)) in *.
  rewrite (gsub_fuel_id fc_special _ code_match_special l true H).
  rewrite (gsub_fuel_id fc_special _ strong_match_special l true H).
  rewrite (gsub_fuel_id fc_special _ em_match_special l true H).
  rewrite (gsub_fuel_id fc_special _ (fun b c s Hc => header_match_special "### " "h3" b c s Hc (ex_intro _ _ eq_refl)) l true H).
  rewrite (gsub_fuel_id fc_special _ (fun b c s Hc => header_match_special "## " "h2" b c s Hc (ex_intro _ _ eq_refl)) l true H).
  rewrite (gsub_fuel_id fc_special _ (fun b c s Hc => header_match_special "# " "h1" b c s Hc (ex_intro _ _ eq_refl)) l true H).
  reflexivity.
Qed.

Lemma formatContent_plain_text_witness :
  formatContent (Some ("<img src=x onerror=alert(1)>" ++ String (chr 10) "ok")%string)
  = "<img src=x onerror=alert(1)><br>ok".
Proof.
  rewrite formatContent_plain_text.
  - reflexivity.
  - intros x Hx. apply (proj1 (forallb_forall _ _) (eq_refl true : forallb
      (fun x => negb (Ascii.eqb x (chr 35) || Ascii.eqb x (chr 42) || Ascii.eqb x (chr 96)))
      (list_ascii_of_string ("<img src=x onerror=alert(1)>" ++ String (chr 10) "ok")%string) = true)) in Hx.
    intros [E|[E|[E|[]]]]; subst x; discriminate Hx.
Defined.

Lemma match_prefix_app p s r : match_prefix p s = Some r -> s = p ++ r.
Proof.
  revert s; induction p as [|a p IH]; intros s H; cbn in H.
  - injection H as <-. reflexivity.
  - destruct s as [|c s]; [discriminate|].
    destruct (Ascii.eqb_spec a c) as [->|]; [|discriminate]. cbn. f_equal. apply IH, H.
Qed.

Lemma span_not_app p s a b : span_not p s = (a, b) -> s = a ++ b.
Proof.
  revert a b; induction s as [|c s IH]; intros a b H; cbn in H.
  - injection H as <- <-. reflexivity.
  - destruct (p c); [injection H as <- <-; reflexivity|].
    destruct (span_not p s) as [a' b'] eqn:E. injection H as <- <-. cbn. f_equal. apply IH. reflexivity.
Qed.

Lemma no_nl_app l1 l2 : no_nl (l1 ++ l2) = no_nl l1 && no_nl l2.
Proof. apply forallb_app. Qed.

Lemma gsub_fuel_no_nl m : keeps_no_nl m ->
  forall f b s, no_nl s = true -> no_nl (gsub_fuel m f b s) = true.
Proof.
  intros Hm f. induction f as [|f IH]; intros b s H; [exact H|].
  destruct s as [|c s]; [reflexivity|]. cbn [gsub_fuel].
  destruct (m b (c :: s)) as [[rep rest]|] eqn:E.
  - destruct (Hm _ _ _ _ H E) as [H1 H2]. rewrite no_nl_app, H1. apply IH, H2.
  - cbn in H |- *. apply andb_prop in H as [Hc H]. rewrite Hc. apply IH, H.
Qed.

Lemma delim_keeps delim d tag :
  no_nl (list_ascii_of_string ("<" ++ tag ++ ">")) = true ->
  no_nl (list_ascii_of_string ("</" ++ tag ++ ">")) = true ->
  keeps_no_nl (delim_match delim d tag).
Proof.
  intros T1 T2 b s rep rest H E. unfold delim_match in E.
  remember (list_ascii_of_string ("<" ++ tag ++ ">")) as o.
  remember (list_ascii_of_string ("</" ++ tag ++ ">")) as cl.
  destruct (match_prefix delim s) as [s1|] eqn:E1; [|discriminate].
  destruct (span_not (Ascii.eqb d) s1) as [run rest0] eqn:E2.
  destruct run as [|x run']; [discriminate|].
  destruct (match_prefix delim rest0) as [r|] eqn:E3; [|discriminate].
  injection E as <- <-.
  apply match_prefix_app in E1. apply span_not_app in E2. apply match_prefix_app in E3.
  subst s s1 rest0.
  subst. unfold no_nl in *. rewrite !forallb_app in *. cbn [forallb] in *.
  rewrite ?andb_true_iff in *. intuition; rewrite ?forallb_app, ?andb_true_iff; intuition.
Qed.

Lemma header_keeps p tag :
  no_nl (list_ascii_of_string ("<" ++ tag ++ ">")) = true ->
  no_nl (list_ascii_of_string ("</" ++ tag ++ ">")) = true ->
  keeps_no_nl (header_match p tag).
Proof.
  intros T1 T2 b s rep rest H E. unfold header_match in E. destruct b; [|discriminate].
  remember (list_ascii_of_string ("<" ++ tag ++ ">")) as o.
  remember (list_ascii_of_string ("</" ++ tag ++ ">")) as cl.
  destruct (match_prefix (list_ascii_of_string p) s) as [s1|] eqn:E1; [|discriminate].
  destruct (span_not is_line_terminator s1) as [run rest0] eqn:E2.
  destruct run as [|x run']; [discriminate|].
  injection E as <- <-.
  apply match_prefix_app in E1. apply span_not_app in E2.
  subst s s1.
  subst. unfold no_nl in *. rewrite !forallb_app in *. cbn [forallb] in *.
  rewrite ?andb_true_iff in *. intuition; rewrite ?forallb_app, ?andb_true_iff; intuition.
Qed.

Lemma br_no_nl l : no_nl (flat_map br_char l) = true.
Proof.
  induction l as [|c l IH]; [reflexivity|]. cbn [flat_map]. rewrite no_nl_app, IH, andb_true_r.
  unfold br_char. destruct (Ascii.eqb_spec c (chr 10)) as [->|Hn]; [reflexivity|].
  unfold no_nl. cbn [forallb]. destruct (Ascii.eqb_spec c (chr 10)); [contradiction | reflexivity].
Qed.

(** The output of [formatContent] of helpers.js never contains a newline character. *)
Theorem formatContent_no_newline content :
  ~ In (chr 10) (list_ascii_of_string (formatContent content)).
Proof.
  apply no_char_iff. fold (no_nl (list_ascii_of_string (formatContent content))).
  destruct content as [c|]; [|reflexivity]. unfold formatContent.
  destruct (String.eqb c EmptyString); [reflexivity|].
  rewrite list_ascii_of_string_of_list_ascii. unfold gsub at 7. rewrite gsub_br.
  pose proof (br_no_nl (list_ascii_of_string c)) as H.
  unfold gsub.
  repeat (apply gsub_fuel_no_nl;
          [first [apply delim_keeps | apply header_keeps]; reflexivity|]).
  exact H.
Qed.

Lemma panel_special_free l :
  (forall x, In x l -> ~ In x [chr 42; chr 96]) ->
  forallb (fun x => negb (panel_special x)) l = true.
Proof.
  intros H. apply forallb_forall. intros x Hx. specialize (H x Hx).
  unfold panel_special.
  destruct (Ascii.eqb_spec x (chr 96)) as [->|]; [exfalso; apply H; right; left; reflexivity|].
  destruct (Ascii.eqb_spec x (chr 42)) as [->|]; [exfalso; apply H; left; reflexivity|].
  reflexivity.
Qed.

Lemma code_match_panel b c s : panel_special c = false -> delim_match [chr 96] (chr 96) "code" b (c :: s) = None.
Proof. intros H; all_chars c; solve [discriminate H | reflexivity]. Qed.

Lemma strong_match_panel b c s :
  panel_special c = false -> delim_match [chr 42; chr 42] (chr 42) "strong" b (c :: s) = None.
Proof. intros H; all_chars c; solve [discriminate H | reflexivity]. Qed.

Lemma em_match_panel b c s : panel_special c = false -> delim_match [chr 42] (chr 42) "em" b (c :: s) = None.
Proof. intros H; all_chars c; solve [discriminate H | reflexivity]. Qed.

(** The side panel's [formatContent], on text without '*' or '`', only replaces each newline by '<br>' (HTML passes through unescaped), and its output never contains a newline character. *)
Theorem formatContent_panel_plain_text :
  (forall c, (forall x, In x (list_ascii_of_string c) -> ~ In x [chr 42; chr 96]) ->
     formatContent_panel (Some c) = string_of_list_ascii (flat_map br_char (list_ascii_of_string c))) /\
  (forall content, ~ In (chr 10) (list_ascii_of_string (formatContent_panel content))).
Proof.
  split.
  - intros c H. apply panel_special_free in H. unfold formatContent_panel.
    destruct (String.eqb_spec c EmptyString) as [->|_]; [reflexivity|].
    unfold gsub. rewrite gsub_br. apply (br_char_special_free panel_special) in H; [|reflexivity].
    set (l := flat_map br_char (list_ascii_of_string c)) in *.
    rewrite (gsub_fuel_id panel_special _ code_match_panel l true H).
    rewrite (gsub_fuel_id panel_special _ strong_match_panel l true H).
    rewrite (gsub_fuel_id panel_special _ em_match_panel l true H).
    reflexivity.
  - intros content. apply no_char_iff.
    fold (no_nl (list_ascii_of_string (formatContent_panel content))).
    destruct content as [c|]; [|reflexivity]. unfold formatContent_panel.
    destruct (String.eqb c EmptyString); [reflexivity|].
    rewrite list_ascii_of_string_of_list_ascii. unfold gsub at 4. rewrite gsub_br.
    pose proof (br_no_nl (list_ascii_of_string c)) as H.
    unfold gsub.
    repeat (apply gsub_fuel_no_nl; [apply delim_keeps; reflexivity|]).
    exact H.
Qed.

Lemma split_on_app_sep c s1 s2 :
  ~ In c (list_ascii_of_string s1) ->
  split_on c (s1 ++ String c s2)%string = s1 :: split_on c s2.
Proof.
  induction s1 as [|a s1 IH]; intros H.
  - rewrite append_Empty. cbn [split_on]. rewrite Ascii.eqb_refl. reflexivity.
  - rewrite append_String. cbn [split_on]. cbn in H.
    destruct (Ascii.eqb_spec a c) as [->|Hn]; [tauto|].
    rewrite IH by tauto. reflexivity.
Qed.

Lemma split_on_concat segs : forall x,
  Forall path_segment (x :: segs) ->
  split_on (chr 47) (String.concat (String (chr 47) EmptyString) (x :: segs)) = x :: segs.
Proof.
  induction segs as [|y ys IH]; intros x H; inversion H as [|? ? [_ Hx] Hs]; subst.
  - apply split_on_no_sep, Hx.
  - change (String.concat (String (chr 47) EmptyString) (x :: y :: ys))
      with (x ++ String (chr 47) EmptyString ++ String.concat (String (chr 47) EmptyString) (y :: ys))%string.
    rewrite append_String, append_Empty, split_on_app_sep by exact Hx.
    f_equal. apply IH, Hs.
Qed.

Lemma filter_segments segs :
  Forall path_segment segs ->
  List.filter (fun p => negb (String.eqb p EmptyString)) segs = segs.
Proof.
  induction 1 as [|x xs [Hx _] _ IH]; [reflexivity|]. cbn.
  destruct (String.eqb_spec x EmptyString); [contradiction|]. cbn. f_equal. exact IH.
Qed.

Lemma concat_nonempty sep x xs : x <> EmptyString -> String.concat sep (x :: xs) <> EmptyString.
Proof.
  intros Hx. destruct xs as [|y ys]; [exact Hx|].
  change (String.concat sep (x :: y :: ys)) with (x ++ sep ++ String.concat sep (y :: ys))%string.
  destruct x as [|a x]; [contradiction|]. rewrite append_String. discriminate.
Qed.

(** For a GitHub host and a pathname '/o/r/t/...', [parseGitHubURL] returns owner o, repo r, type t, the remaining segments joined by '/' as path (null when there are none), isPR and isFile exactly when t is 'pull' and 'blob', and isGist when the host contains 'gist.github.com'. *)
Theorem parseGitHubURL_segments URL_parse u hostname o r t rest :
  u <> EmptyString ->
  Forall path_segment (o :: r :: t :: rest) ->
  URL_parse u = Some (hostname,
    String (chr 47) (String.concat (String (chr 47) EmptyString) (o :: r :: t :: rest))) ->
  includes hostname "github.com" = true ->
  parseGitHubURL URL_parse (Some u) =
  Some (mkGitHubURLInfo (Some o) (Some r) (Some t)
          (match rest with
           | [] => None
           | _ => Some (String.concat (String (chr 47) EmptyString) rest)
           end)
          (String.eqb t "pull") (String.eqb t "blob")
          (includes hostname "gist.github.com")).
Proof.
  intros Hu Hs Hp Hg. unfold parseGitHubURL.
  destruct (String.eqb_spec u EmptyString); [contradiction|]. rewrite Hp, Hg. cbn [negb].
  change (split_on (chr 47) (String (chr 47) ?x)) with
    (if Ascii.eqb (chr 47) (chr 47) then EmptyString :: split_on (chr 47) x
     else match split_on (chr 47) x with
          | [] => [String (chr 47) EmptyString]
          | w :: ws => String (chr 47) w :: ws end).
  rewrite Ascii.eqb_refl, split_on_concat by exact Hs.
  change (List.filter ?f (EmptyString :: ?l)) with (List.filter f l).
  rewrite filter_segments by exact Hs.
  inversion Hs as [|? ? [Ho _] Hs1]; subst. inversion Hs1 as [|? ? [Hr _] Hs2]; subst.
  inversion Hs2 as [|? ? [Ht _] Hs3]; subst.
  unfold or_null. cbn [nth_error skipn].
  destruct (String.eqb_spec o EmptyString); [contradiction|].
  destruct (String.eqb_spec r EmptyString); [contradiction|].
  destruct (String.eqb_spec t EmptyString); [contradiction|].
  f_equal. f_equal.
  destruct rest as [|x xs]; cbn [skipn]; [reflexivity|].
  inversion Hs3 as [|? ? [Hx _] _]; subst.
  destruct (String.eqb_spec (String.concat (String (chr 47) EmptyString) (x :: xs)) EmptyString) as [E|];
    [exfalso; exact (concat_nonempty _ _ _ Hx E) | reflexivity].
Qed.

Lemma parseGitHubURL_segments_witness :
  parseGitHubURL (fun _ => Some ("github.com", "/negimm/ai-code-reviewer/blob/src/utils/helpers.js"))
    (Some "https://github.com/negimm/ai-code-reviewer/blob/src/utils/helpers.js")
  = Some (mkGitHubURLInfo (Some "negimm") (Some "ai-code-reviewer") (Some "blob")
            (Some "src/utils/helpers.js") false true false).
Proof.
  apply (parseGitHubURL_segments _ _ "github.com" "negimm" "ai-code-reviewer" "blob"
           ["src"; "utils"; "helpers.js"]).
  - discriminate.
  - repeat constructor; try discriminate; apply no_char_iff; reflexivity.
  - reflexivity.
  - reflexivity.
Defined.

(** [parseGitHubURL] returns null for a missing or empty url, for a url that new URL rejects, and for a host that does not contain 'github.com'. *)
Theorem parseGitHubURL_null URL_parse u :
  parseGitHubURL URL_parse None = None /\
  parseGitHubURL URL_parse (Some EmptyString) = None /\
  (URL_parse u = None -> parseGitHubURL URL_parse (Some u) = None) /\
  (forall hostname pathname, URL_parse u = Some (hostname, pathname) ->
     (forall m, substring m 10 hostname <> "github.com") ->
     parseGitHubURL URL_parse (Some u) = None).
Proof.
  split; [reflexivity|]. split; [reflexivity|]. unfold parseGitHubURL. split.
  - intros H. destruct (String.eqb u EmptyString); [reflexivity|]. rewrite H. reflexivity.
  - intros h p H Hno. destruct (String.eqb u EmptyString); [reflexivity|]. rewrite H.
    unfold includes. destruct (String.index 0 "github.com" h) as [i|] eqn:E; [|reflexivity].
    exfalso. exact (Hno i (index_correct1 0 i "github.com" h E)).
Qed.
